(** * xlf-translation-generator: reconciliation, export and language registry

    A shallow embedding of the JavaScript sources
      - [src/main.js]          ([extractCategory], [syncXLFtoSheet], [getLanguages];
                                 both revisions of the file: the one that issues
                                 targeted row updates and the one that rewrites
                                 the whole sheet),
      - [src/xlf-exporter.js]  ([exportXLF], [getAvailableLanguages]),
      - [src/xlf-parser.js]    ([parseXLF]),
      - [src/config.js]        ([LANGUAGES], [BASE_COLUMNS]),
    followed by the properties of the specification stated over it.

    Conventions.
      - A JavaScript string is a [string]; every character stands for one
        UTF-16 code unit (so [String.length] is the [.length] property).
      - A sheet row is a JavaScript object used as a map from column name to
        cell value: a [gmap string JSValue] of its own fields.  Reading a
        field that the row lacks yields [undefined] for the names the code
        spells out ([id], [active], ...); where the name comes from the
        data, the row answers with the member that every object inherits
        when there is one of that name ([read]), and an assignment to
        [__proto__] sets no field ([assign]).
      - A JavaScript [Map] is an insertion-ordered association list.
      - Code that can throw returns a [Result].
      - The XML builder of the xml2js library is a parameter of the export:
        [exportXLF] is modelled for any behaviour of it. *)

From Stdlib Require Import ZArith NArith Ascii String List Bool Lia.
From stdpp Require Import base decidable option list strings gmap.

Local Open Scope string_scope.
Local Open Scope list_scope.
Local Open Scope Z_scope.
Local Open Scope nat_scope.

(** ** JavaScript values *)

Module JS.

(** Numbers.  A JavaScript number is an IEEE-754 double.  The finite non-zero
    doubles are dyadic rationals; [Dyadic neg k e] is the number
    [(-1)^neg * (2k+1) * 2^e], which gives every dyadic rational exactly one
    representation.  The two zeros are identified: no operation used by the
    program ([!x], [isNaN], [>], [===], Map keys) tells them apart. *)
Inductive JSNumber :=
| NaN
| Infinity (neg : bool)
| Zero
| Dyadic (neg : bool) (k : N) (e : Z).

Inductive JSValue :=
| JUndefined
| JNull
| JBool (b : bool)
| JNum (n : JSNumber)
| JStr (s : string).

#[global] Instance JSNumber_eq_dec : EqDecision JSNumber.
Proof. solve_decision. Defined.

#[global] Instance JSValue_eq_dec : EqDecision JSValue.
Proof. solve_decision. Defined.

#[global] Instance JSValue_inhabited : Inhabited JSValue := populate JUndefined.

(** [!!v] *)
Definition truthy (v : JSValue) : bool :=
  match v with
  | JUndefined | JNull => false
  | JBool b => b
  | JNum NaN | JNum Zero => false
  | JNum _ => true
  | JStr s => negb (String.eqb s "")
  end.

(** [a === b]: equal types and equal values, except that [NaN] differs from
    itself. *)
Definition strict_eq (a b : JSValue) : bool :=
  match a with
  | JNum NaN => false
  | _ => bool_decide (a = b)
  end.

(** [a !== b] *)
Definition strict_ne (a b : JSValue) : bool := negb (strict_eq a b).

(** [a || b] *)
Definition or_else (a b : JSValue) : JSValue := if truthy a then a else b.

(** [typeof v === 'string'] *)
Definition is_string (v : JSValue) : bool :=
  match v with JStr _ => true | _ => false end.

(** *** Strings *)

(** WhiteSpace and LineTerminator code units below 256: TAB, LF, VT, FF, CR,
    SP and NBSP. *)
Definition is_white_space (c : ascii) : bool :=
  let n := nat_of_ascii c in
  ((9 <=? n) && (n <=? 13)) || (n =? 32) || (n =? 160).

Fixpoint trimStart (s : string) : string :=
  match s with
  | EmptyString => EmptyString
  | String c s' => if is_white_space c then trimStart s' else s
  end.

Fixpoint trimEnd (s : string) : string :=
  match s with
  | EmptyString => EmptyString
  | String c s' =>
      let t := trimEnd s' in
      if is_white_space c && String.eqb t "" then "" else String c t
  end.

(** [s.trim()] *)
Definition trim (s : string) : string := trimEnd (trimStart s).

(** [s.split(sep)] for a one-character separator. *)
Fixpoint split (sep : ascii) (s : string) : list string :=
  match s with
  | EmptyString => [""]
  | String c s' =>
      if Ascii.eqb c sep then "" :: split sep s'
      else match split sep s' with
           | h :: t => String c h :: t
           | [] => [String c ""]
           end
  end.

(** *** [Number(v)] *)

(** The double nearest to [p / q] (for [0 <= p], [0 < q]), ties to even, as
    the Number value of a mathematical value is defined. *)
Fixpoint odd_part (p : positive) (e : Z) : N * Z :=
  match p with
  | xO p' => odd_part p' (e + 1)
  | xI p' => (Npos p', e)
  | xH => (0%N, e)
  end.

Definition dyadic (neg : bool) (m e : Z) : JSNumber :=
  match m with
  | Zpos p => let '(k, e') := odd_part p e in Dyadic neg k e'
  | _ => Zero
  end.

Definition round_to_double (neg : bool) (p q : Z) : JSNumber :=
  if (p <=? 0)%Z then Zero else
  let num (e : Z) := if (0 <=? e)%Z then p else (p * 2 ^ (- e))%Z in
  let den (e : Z) := if (0 <=? e)%Z then (q * 2 ^ e)%Z else q in
  let e0 := (Z.log2 p - Z.log2 q - 52)%Z in
  let e1 := if (num e0 <? den e0 * 2 ^ 52)%Z then (e0 - 1)%Z else e0 in
  let e := Z.max e1 (- 1074) in
  let m := (num e / den e)%Z in
  let r := (num e mod den e)%Z in
  let m' := if (den e <? 2 * r)%Z || ((den e =? 2 * r)%Z && Z.odd m)
            then (m + 1)%Z else m in
  if (0 <=? e)%Z && (2 ^ 1024 <=? m' * 2 ^ e)%Z then Infinity neg
  else dyadic neg m' e.

Definition digit_value (base : Z) (c : ascii) : option Z :=
  let n := Z.of_nat (nat_of_ascii c) in
  let d := if (48 <=? n)%Z && (n <=? 57)%Z then Some (n - 48)%Z
           else if (97 <=? n)%Z && (n <=? 102)%Z then Some (n - 87)%Z
           else if (65 <=? n)%Z && (n <=? 70)%Z then Some (n - 55)%Z
           else None in
  match d with
  | Some v => if (v <? base)%Z then Some v else None
  | None => None
  end.

(** The longest prefix of digits of [s] in [base]: its value, its length and
    the rest of [s]. *)
Fixpoint span_digits (base : Z) (s : string) (acc : Z) (len : Z)
  : Z * Z * string :=
  match s with
  | EmptyString => (acc, len, s)
  | String c s' =>
      match digit_value base c with
      | Some d => span_digits base s' (acc * base + d)%Z (len + 1)%Z
      | None => (acc, len, s)
      end
  end.

(** NonDecimalIntegerLiteral without its prefix. *)
Definition non_decimal (base : Z) (s : string) : JSNumber :=
  match span_digits base s 0 0 with
  | (v, len, EmptyString) =>
      if (0 <? len)%Z then round_to_double false v 1 else NaN
  | _ => NaN
  end.

(** ExponentPart, when present. *)
Definition exponent_part (s : string) : option Z :=
  match s with
  | EmptyString => Some 0%Z
  | String c s' =>
      if Ascii.eqb c "e" || Ascii.eqb c "E" then
        let '(neg, s'') :=
          match s' with
          | String "-" t => (true, t)
          | String "+" t => (false, t)
          | _ => (false, s')
          end in
        match span_digits 10 s'' 0 0 with
        | (v, len, EmptyString) =>
            if (0 <? len)%Z then Some (if neg then (- v)%Z else v) else None
        | _ => None
        end
      else None
  end.

(** StrUnsignedDecimalLiteral. *)
Definition unsigned_decimal (neg : bool) (s : string) : JSNumber :=
  if String.eqb s "Infinity" then Infinity neg else
  let '(ip, ilen, r1) := span_digits 10 s 0 0 in
  let '(m, flen, r2) :=
    match r1 with
    | String "." r => span_digits 10 r ip 0
    | _ => (ip, 0%Z, r1)
    end in
  if (ilen + flen =? 0)%Z then NaN else
  match exponent_part r2 with
  | Some x =>
      let x' := (x - flen)%Z in
      if (0 <=? x')%Z then round_to_double neg (m * 10 ^ x') 1
      else round_to_double neg m (10 ^ (- x'))
  | None => NaN
  end.

(** StringToNumber. *)
Definition string_to_number (s : string) : JSNumber :=
  match trim s with
  | EmptyString => Zero
  | String "0" (String "x" t) | String "0" (String "X" t) => non_decimal 16 t
  | String "0" (String "o" t) | String "0" (String "O" t) => non_decimal 8 t
  | String "0" (String "b" t) | String "0" (String "B" t) => non_decimal 2 t
  | String "-" t => unsigned_decimal true t
  | String "+" t => unsigned_decimal false t
  | t => unsigned_decimal false t
  end.

Definition Number (v : JSValue) : JSNumber :=
  match v with
  | JUndefined => NaN
  | JNull => Zero
  | JBool true => Dyadic false 0 0
  | JBool false => Zero
  | JNum n => n
  | JStr s => string_to_number s
  end.

Definition isNaN (n : JSNumber) : bool :=
  match n with NaN => true | _ => false end.

(** [len > max] for a string length [len]. *)
Definition length_gt (len : nat) (max : JSNumber) : bool :=
  match max with
  | NaN => false
  | Infinity neg => neg
  | Zero => 0 <? len
  | Dyadic true _ _ => true
  | Dyadic false k e =>
      let m := (2 * Z.of_N k + 1)%Z in
      if (0 <=? e)%Z then (m * 2 ^ e <? Z.of_nat len)%Z
      else (m <? Z.of_nat len * 2 ^ (- e))%Z
  end.

End JS.

Import JS.

(** ** Exceptions *)

Inductive Error :=
| TypeError (what : string)          (* a method called on a value that lacks it *)
| UnknownTargetLanguage (lang : string)
| InvalidFormat                      (* missing xliff or file element *)
| InvalidSourceLanguage              (* only en_US is supported *)
| BuilderError (message : string).   (* thrown by the XML builder *)

Inductive Result (A : Type) :=
| Ok (a : A)
| Err (e : Error).
Arguments Ok {A} a.
Arguments Err {A} e.

#[global] Instance Result_bind : MBind Result := λ A B k m,
  match m with
  | Ok a => k a
  | Err e => Err e
  end.

(** [array.filter(f)] for a callback that can throw. *)
Fixpoint filterM {A} (f : A → Result bool) (l : list A) : Result (list A) :=
  match l with
  | [] => Ok []
  | x :: l' =>
      b ← f x;
      r ← filterM f l';
      Ok (if b : bool then x :: r else r)
  end.

(** ** Rows *)

Abbreviation Row := (gmap string JSValue).

(** [row.col], for a name [col] that no object inherits. *)
Definition get (row : Row) (col : string) : JSValue :=
  default JUndefined (row !! col).

(** The names of the members that every object inherits from
    [Object.prototype]. *)
Definition Object_prototype : list string :=
  [ "constructor"; "__proto__"; "hasOwnProperty"; "isPrototypeOf";
    "propertyIsEnumerable"; "toLocaleString"; "toString"; "valueOf";
    "__defineGetter__"; "__defineSetter__"; "__lookupGetter__";
    "__lookupSetter__" ].

(** [row[col]] for a name that comes from the data: the field of the row;
    without such a field, the inherited member of that name (a function, or
    the prototype itself for [__proto__]: an object in either case), and
    [undefined] when there is none. *)
Inductive Cell :=
| Value (v : JSValue)
| Member (name : string).

#[global] Instance Cell_eq_dec : EqDecision Cell.
Proof. solve_decision. Defined.

Definition read (row : Row) (col : string) : Cell :=
  match row !! col with
  | Some v => Value v
  | None =>
      if bool_decide (col ∈ Object_prototype) then Member col
      else Value JUndefined
  end.

(** [row[col] = text] for a string [text]: the field is set, except that
    on a row without a field [__proto__] the assignment to that name goes to
    the inherited setter, which ignores a string. *)
Definition assign (row : Row) (col : string) (text : string) : Row :=
  if bool_decide (col = "__proto__" ∧ row !! col = None) then row
  else <[col := JStr text]> row.

(** [cols.forEach(col => { row[col] = ''; })] *)
Definition clearColumns (cols : list string) (row : Row) : Row :=
  fold_left (fun r col => assign r col "") cols row.

(** ** [src/config.js] *)

Definition LANGUAGES : list (string * string) :=
  [ ("Spanish", "es"); ("French", "fr"); ("Portuguese", "pt_BR");
    ("German", "de"); ("Italian", "it"); ("Turkish", "tr");
    ("Dutch", "nl_NL"); ("Greek", "el"); ("Arabic", "ar");
    ("Indonesian", "id"); ("Japanese", "ja"); ("Thai", "th");
    ("Swedish", "sv"); ("Danish", "da"); ("Finnish", "fi");
    ("Norwegian", "no"); ("Korean", "ko"); ("Croatian", "hr");
    ("Vietnamese", "vi"); ("Bulgarian", "bg"); ("Polish", "pl");
    ("Czech", "cs"); ("Romanian", "ro"); ("Ukrainian", "uk");
    ("Hungarian", "hu"); ("Slovenian", "sl"); ("Slovak", "sk");
    ("Hebrew", "he") ].

Definition BASE_COLUMNS : list string := ["id"; "maxwidth"; "size-unit"; "English"].

(** [Object.keys(LANGUAGES)]: the keys are not integer-like, so they come out
    in the order they are written. *)
Definition Object_keys {V} (o : list (string * V)) : list string := map fst o.

(** What [LANGUAGES[name]] evaluates to: the configured code of an own
    property, or, since [LANGUAGES] is an object literal, a member inherited
    from [Object.prototype]. *)
Inductive LangCode :=
| Code (c : string)
| Inherited (name : string).

Fixpoint assoc {V} (k : string) (o : list (string * V)) : option V :=
  match o with
  | [] => None
  | (k', v) :: o' => if String.eqb k k' then Some v else assoc k o'
  end.

Definition LANGUAGES_get (name : string) : option LangCode :=
  match assoc name LANGUAGES with
  | Some c => Some (Code c)
  | None =>
      if bool_decide (name ∈ Object_prototype) then Some (Inherited name)
      else None
  end.

(** ** [src/xlf-exporter.js] *)

Module Exporter.

Record MaxwidthError := {
  err_id : JSValue;
  err_value : JSValue;
  err_maxwidth : JSValue
}.

(** One [trans-unit] handed to the XML builder. *)
Record TransUnit := {
  unit_id : JSValue;
  unit_maxwidth : JSValue;
  unit_size_unit : JSValue;
  unit_source : JSValue;
  unit_target : JSValue
}.

(** What [innerBuilder.buildObject(innerXliffStructure)] comes to: the XML
    text, or the message of the error that is thrown.  Of the structure only
    the [target-language] attribute and the [trans-unit] array vary, and
    they are what a builder is given here. *)
Inductive Built :=
| Xml (text : string)
| Throws (message : string).

Definition Builder := LangCode → list TransUnit → Built.

(** The value [exportXLF] returns, [{xlf, maxwidthErrors}], and with it what
    [xlf] was built from: the target-language code and the [trans-unit]
    array of [innerXliffStructure]. *)
Record ExportResult := {
  xlf : string;
  xlf_target_language : LangCode;
  xlf_trans_units : list TransUnit;
  maxwidthErrors : list MaxwidthError
}.

(** The callback of the first [filter]: the liveness test. *)
Definition isActive (row : Row) : bool :=
  let active := get row "active" in
  if negb (truthy active) then false
  else if strict_eq active (JBool false) || strict_eq active (JStr "false")
          || strict_eq active (JStr "FALSE") || strict_eq active (JStr "0")
       then false
  else true.

(** [row[targetLang] && row[targetLang].trim() !== '']; an inherited member
    is truthy and has no [trim]. *)
Definition hasTranslation (targetLang : string) (row : Row) : Result bool :=
  match read row targetLang with
  | Member _ => Err (TypeError "row[targetLang].trim is not a function")
  | Value t =>
      if negb (truthy t) then Ok false
      else match t with
           | JStr s => Ok (negb (String.eqb (trim s) ""))
           | _ => Err (TypeError "row[targetLang].trim is not a function")
           end
  end.

(** The callback of the third [filter]; it pushes onto [maxwidthErrors],
    which is threaded through here.  The rows it is given have passed
    [hasTranslation]: their [row[targetLang]] is a field of the row. *)
Definition checkMaxwidth (targetLang : string) (row : Row)
    (errors : list MaxwidthError) : bool * list MaxwidthError :=
  if truthy (get row "maxwidth") && negb (isNaN (Number (get row "maxwidth")))
  then
    let max := Number (get row "maxwidth") in
    match get row targetLang with
    | JStr s =>
        if length_gt (String.length s) max then
          (false, errors ++ [ {| err_id := get row "id";
                                 err_value := get row targetLang;
                                 err_maxwidth := get row "maxwidth" |} ])
        else (true, errors)
    | _ => (true, errors)
    end
  else (true, errors).

Fixpoint filterMaxwidth (targetLang : string) (rows : list Row)
    (errors : list MaxwidthError) : list Row * list MaxwidthError :=
  match rows with
  | [] => ([], errors)
  | row :: rows' =>
      let '(keep, errors') := checkMaxwidth targetLang row errors in
      let '(kept, errors'') := filterMaxwidth targetLang rows' errors' in
      (if keep then row :: kept else kept, errors'')
  end.

Definition toTransUnit (targetLang : string) (row : Row) : TransUnit :=
  {| unit_id := or_else (get row "id") (JStr "");
     unit_maxwidth := or_else (get row "maxwidth") (JStr "");
     unit_size_unit := or_else (get row "size-unit") (JStr "");
     unit_source := or_else (get row "English") (JStr "");
     unit_target := get row targetLang |}.

Definition exportXLF (buildObject : Builder) (targetLang : string)
    (sheetData : list Row) : Result ExportResult :=
  match LANGUAGES_get targetLang with
  | None => Err (UnknownTargetLanguage targetLang)
  | Some langCode =>
      let activeRecords := filter (λ row, isActive row) sheetData in
      translated ← filterM (hasTranslation targetLang) activeRecords;
      let '(kept, errors) := filterMaxwidth targetLang translated [] in
      let transUnits := map (toTransUnit targetLang) kept in
      match buildObject langCode transUnits with
      | Throws message => Err (BuilderError message)
      | Xml xmlString =>
          Ok {| xlf := xmlString;
                xlf_target_language := langCode;
                xlf_trans_units := transUnits;
                maxwidthErrors := errors |}
      end
  end.

(** [sheetHeaders] is [None] when the argument is left out. *)
Definition getAvailableLanguages (sheetHeaders : option (list string))
  : list string :=
  match sheetHeaders with
  | None => Object_keys LANGUAGES
  | Some headers =>
      filter (λ lang, lang ∈ headers) (Object_keys LANGUAGES)
  end.

End Exporter.

(** [getLanguages] of [src/main.js]; [sheetHeaders] is the outcome of
    [await getSheetHeaders()]. *)
Definition getLanguages (sheetHeaders : Result (list string)) : list string :=
  match sheetHeaders with
  | Ok headers => Exporter.getAvailableLanguages (Some headers)
  | Err _ => Exporter.getAvailableLanguages None
  end.

(** [extractCategory] of [src/main.js]. *)
Definition extractCategory (id : JSValue) : string :=
  if negb (truthy id) || negb (is_string id) then ""
  else match id with
       | JStr s =>
           match split "." s with
           | part0 :: _ => part0     (* [parts[0] || ''] *)
           | [] => ""
           end
       | _ => ""
       end.

(** ** [src/xlf-parser.js] *)

Module XlfParser.

(** What the XML parser hands back (xml2js with [explicitArray: false] and
    [mergeAttrs: true]): an element with only text is a string, an element
    with attributes or children is an object keyed by their names, and a
    repeated child is an array. *)
#[local] Set Warnings "-register-all".
Inductive XValue :=
| XText (s : string)
| XObject (props : list (string * XValue))
| XArray (items : list XValue).

(** [v[name]] for the names the parser reads; [None] is [undefined]. *)
Definition prop (v : XValue) (name : string) : option XValue :=
  match v with
  | XObject props => assoc name props
  | _ => None
  end.

Definition truthyX (o : option XValue) : bool :=
  match o with
  | None => false
  | Some (XText s) => negb (String.eqb s "")
  | Some _ => true
  end.

(** [o !== text] for a string literal [text] *)
Definition strict_ne_text (o : option XValue) (text : string) : bool :=
  match o with
  | Some (XText s) => negb (String.eqb s text)
  | _ => true
  end.

(** [o && o[name]] *)
Definition and_prop (o : option XValue) (name : string) : option XValue :=
  if truthyX o then o ≫= (fun v => prop v name) else o.

(** [o || ''] *)
Definition or_empty (o : option XValue) : XValue :=
  match o with
  | Some v => if truthyX o then v else XText ""
  | None => XText ""
  end.

Record ParsedSegment := {
  id : XValue;
  source : XValue;
  maxwidth : XValue;
  sizeUnit : XValue;
  note : XValue
}.

Record Parsed := {
  sourceLanguage : option XValue;
  targetLanguage : option XValue;
  original : option XValue;
  segments : list ParsedSegment
}.

(** [Array.isArray(x) ? x : [x]] *)
Definition as_array (o : option XValue) : list (option XValue) :=
  match o with
  | Some (XArray items) => map Some items
  | _ => [o]
  end.

Definition transUnitsOf (file : XValue) : list (option XValue) :=
  let body := prop file "body" in
  if truthyX body then
    let innerBody := and_prop (and_prop (and_prop body "xliff") "file") "body" in
    if truthyX innerBody then
      as_array (innerBody ≫= (fun b => prop b "trans-unit"))
    else if truthyX (body ≫= (fun b => prop b "trans-unit")) then
      as_array (body ≫= (fun b => prop b "trans-unit"))
    else []
  else [].

Fixpoint extractSegments (transUnits : list (option XValue)) : list ParsedSegment :=
  match transUnits with
  | [] => []
  | o :: rest =>
      match o with
      | Some unit =>
          if truthyX o then
            {| id := or_empty (prop unit "id");
               source := or_empty (prop unit "source");
               maxwidth := or_empty (prop unit "maxwidth");
               sizeUnit := or_empty (prop unit "size-unit");
               note := or_empty (prop unit "note") |} :: extractSegments rest
          else extractSegments rest
      | None => extractSegments rest
      end
  end.

(** [parseXLF], from the result of the XML parser on ([None]: the parser
    produced [null], as it does for a blank document). *)
Definition parseXLF (result : option XValue) : Result Parsed :=
  match result with
  | None => Err (TypeError "Cannot read properties of null")
  | Some root =>
      if negb (truthyX (prop root "xliff"))
         || negb (truthyX (and_prop (prop root "xliff") "file"))
      then Err InvalidFormat
      else
        match and_prop (prop root "xliff") "file" with
        | None => Err InvalidFormat
        | Some file =>
            if strict_ne_text (prop file "source-language") "en_US"
            then Err InvalidSourceLanguage
            else
              Ok {| sourceLanguage := prop file "source-language";
                    targetLanguage := prop file "target-language";
                    original := prop file "original";
                    segments := extractSegments (transUnitsOf file) |}
        end
  end.

End XlfParser.

(** ** JavaScript [Map] *)

Module JSMap.

(** Entries in insertion order; every key occurs once.  Keys are compared
    with SameValueZero, which on [JSValue] is equality. *)
Abbreviation t V := (list (JSValue * V)).

Section operations.
Context {V : Type}.

Fixpoint set (k : JSValue) (v : V) (m : t V) : t V :=
  match m with
  | [] => [(k, v)]
  | (k', v') :: m' =>
      if decide (k' = k) then (k, v) :: m' else (k', v') :: set k v m'
  end.

Fixpoint get (k : JSValue) (m : t V) : option V :=
  match m with
  | [] => None
  | (k', v') :: m' => if decide (k' = k) then Some v' else get k m'
  end.

Definition has (k : JSValue) (m : t V) : bool :=
  match get k m with Some _ => true | None => false end.

Fixpoint delete (k : JSValue) (m : t V) : t V :=
  match m with
  | [] => []
  | (k', v') :: m' =>
      if decide (k' = k) then m' else (k', v') :: delete k m'
  end.

Definition keys (m : t V) : list JSValue := map fst m.
End operations.
End JSMap.

(** ** [src/main.js]: synchronisation *)

(** A segment as [parseXLF] extracts it from a [trans-unit] whose attributes
    and [source] element are plain text. *)
Module Segment.
Record t := {
  id : string;
  source : string;
  maxwidth : string;
  sizeUnit : string;
  note : string
}.
End Segment.

Record Stats := {
  added : nat;
  updated : nat;
  unchanged : nat;
  deactivated : nat
}.

Definition stats0 : Stats :=
  {| added := 0; updated := 0; unchanged := 0; deactivated := 0 |}.

Definition incr_added (s : Stats) : Stats :=
  {| added := S (added s); updated := updated s;
     unchanged := unchanged s; deactivated := deactivated s |}.
Definition incr_updated (s : Stats) : Stats :=
  {| added := added s; updated := S (updated s);
     unchanged := unchanged s; deactivated := deactivated s |}.
Definition incr_unchanged (s : Stats) : Stats :=
  {| added := added s; updated := updated s;
     unchanged := S (unchanged s); deactivated := deactivated s |}.
Definition incr_deactivated (s : Stats) : Stats :=
  {| added := added s; updated := updated s;
     unchanged := unchanged s; deactivated := S (deactivated s) |}.

(** [segments.forEach(seg => { xlfMap.set(seg.id, seg); })] *)
Definition indexSegments (segments : list Segment.t) : JSMap.t Segment.t :=
  fold_left (fun m seg => JSMap.set (JStr (Segment.id seg)) seg m) segments [].

(** [sheetData.forEach(row => { if (row.id) sheetMap.set(row.id, row); })] *)
Definition indexRows (sheetData : list Row) : JSMap.t Row :=
  fold_left (fun m row =>
               if truthy (get row "id") then JSMap.set (get row "id") row m
               else m) sheetData [].

(** [sheetHeaders.filter(h => !BASE_COLUMNS.includes(h) && h !== 'active')] *)
Definition languageColumns (sheetHeaders : list string) : list string :=
  filter (λ h, (h ∉ BASE_COLUMNS) ∧ h ≠ "active") sheetHeaders.

(** The row built for a segment that is not in the sheet yet. *)
Definition newRow (languageColumns : list string) (segment : Segment.t) : Row :=
  clearColumns languageColumns
    (<["active" := JBool true]>
     (<["English" := JStr (Segment.source segment)]>
      (<["size-unit" := JStr (Segment.sizeUnit segment)]>
       (<["maxwidth" := JStr (Segment.maxwidth segment)]>
        (<["category" := JStr (extractCategory (JStr (Segment.id segment)))]>
         (<["id" := JStr (Segment.id segment)]> ∅)))))).

(** [{...row, English: segment.source, maxwidth: segment.maxwidth,
      'size-unit': segment.sizeUnit, active: true}] with every language
    column then set to [''] *)
Definition sourceChangedRow (languageColumns : list string)
    (row : Row) (segment : Segment.t) : Row :=
  clearColumns languageColumns
    (<["active" := JBool true]>
     (<["size-unit" := JStr (Segment.sizeUnit segment)]>
      (<["maxwidth" := JStr (Segment.maxwidth segment)]>
       (<["English" := JStr (Segment.source segment)]> row)))).

(** [{...row, maxwidth: segment.maxwidth, 'size-unit': segment.sizeUnit,
      active: true}] *)
Definition metadataRow (row : Row) (segment : Segment.t) : Row :=
  <["active" := JBool true]>
  (<["size-unit" := JStr (Segment.sizeUnit segment)]>
   (<["maxwidth" := JStr (Segment.maxwidth segment)]> row)).

(** [{...row, active: false}] *)
Definition deactivatedRow (row : Row) : Row := <["active" := JBool false]> row.

(** In both revisions [syncXLFtoSheet] is modelled from the values it
    awaits: the segments of [parseXLF], the rows of [readSheet] and the
    headers of [getSheetHeaders].  What it writes to the sheet is part of
    its result. *)

(** *** First revision: targeted row updates and appends *)

Module TargetedSync.

(** [sheetMap] and [updatedData] are built in this revision too, but never
    read. *)

(** One entry of [rowsToUpdate]. *)
Record RowUpdate := { row : nat; data : Row }.

(** The variables the loop over [sheetData] mutates. *)
Record LoopState := {
  xlfMap : JSMap.t Segment.t;
  rowsToUpdate : list RowUpdate;
  stats : Stats
}.

(** [!row.id || row.id.trim() === ''] *)
Definition invalidId (id : JSValue) : Result bool :=
  if negb (truthy id) then Ok true
  else match id with
       | JStr s => Ok (String.eqb (trim s) "")
       | _ => Err (TypeError "row.id.trim is not a function")
       end.

(** The body of [for (let i = 0; i < sheetData.length; i++)]. *)
Definition processRow (languageColumns : list string) (i : nat) (r : Row)
    (st : LoopState) : Result LoopState :=
  let rowNumber := i + 2 in
  skip ← invalidId (get r "id");
  if skip : bool then Ok st
  else
    match JSMap.get (get r "id") (xlfMap st) with
    | Some segment =>
        let needsUpdate :=
          strict_ne (get r "English") (JStr (Segment.source segment))
          || strict_ne (get r "active") (JBool true)
          || strict_ne (get r "maxwidth") (JStr (Segment.maxwidth segment))
          || strict_ne (get r "size-unit") (JStr (Segment.sizeUnit segment)) in
        let '(updates, stats') :=
          if needsUpdate then
            if strict_ne (get r "English") (JStr (Segment.source segment)) then
              (rowsToUpdate st ++
                 [ {| row := rowNumber;
                      data := sourceChangedRow languageColumns r segment |} ],
               incr_updated (stats st))
            else
              (rowsToUpdate st ++
                 [ {| row := rowNumber; data := metadataRow r segment |} ],
               incr_unchanged (stats st))
          else (rowsToUpdate st, incr_unchanged (stats st)) in
        Ok {| xlfMap := JSMap.delete (get r "id") (xlfMap st);
              rowsToUpdate := updates;
              stats := stats' |}
    | None =>
        Ok {| xlfMap := xlfMap st;
              rowsToUpdate :=
                if strict_ne (get r "active") (JBool false) then
                  rowsToUpdate st ++
                    [ {| row := rowNumber; data := deactivatedRow r |} ]
                else rowsToUpdate st;
              stats := incr_deactivated (stats st) |}
    end.

Fixpoint processRows (languageColumns : list string) (i : nat)
    (sheetData : list Row) (st : LoopState) : Result LoopState :=
  match sheetData with
  | [] => Ok st
  | r :: rest =>
      st' ← processRow languageColumns i r st;
      processRows languageColumns (S i) rest st'
  end.

(** [for (const [id, segment] of xlfMap)]: the segments left in the map. *)
Fixpoint addNew (languageColumns : list string) (remaining : JSMap.t Segment.t)
    (rowsToAdd : list Row) (stats : Stats) : list Row * Stats :=
  match remaining with
  | [] => (rowsToAdd, stats)
  | (_, segment) :: rest =>
      addNew languageColumns rest
        (rowsToAdd ++ [newRow languageColumns segment]) (incr_added stats)
  end.

(** What one run does: the two writes it issues ([updateRows(rowsToUpdate)],
    [appendRows(rowsToAdd)]) and what it returns. *)
Record SyncResult := {
  updateRows : list RowUpdate;
  appendRows : list Row;
  result_stats : Stats;
  totalSegments : nat
}.

Definition syncXLFtoSheet (segments : list Segment.t) (sheetData : list Row)
    (sheetHeaders : list string) : Result SyncResult :=
  let xlfMap0 := indexSegments segments in
  let languageColumns := languageColumns sheetHeaders in
  st ← processRows languageColumns 0 sheetData
         {| xlfMap := xlfMap0; rowsToUpdate := []; stats := stats0 |};
  let '(rowsToAdd, stats') := addNew languageColumns (xlfMap st) [] (stats st) in
  Ok {| updateRows := rowsToUpdate st;
        appendRows := rowsToAdd;
        result_stats := stats';
        totalSegments := length segments |}.

(** The record set once the two writes have been applied: [updateRows]
    replaces the record in sheet row [row] (record [row - 2], the first row
    being the header) and [appendRows] adds records after the last one. *)
Definition applyUpdates (updates : list RowUpdate) (records : list Row)
  : list Row :=
  fold_left (fun recs u => <[row u - 2 := data u]> recs) updates records.

Definition nextRecords (sheetData : list Row) (r : SyncResult) : list Row :=
  applyUpdates (updateRows r) sheetData ++ appendRows r.

End TargetedSync.

(** *** Second revision: the whole sheet is rewritten *)

Module RewriteSync.

(** [for (const [id, segment] of xlfMap)] *)
Fixpoint processSegments (languageColumns : list string)
    (sheetMap : JSMap.t Row) (entries : JSMap.t Segment.t)
    (updatedData : list Row) (stats : Stats) : list Row * Stats :=
  match entries with
  | [] => (updatedData, stats)
  | (id, segment) :: rest =>
      let '(updatedData', stats') :=
        match JSMap.get id sheetMap with
        | None =>
            (updatedData ++ [newRow languageColumns segment], incr_added stats)
        | Some existingRow =>
            if strict_ne (get existingRow "English")
                         (JStr (Segment.source segment)) then
              (updatedData ++
                 [sourceChangedRow languageColumns existingRow segment],
               incr_updated stats)
            else
              (updatedData ++ [metadataRow existingRow segment],
               incr_unchanged stats)
        end in
      processSegments languageColumns sheetMap rest updatedData' stats'
  end.

(** [for (const [id, row] of sheetMap)] *)
Fixpoint processMissing (xlfMap : JSMap.t Segment.t) (entries : JSMap.t Row)
    (updatedData : list Row) (stats : Stats) : list Row * Stats :=
  match entries with
  | [] => (updatedData, stats)
  | (id, r) :: rest =>
      if negb (JSMap.has id xlfMap) then
        processMissing xlfMap rest (updatedData ++ [deactivatedRow r])
          (incr_deactivated stats)
      else processMissing xlfMap rest updatedData stats
  end.

(** What one run does: the table handed to [writeSheet]; whether the run
    succeeds ([writeSheet] throws ['No headers found in sheet'] when the
    sheet has no header, and the run then returns [{success: false, error}]);
    the counters and the number of segments, which a run that succeeds
    returns. *)
Record SyncResult := {
  writeSheet : list Row;
  success : bool;
  result_stats : Stats;
  totalSegments : nat
}.

Definition syncXLFtoSheet (segments : list Segment.t) (sheetData : list Row)
    (sheetHeaders : list string) : SyncResult :=
  let xlfMap := indexSegments segments in
  let sheetMap := indexRows sheetData in
  let languageColumns := languageColumns sheetHeaders in
  let '(updatedData, stats) :=
    processSegments languageColumns sheetMap xlfMap [] stats0 in
  let '(updatedData', stats') :=
    processMissing xlfMap sheetMap updatedData stats in
  {| writeSheet := updatedData';
     success := negb (length sheetHeaders =? 0);
     result_stats := stats';
     totalSegments := length segments |}.

(** The record set after a run that succeeds: the table that was written. *)
Definition nextRecords (r : SyncResult) : list Row := writeSheet r.

End RewriteSync.

(** ** Vocabulary of the specification *)

(** The code units of a string. *)
Definition chars (s : string) : list ascii := list_ascii_of_string s.

(** A translation is present when the cell is a string that is not blank. *)
Definition isTranslated (targetLang : string) (row : Row) : bool :=
  match get row targetLang with
  | JStr s => negb (String.eqb (trim s) "")
  | _ => false
  end.

(** The translated text is longer than the number in the [maxwidth] cell. *)
Definition exceedsMaxwidth (targetLang : string) (row : Row) : bool :=
  truthy (get row "maxwidth") && negb (isNaN (Number (get row "maxwidth")))
  && match get row targetLang with
     | JStr s => length_gt (String.length s) (Number (get row "maxwidth"))
     | _ => false
     end.

(** ... and that number is positive. *)
Definition isPositive (n : JSNumber) : bool :=
  match n with
  | Infinity false | Dyadic false _ _ => true
  | _ => false
  end.

Definition exceedsPositiveMaxwidth (targetLang : string) (row : Row) : bool :=
  isPositive (Number (get row "maxwidth")) && exceedsMaxwidth targetLang row.

(** The cell of a row in the column of the language is text or empty: a
    string or a falsy value, and no inherited member. *)
Definition textCell (targetLang : string) (row : Row) : bool :=
  match read row targetLang with
  | Value v => negb (truthy v) || is_string v
  | Member _ => false
  end.

(** A record that the export reports as too long. *)
Definition violating (targetLang : string) (row : Row) : bool :=
  Exporter.isActive row
  && (isTranslated targetLang row && exceedsMaxwidth targetLang row).

(** The violation entry [{id, value, maxwidth}] of a row. *)
Definition violationOf (targetLang : string) (row : Row)
  : Exporter.MaxwidthError :=
  {| Exporter.err_id := get row "id";
     Exporter.err_value := get row targetLang;
     Exporter.err_maxwidth := get row "maxwidth" |}.

(** [row.id] *)
Definition rowId (r : Row) : JSValue := get r "id".

(** The data model's invariants on the record set: every record has an id
    that is a non-blank string, and no two records share an id. *)
Definition validId (r : Row) : bool :=
  match get r "id" with
  | JStr s => negb (String.eqb (trim s) "")
  | _ => false
  end.

Definition wellFormedRecords (records : list Row) : Prop :=
  Forall (λ r, validId r = true) records ∧ NoDup (map rowId records).


(** How a record compares with the incoming segments, indexed by id. *)
Definition sourceChanged (xlfMap : JSMap.t Segment.t) (r : Row) : bool :=
  match JSMap.get (get r "id") xlfMap with
  | Some segment => strict_ne (get r "English") (JStr (Segment.source segment))
  | None => false
  end.

Definition sourceSame (xlfMap : JSMap.t Segment.t) (r : Row) : bool :=
  match JSMap.get (get r "id") xlfMap with
  | Some segment =>
      negb (strict_ne (get r "English") (JStr (Segment.source segment)))
  | None => false
  end.

Definition absent (xlfMap : JSMap.t Segment.t) (r : Row) : bool :=
  negb (JSMap.has (get r "id") xlfMap).

(** The record that replaces [r] in a run of the first revision whose
    [xlfMap] is [xlfMap] when the loop reaches [r], and the [xlfMap] the loop
    goes on with. *)
Definition rowAfter (languageColumns : list string)
    (xlfMap : JSMap.t Segment.t) (r : Row) : Row :=
  match TargetedSync.invalidId (get r "id") with
  | Ok false =>
      match JSMap.get (get r "id") xlfMap with
      | Some segment =>
          if strict_ne (get r "English") (JStr (Segment.source segment))
          then sourceChangedRow languageColumns r segment
          else metadataRow r segment
      | None => deactivatedRow r
      end
  | _ => r
  end.

Definition xlfAfter (xlfMap : JSMap.t Segment.t) (r : Row)
  : JSMap.t Segment.t :=
  match TargetedSync.invalidId (get r "id") with
  | Ok false => JSMap.delete (get r "id") xlfMap
  | _ => xlfMap
  end.

Fixpoint rowsAfter (languageColumns : list string)
    (xlfMap : JSMap.t Segment.t) (records : list Row) : list Row :=
  match records with
  | [] => []
  | r :: rest =>
      rowAfter languageColumns xlfMap r
        :: rowsAfter languageColumns (xlfAfter xlfMap r) rest
  end.

(** The first revision's second pass, over the records its first pass
    leaves: [st] and [st1] are the loop state before and after the first
    pass, [st2] and [st2'] before and after the second. *)
Definition rerun (st st1 st2 st2' : TargetedSync.LoopState) : Prop :=
  TargetedSync.xlfMap st2' = TargetedSync.xlfMap st1
  ∧ TargetedSync.rowsToUpdate st2' = TargetedSync.rowsToUpdate st2
  ∧ added (TargetedSync.stats st1) = added (TargetedSync.stats st)
  ∧ added (TargetedSync.stats st2') = added (TargetedSync.stats st2)
  ∧ updated (TargetedSync.stats st2') = updated (TargetedSync.stats st2)
  ∧ unchanged (TargetedSync.stats st2') + unchanged (TargetedSync.stats st)
      + updated (TargetedSync.stats st)
    = unchanged (TargetedSync.stats st2) + unchanged (TargetedSync.stats st1)
      + updated (TargetedSync.stats st1)
  ∧ deactivated (TargetedSync.stats st2') + deactivated (TargetedSync.stats st)
    = deactivated (TargetedSync.stats st2) + deactivated (TargetedSync.stats st1).


(** An [xlfMap] as [indexSegments] builds it: distinct keys, each the id of
    its segment. *)
Definition keyedById (xlfMap : JSMap.t Segment.t) : Prop :=
  NoDup (JSMap.keys xlfMap)
  ∧ Forall (λ e, e.1 = JStr (Segment.id e.2)) xlfMap.

(** The second revision, one [xlfMap] entry at a time: the row it pushes
    and the counter it bumps. *)
Definition segmentRow (languageColumns : list string) (sheetMap : JSMap.t Row)
    (e : JSValue * Segment.t) : Row :=
  match JSMap.get e.1 sheetMap with
  | None => newRow languageColumns e.2
  | Some existingRow =>
      if strict_ne (get existingRow "English") (JStr (Segment.source e.2))
      then sourceChangedRow languageColumns existingRow e.2
      else metadataRow existingRow e.2
  end.

Definition entryNew (sheetMap : JSMap.t Row) (e : JSValue * Segment.t) : bool :=
  negb (JSMap.has e.1 sheetMap).

Definition entryChanged (sheetMap : JSMap.t Row) (e : JSValue * Segment.t)
  : bool :=
  match JSMap.get e.1 sheetMap with
  | Some existingRow =>
      strict_ne (get existingRow "English") (JStr (Segment.source e.2))
  | None => false
  end.

Definition entrySame (sheetMap : JSMap.t Row) (e : JSValue * Segment.t)
  : bool :=
  match JSMap.get e.1 sheetMap with
  | Some existingRow =>
      negb (strict_ne (get existingRow "English") (JStr (Segment.source e.2)))
  | None => false
  end.

Definition entryMissing (xlfMap : JSMap.t Segment.t) (e : JSValue * Row)
  : bool :=
  negb (JSMap.has e.1 xlfMap).

(** A [sheetMap] as [indexRows] builds it: distinct truthy keys, each the id
    of its row. *)
Definition keyedByRowId (sheetMap : JSMap.t Row) : Prop :=
  NoDup (JSMap.keys sheetMap)
  ∧ Forall (λ e, rowId e.2 = e.1 ∧ truthy e.1 = true) sheetMap.

(** The columns the synchronisation itself writes. *)
Definition reserved (k : string) : Prop := k ∈ (BASE_COLUMNS ++ ["active"]).







(** The [file] element of a document: the one inside its [xliff] element,
    when neither is empty. *)
Definition fileElement (root : XlfParser.XValue) : option XlfParser.XValue :=
  match XlfParser.prop root "xliff" with
  | Some xliff =>
      if XlfParser.truthyX (Some xliff) then
        match XlfParser.prop xliff "file" with
        | Some file => if XlfParser.truthyX (Some file) then Some file else None
        | None => None
        end
      else None
  | None => None
  end.

(** The bodies of a [file] element: its own, and the one of a [file] nested
    in it. *)
Definition bodies (file : XlfParser.XValue) : list XlfParser.XValue :=
  match XlfParser.prop file "body" with
  | None => []
  | Some body =>
      body :: match XlfParser.prop body "xliff" with
              | Some xliff =>
                  match XlfParser.prop xliff "file" with
                  | Some inner =>
                      match XlfParser.prop inner "body" with
                      | Some innerBody => [innerBody]
                      | None => []
                      end
                  | None => []
                  end
              | None => []
              end
  end.

(** No segment is found in the document: no body holds a [trans-unit]. *)
Definition noTransUnit (file : XlfParser.XValue) : Prop :=
  ∀ body, body ∈ bodies file → XlfParser.prop body "trans-unit" = None.

(** ** Sample inputs *)

Module Samples.

Definition emptyFile : XlfParser.XValue :=
  XlfParser.XObject
    [("original", XlfParser.XText "Salesforce");
     ("source-language", XlfParser.XText "en_US");
     ("body", XlfParser.XText "")].

Definition emptyXliff : XlfParser.XValue :=
  XlfParser.XObject [("version", XlfParser.XText "1.2"); ("file", emptyFile)].

(** A document whose body holds no [trans-unit]. *)
Definition emptyDocument : XlfParser.XValue :=
  XlfParser.XObject [("xliff", emptyXliff)].

Definition row (cells : list (string * JSValue)) : Row := list_to_map cells.

Definition holaMundo : Row :=
  row [("id", JStr "Greeting.Hello"); ("maxwidth", JStr "5");
       ("English", JStr "Hello World"); ("Spanish", JStr "Hola Mundo");
       ("active", JBool true)].

Definition zeroWidth : Row :=
  row [("id", JStr "Greeting.Hello"); ("maxwidth", JStr "0");
       ("English", JStr "Hello"); ("Spanish", JStr "Hola");
       ("active", JBool true)].

Definition sheetHeaders : list string :=
  ["id"; "category"; "maxwidth"; "size-unit"; "English"; "active";
   "French"; "Spanish"].

Definition segment (id source maxwidth sizeUnit : string) : Segment.t :=
  {| Segment.id := id; Segment.source := source;
     Segment.maxwidth := maxwidth; Segment.sizeUnit := sizeUnit;
     Segment.note := "" |}.

(** An import of two labels: one whose text changed and one that had been
    deactivated and comes back. *)
Definition segments : list Segment.t :=
  [ segment "Greeting.Hello" "Hi" "10" "char";
    segment "Button.Save" "Save" "20" "char" ].

Definition hello : Row :=
  row [("id", JStr "Greeting.Hello"); ("category", JStr "Greeting");
       ("maxwidth", JStr "10"); ("size-unit", JStr "char");
       ("English", JStr "Hello"); ("active", JBool true);
       ("French", JStr "Bonjour"); ("Spanish", JStr "Hola")].

Definition oldLabel : Row :=
  row [("id", JStr "Old.Label"); ("category", JStr "Old");
       ("maxwidth", JStr "8"); ("size-unit", JStr "char");
       ("English", JStr "Old"); ("active", JBool true);
       ("French", JStr "Vieux"); ("Spanish", JStr "")].

Definition save : Row :=
  row [("id", JStr "Button.Save"); ("category", JStr "Button");
       ("maxwidth", JStr "10"); ("size-unit", JStr "char");
       ("English", JStr "Save"); ("active", JBool false);
       ("French", JStr "Enregistrer"); ("Spanish", JStr "Guardar")].

Definition records : list Row := [hello; oldLabel; save].


(** A builder for the examples: it lists the targets of the units under the
    language code, and refuses a target that holds a vertical tab. *)
Definition legal (v : JSValue) : bool :=
  match v with
  | JStr s => negb (existsb (Ascii.eqb "011"%char) (list_ascii_of_string s))
  | _ => true
  end.

Definition text (v : JSValue) : string :=
  match v with JStr s => s | _ => "" end.

Definition buildObject : Exporter.Builder := λ code transUnits,
  if forallb (λ u, legal (Exporter.unit_target u)) transUnits then
    Exporter.Xml
      (String.concat ";"
         (match code with Code c => c | Inherited name => name end
          :: map (λ u, text (Exporter.unit_target u)) transUnits))
  else Exporter.Throws "Invalid character in string".

End Samples.

(** * The rest of the program *)

From Stdlib Require Sorted.
From stdpp Require sorting.

(** ** [src/xlf-exporter.js]: [getLanguageCode] *)

(** [LANGUAGES[displayName] || null]; [None] is [null]. *)
Definition getLanguageCode (displayName : string) : option LangCode :=
  match LANGUAGES_get displayName with
  | Some code => Some code
  | None => None
  end.

(** ** [src/main.js]: [generateXLF] *)

Module Main.

(** What the [catch] of [generateXLF] reports: the language is not among the
    available ones, or [exportXLF] threw. *)
Inductive GenerateError :=
| InvalidLanguage (targetLanguage : string) (availableLanguages : list string)
| FailedToExport (e : Error).

Record Generated := {
  xlfContent : Exporter.ExportResult;
  language : string;
  segmentCount : nat
}.

Inductive Outcome :=
| Success (result : Generated)
| Failure (error : GenerateError).

(** [generateXLF], from the values it awaits: the rows of [readSheet] and
    the headers of [getSheetHeaders]. *)
Definition generateXLF (buildObject : Exporter.Builder)
    (targetLanguage : string) (sheetData : list Row)
    (sheetHeaders : list string) : Outcome :=
  let availableLanguages := Exporter.getAvailableLanguages (Some sheetHeaders) in
  if negb (bool_decide (targetLanguage ∈ availableLanguages)) then
    Failure (InvalidLanguage targetLanguage availableLanguages)
  else
    match Exporter.exportXLF buildObject targetLanguage sheetData with
    | Err e => Failure (FailedToExport e)
    | Ok xlfContent =>
        Success {| xlfContent := xlfContent;
                   language := targetLanguage;
                   segmentCount := length sheetData |}
    end.

End Main.

(** ** [src/google-sheets.js] *)

(** The functions of this file are modelled from the values they await
    from the Sheets API.  A range is read with the default value rendering,
    so that every cell comes back as a string; the rows of a range are
    [None] when the range holds no value. *)
Module GoogleSheets.

(** [getSheetHeaders]: [values] is the answer for the range [1:1]. *)
Definition getSheetHeaders (values : option (list (list string)))
  : Result (list string) :=
  match values with
  | None => Ok []
  | Some [] =>
      Err (TypeError "Cannot read properties of undefined (reading 'filter')")
  | Some (headers :: _) => Ok (filter (λ h, truthy (JStr h)) headers)
  end.

(** [row[index] || ''] *)
Definition cellOrEmpty (row : list string) (index : nat) : string :=
  match row !! index with
  | Some s => if truthy (JStr s) then s else ""
  | None => ""
  end.

(** [headers.forEach((header, index) => { obj[header] = row[index] || ''; })] *)
Fixpoint forEachHeader (headers : list string) (index : nat)
    (row : list string) (obj : Row) : Row :=
  match headers with
  | [] => obj
  | header :: rest =>
      forEachHeader rest (S index) row (assign obj header (cellOrEmpty row index))
  end.

(** [readSheet]: [values] is the answer for the range [A:AH]. *)
Definition readSheet (values : option (list (list string))) : list Row :=
  match values with
  | None | Some [] => []
  | Some (headers :: rows) => map (λ row, forEachHeader headers 0 row ∅) rows
  end.

(** [headers.map(col => { const value = item[col];
                          return value !== undefined ? value : ''; })] *)
Definition toRow (headers : list string) (item : Row) : list Cell :=
  map (λ col, match read item col with
              | Value value =>
                  if strict_ne value JUndefined then Value value
                  else Value (JStr "")
              | Member name => Member name
              end) headers.

(** The code unit of [String.fromCharCode(65 + headers.length - 1)]. *)
Definition lastColumn (headers : list string) : N :=
  ((65 + N.of_nat (length headers) - 1) mod 65536)%N.

(** A write of [values] from cell [A1] on, after the columns [A] to
    [cleared] have been emptied. *)
Record SheetWrite := { cleared : N; values : list (list Cell) }.

(** [writeSheet], from the headers it reads; [None]: it throws
    ['No headers found in sheet']. *)
Definition writeSheet (headers : list string) (data : list Row)
  : option SheetWrite :=
  if length headers =? 0 then None
  else Some {| cleared := lastColumn headers;
               values := map (λ h, Value (JStr h)) headers
                         :: map (toRow headers) data |}.

(** [updateRows], from the headers it reads: the row number and the cells
    of every entry of the batch. *)
Definition updateRows (headers : list string)
    (updates : list TargetedSync.RowUpdate) : list (nat * list Cell) :=
  map (λ update, (TargetedSync.row update,
                  toRow headers (TargetedSync.data update))) updates.

(** [appendRows], from the headers it reads: the last column of the range
    and the rows appended to it. *)
Definition appendRows (headers : list string) (data : list Row)
  : N * list (list Cell) :=
  (lastColumn headers, map (toRow headers) data).

End GoogleSheets.

(** ** [src/xlf-parser.js]: [validateXLF] *)

Definition validateXLF (result : option XlfParser.XValue) : bool :=
  match XlfParser.parseXLF result with
  | Ok parsed =>
      negb (XlfParser.strict_ne_text (XlfParser.sourceLanguage parsed) "en_US")
  | Err _ => false
  end.

(** ** Vocabulary for the sheet *)

(** A cell of a sheet row, [''] past its end. *)
Definition cellAt (row : list string) (index : nat) : string :=
  default "" (row !! index).

(** The [active] field is not a boolean, as for a record read from the
    sheet. *)
Definition activeNotBoolean (r : Row) : Prop :=
  ∀ b, get r "active" ≠ JBool b.

(** The cell of a row appended for a new segment. *)
Definition newCell (segment : Segment.t) (col : string) : JSValue :=
  if decide (col = "id") then JStr (Segment.id segment)
  else if decide (col = "maxwidth") then JStr (Segment.maxwidth segment)
  else if decide (col = "size-unit") then JStr (Segment.sizeUnit segment)
  else if decide (col = "English") then JStr (Segment.source segment)
  else if decide (col = "active") then JBool true
  else JStr "".

(** A sheet as the API returns it: the header row, two records, and a row
    without id. *)
Module SheetSamples.

Definition rows : list (list string) :=
  [ ["Greeting.Hello"; "Greeting"; "10"; "char"; "Hi"; "TRUE"; "Bonjour";
     "Hola"];
    ["Old.Label"; "Old"; "8"; "char"; "Old"; "FALSE"; "Vieux"];
    [""; ""; ""; ""; "orphan"] ].

Definition values : option (list (list string)) :=
  Some (Samples.sheetHeaders :: rows).

End SheetSamples.

(** ** [public/script.js]: the categories offered for an import *)

(** [extractAndDisplayCategories] is modelled from the [id] attributes of
    the [trans-unit] elements of the parsed document, in document order
    ([None]: the element has no such attribute). *)
Module Client.

(** A [Set] of strings: its elements in insertion order. *)
Definition Set_add (x : string) (s : list string) : list string :=
  if bool_decide (x ∈ s) then s else s ++ [x].

(** The body of [for (let unit of transUnits)]. *)
Definition addCategory (id : option string) (categorySet : list string)
  : list string :=
  match id with
  | Some s =>
      if truthy (JStr s) then
        match split "." s with
        | category :: _ =>
            if truthy (JStr category) then Set_add category categorySet
            else categorySet
        | [] => categorySet
        end
      else categorySet
  | None => categorySet
  end.

(** [sort()] without comparator: ascending by code units. *)
Definition sort (l : list string) : list string :=
  sorting.merge_sort (λ s t, String.leb s t) l.

(** What the page shows: the categories with the selected ones, or the
    message of the error that is raised. *)
Inductive Outcome :=
| Shown (parsedCategories selectedCategories : list string)
| Alert (message : string).

Definition extractAndDisplayCategories (ids : list (option string))
    (defaultExcludedCategories : list string) : Outcome :=
  if length ids =? 0 then Alert "No trans-unit elements found in XLF file"
  else
    let categorySet :=
      fold_left (λ categorySet id, addCategory id categorySet) ids [] in
    let parsedCategories := sort categorySet in
    if length parsedCategories =? 0 then Alert "No categories found in XLF file"
    else
      Shown parsedCategories
        (fold_left (λ selected cat,
                      if bool_decide (cat ∈ defaultExcludedCategories)
                      then selected else Set_add cat selected)
                   parsedCategories []).

End Client.

(** * Properties *)

(** ** JavaScript primitives on sample inputs *)

Example trim_ex : trim "  Hola Mundo	 " = "Hola Mundo".
Proof. reflexivity. Qed.
Example split_ex : split "." "a.b..c" = ["a"; "b"; ""; "c"].
Proof. reflexivity. Qed.
Example num1 : string_to_number " 50 " = Dyadic false 12 1.
Proof. vm_compute. reflexivity. Qed.
Example num2 : string_to_number "0.1" = Dyadic false 1801439850948198 (-55).
Proof. vm_compute. reflexivity. Qed.
Example num3 : string_to_number "4.99999999999999999999" = Dyadic false 2 0.
Proof. vm_compute. reflexivity. Qed.
Example num4 : string_to_number "1e400" = Infinity false.
Proof. vm_compute. reflexivity. Qed.
Example num5 : string_to_number "9007199254740993" = Dyadic false 0 53.
Proof. vm_compute. reflexivity. Qed.
Example num6 : string_to_number "-.5e1" = Dyadic true 2 0.
Proof. vm_compute. reflexivity. Qed.
Example num7 : string_to_number "0x1F" = Dyadic false 15 0.
Proof. vm_compute. reflexivity. Qed.
Example num8 : string_to_number "12px" = NaN.
Proof. vm_compute. reflexivity. Qed.
Example num9 : string_to_number "5e-324" = Dyadic false 0 (-1074).
Proof. vm_compute. reflexivity. Qed.
Example num10 : string_to_number "2e-324" = Zero.
Proof. vm_compute. reflexivity. Qed.
Example num11 : string_to_number "1.7976931348623158e308" = Dyadic false 4503599627370495 971.
Proof. vm_compute. reflexivity. Qed.
Example num12 : string_to_number "1.7976931348623159e308" = Infinity false.
Proof. vm_compute. reflexivity. Qed.

Lemma split_head (sep : ascii) (s : string) :
  ∃ h t, split sep s = h :: t ∧ (sep ∉ chars h) ∧
         ((t = [] ∧ s = h) ∨ ∃ rest, s = h +:+ String sep rest).
Proof.
  induction s as [|c s IH]; simpl.
  - exists "", []. split; [done|]. split; [apply not_elem_of_nil|]. by left.
  - destruct (Ascii.eqb_spec c sep) as [->|Hne].
    + exists "", (split sep s). split; [done|]. split; [apply not_elem_of_nil|].
      right. by exists s.
    + destruct IH as (h & t & -> & Hh & Hs).
      exists (String c h), t. split; [done|]. split.
      * unfold chars. simpl. intros [?|?]%elem_of_cons; [congruence|done].
      * destruct Hs as [[-> ->]|[rest ->]]; [by left|right; by exists rest].
Qed.

(** C7, as amended.  The category derived from an id is the part of the id
    before its first dot; for an id without a dot that is the whole id, so
    the category is empty only when the id is. *)
Theorem extractCategory_prefix (id : string) :
  ("."%char ∉ chars (extractCategory (JStr id))) ∧
  ((extractCategory (JStr id) = id ∧ ("."%char ∉ chars id))
   ∨ ∃ rest, id = extractCategory (JStr id) +:+ String "." rest).
Proof.
  unfold extractCategory. simpl.
  destruct id as [|c id]; simpl.
  - split; [apply not_elem_of_nil|]. left. split; [done|apply not_elem_of_nil].
  - destruct (split_head "." (String c id)) as (h & t & Hsp & Hh & Hs).
    simpl in Hsp |- *. rewrite Hsp.
    split; [done|].
    destruct Hs as [[_ <-]|[rest Hrest]]; [left; done|right; eauto].
Qed.

(** C7, as stated, fails: an id without a dot is its own category. *)
Lemma extractCategory_no_dot_counterexample :
  ("."%char ∉ chars "NoDotHere") ∧ extractCategory (JStr "NoDotHere") = "NoDotHere"
  ∧ extractCategory (JStr "NoDotHere") ≠ "".
Proof.
  split; [|split; [reflexivity|discriminate]].
  unfold chars; simpl. rewrite !elem_of_cons. intros H.
  repeat (destruct H as [H|H]; [discriminate H|]). by apply elem_of_nil in H.
Qed.

(** *** Language registry *)

Lemma LANGUAGES_keys_NoDup : NoDup (Object_keys LANGUAGES).
Proof. apply (bool_decide_unpack _). vm_compute. exact I. Qed.

(** C9.  Given the store's column names, [getAvailableLanguages] returns
    exactly the configured language names that are among them, once each
    and in the order of the configuration. *)
Theorem getAvailableLanguages_intersection (sheetHeaders : list string) :
  (∀ lang, lang ∈ Exporter.getAvailableLanguages (Some sheetHeaders)
           ↔ lang ∈ Object_keys LANGUAGES ∧ lang ∈ sheetHeaders)
  ∧ sublist (Exporter.getAvailableLanguages (Some sheetHeaders))
            (Object_keys LANGUAGES)
  ∧ NoDup (Exporter.getAvailableLanguages (Some sheetHeaders)).
Proof.
  unfold Exporter.getAvailableLanguages. split; [|split].
  - intros lang. rewrite list_elem_of_filter. tauto.
  - apply sublist_filter.
  - apply NoDup_filter, LANGUAGES_keys_NoDup.
Qed.

Example getAvailableLanguages_example :
  Exporter.getAvailableLanguages
    (Some ["id"; "English"; "Klingon"; "French"; "Spanish"; "active"])
  = ["Spanish"; "French"].
Proof. vm_compute. reflexivity. Qed.

(** C10.  When the column headers cannot be read, [getLanguages] calls
    [getAvailableLanguages] without an argument, which returns every
    configured language name, all 28 of them, whatever columns the store
    has. *)
Theorem getLanguages_fallback (e : Error) :
  getLanguages (Err e) = Exporter.getAvailableLanguages None
  ∧ Exporter.getAvailableLanguages None = Object_keys LANGUAGES
  ∧ Forall (λ entry, entry.1 ∈ getLanguages (Err e)) LANGUAGES
  ∧ length (getLanguages (Err e)) = 28.
Proof.
  split; [reflexivity|]. split; [reflexivity|]. split; [|reflexivity].
  apply Forall_forall. intros [lang code] Hin.
  change (getLanguages (Err e)) with (map fst LANGUAGES).
  apply list_elem_of_In, in_map_iff. exists (lang, code).
  split; [done|]. by apply list_elem_of_In.
Qed.

Example getLanguages_without_columns :
  Exporter.getAvailableLanguages (Some ["id"; "English"; "French"]) = ["French"]
  ∧ "Hebrew" ∈ getLanguages (Err (TypeError "Failed to read sheet headers")).
Proof. split; [vm_compute; reflexivity|]. apply (bool_decide_unpack _). vm_compute. exact I. Qed.

(** *** Export: liveness *)

Ltac refute_cases H :=
  repeat (destruct H as [H|H]; [congruence|]); first [destruct H|congruence].

Lemma isActive_inactive_values (row : Row) :
  Exporter.isActive row = false ↔
  get row "active" ∈ [JUndefined; JNull; JBool false; JNum NaN; JNum Zero;
                      JStr ""; JStr "false"; JStr "FALSE"; JStr "0"].
Proof.
  unfold Exporter.isActive, strict_eq. rewrite !elem_of_cons, elem_of_nil.
  destruct (get row "active") as [| |[]|[]|s] eqn:E; simpl;
    try (split; [intros _; tauto|done]);
    try (split; [done|intros H; refute_cases H]).
  destruct (String.eqb_spec s "") as [->|Hne]; simpl.
  - split; [intros _; tauto|done].
  - destruct (decide (s = "false")) as [->|]; [split; [tauto|done]|].
    destruct (decide (s = "FALSE")) as [->|]; [split; [tauto|done]|].
    destruct (decide (s = "0")) as [->|]; [split; [tauto|done]|].
    rewrite !bool_decide_eq_false_2 by congruence. simpl.
    split; [done|]. intros H; refute_cases H.
Qed.

Lemma truthy_false_values (v : JSValue) :
  truthy v = false ↔
  v ∈ [JUndefined; JNull; JBool false; JNum NaN; JNum Zero; JStr ""].
Proof.
  rewrite !elem_of_cons, elem_of_nil.
  destruct v as [| |[]|[]|s]; simpl;
    try (split; [intros _; tauto|done]);
    try (split; [done|intros H; refute_cases H]).
  destruct (String.eqb_spec s "") as [->|Hne]; simpl.
  - split; [intros _; tauto|done].
  - split; [done|intros H; refute_cases H].
Qed.

(** C6, as amended.  A record passes the liveness filter exactly when its
    [active] value is truthy and is none of the strings ["false"], ["FALSE"],
    ["0"]; the falsy values are [undefined], [null], [false], [NaN], [0] and
    the empty string. *)
Theorem isActive_lenient (row : Row) :
  (Exporter.isActive row = true ↔
   truthy (get row "active") = true
   ∧ (get row "active" ∉ [JStr "false"; JStr "FALSE"; JStr "0"]))
  ∧ (truthy (get row "active") = false ↔
     get row "active" ∈ [JUndefined; JNull; JBool false; JNum NaN; JNum Zero;
                         JStr ""]).
Proof.
  split; [|apply truthy_false_values].
  unfold Exporter.isActive, strict_eq. rewrite !elem_of_cons, elem_of_nil.
  destruct (get row "active") as [| |[]|[]|s] eqn:E; simpl;
    try (split; [intros H; discriminate H|intros [H _]; discriminate H]);
    try (split; [intros _; split; [done|intros H; refute_cases H]|done]).
  destruct (String.eqb_spec s "") as [->|Hne]; simpl.
  { split; [intros H; discriminate H|intros [H _]; discriminate H]. }
  destruct (decide (s = "false")) as [->|]; [split; [done|tauto]|].
  destruct (decide (s = "FALSE")) as [->|]; [split; [done|tauto]|].
  destruct (decide (s = "0")) as [->|]; [split; [done|tauto]|].
  rewrite !bool_decide_eq_false_2 by congruence. simpl.
  split; [intros _; split; [done|intros H; refute_cases H]|done].
Qed.

(** C6, as stated, fails: the empty string, which is what an empty cell
    reads as, is none of the listed values and is not active. *)
Lemma isActive_empty_string_counterexample :
  (get (<["active" := JStr ""]> ∅) "active"
     ∉ [JBool false; JStr "false"; JStr "FALSE"; JStr "0"])
  ∧ Exporter.isActive (<["active" := JStr ""]> ∅) = false.
Proof.
  split; [|reflexivity].
  change (get (<["active" := JStr ""]> ∅) "active") with (JStr "").
  rewrite !elem_of_cons, elem_of_nil. intros H; refute_cases H.
Qed.

(** *** Extraction *)

Section parseXLF.
Import XlfParser.

Lemma strict_ne_text_false (o : option XValue) (text : string) :
  strict_ne_text o text = false ↔ o = Some (XText text).
Proof.
  destruct o as [[s| |]|]; simpl; try (split; [done|congruence]).
  destruct (String.eqb_spec s text) as [->|Hne]; simpl.
  - split; done.
  - split; [done|congruence].
Qed.

(** [parseXLF] in one equation, over the [file] element of the document. *)
Lemma parseXLF_spec (root : XValue) :
  parseXLF (Some root)
  = match fileElement root with
    | None => Err InvalidFormat
    | Some file =>
        if strict_ne_text (prop file "source-language") "en_US"
        then Err InvalidSourceLanguage
        else Ok {| sourceLanguage := prop file "source-language";
                   targetLanguage := prop file "target-language";
                   original := prop file "original";
                   segments := extractSegments (transUnitsOf file) |}
    end.
Proof.
  unfold parseXLF, fileElement, and_prop.
  destruct (prop root "xliff") as [xliff|]; [|done].
  destruct (truthyX (Some xliff)) eqn:Hxliff; [|done]. cbn [mbind option_bind].
  destruct (prop xliff "file") as [file|]; [|done].
  by destruct (truthyX (Some file)).
Qed.

Lemma and_prop_truthy (o : option XValue) (name : string) :
  truthyX (and_prop o name) = true →
  ∃ v, o = Some v ∧ truthyX o = true ∧ and_prop o name = prop v name.
Proof.
  unfold and_prop. destruct (truthyX o) eqn:Ho; [|congruence].
  destruct o as [v|]; [|done]. intros _. by exists v.
Qed.

Lemma noTransUnit_segments (file : XValue) :
  noTransUnit file → extractSegments (transUnitsOf file) = [].
Proof.
  unfold noTransUnit, bodies, transUnitsOf. intros Hnone.
  destruct (prop file "body") as [body|]; [|done].
  destruct (truthyX (Some body)) eqn:Hbody; [|done].
  assert (prop body "trans-unit" = None) as Hdirect by (apply Hnone; by left).
  cbn [mbind option_bind]. rewrite Hdirect. cbn [truthyX].
  destruct (truthyX (and_prop (and_prop (and_prop (Some body) "xliff") "file")
                       "body")) eqn:Hinner; [|done].
  destruct (and_prop_truthy _ _ Hinner) as (inner & Hfile & Htf & ->).
  destruct (and_prop_truthy _ _ Htf) as (xliff & Hxliff & Htx & Hfile').
  destruct (and_prop_truthy _ _ Htx) as (body' & [= <-] & _ & Hxliff').
  rewrite Hxliff' in Hxliff. rewrite Hfile' in Hfile.
  rewrite Hxliff, Hfile in Hnone.
  destruct (prop inner "body") as [innerBody|]; [|done].
  cbn [mbind option_bind].
  assert (prop innerBody "trans-unit" = None) as ->
    by (apply Hnone; right; by left).
  done.
Qed.

(** C8, as amended.  Extraction fails with the invalid-format error when
    the document has no [file] element that is not empty (inside an [xliff]
    element that is not empty); with such an element it fails with the
    source-language error when the [source-language] attribute is not
    ["en_US"]; in every other case it succeeds, and there is no failure for
    a document without segments: when no body holds a [trans-unit], the
    segments returned are none. *)
Theorem parseXLF_outcome (root : XValue) :
  match parseXLF (Some root) with
  | Ok parsed =>
      ∃ file, fileElement root = Some file
              ∧ prop file "source-language" = Some (XText "en_US")
              ∧ sourceLanguage parsed = Some (XText "en_US")
              ∧ (noTransUnit file → segments parsed = [])
  | Err e =>
      (fileElement root = None ∧ e = InvalidFormat)
      ∨ (∃ file, fileElement root = Some file
                 ∧ prop file "source-language" ≠ Some (XText "en_US")
                 ∧ e = InvalidSourceLanguage)
  end.
Proof.
  rewrite parseXLF_spec. destruct (fileElement root) as [file|]; [|by left].
  destruct (strict_ne_text (prop file "source-language") "en_US") eqn:Hlang.
  - right. exists file. split; [done|]. split; [|done].
    intros Heq%strict_ne_text_false. congruence.
  - apply strict_ne_text_false in Hlang. exists file. simpl.
    split; [done|]. split; [done|]. split; [done|].
    apply noTransUnit_segments.
Qed.

(** C8, as stated, fails: a document in which no segment is found, here one
    whose body is empty, is extracted without an error. *)
Lemma parseXLF_no_segments_counterexample :
  noTransUnit Samples.emptyFile
  ∧ ∃ parsed, parseXLF (Some Samples.emptyDocument) = Ok parsed
              ∧ segments parsed = [].
Proof.
  split.
  - intros body [->|Hin%elem_of_nil]%elem_of_cons; done.
  - eexists. split; reflexivity.
Qed.

(** A [file] element that is empty counts as missing. *)
Example parseXLF_empty_file :
  parseXLF (Some (XObject [("xliff", XObject [("file", XText "")])]))
  = Err InvalidFormat.
Proof. reflexivity. Qed.
End parseXLF.

(** *** Export: length violations *)

Lemma filter_cons_bool {A} (P : A → bool) (x : A) (l : list A) :
  filter (λ x, P x) (x :: l)
  = if P x then x :: filter (λ x, P x) l else filter (λ x, P x) l.
Proof.
  destruct (P x) eqn:HP.
  - apply filter_cons_True. by rewrite HP.
  - apply filter_cons_False. rewrite HP. exact id.
Qed.

Lemma filter_filter_bool {A} (P Q : A → bool) (l : list A) :
  filter (λ x, Q x) (filter (λ x, P x) l) = filter (λ x, P x && Q x) l.
Proof.
  induction l as [|x l IH]; [done|].
  rewrite !filter_cons_bool. destruct (P x); simpl; [|done].
  rewrite filter_cons_bool. by rewrite IH.
Qed.

Lemma length_filter_bool {A} (P : A → bool) (x : A) (l : list A) :
  length (filter (λ x, P x) (x :: l))
  = (if P x then 1 else 0) + length (filter (λ x, P x) l).
Proof. rewrite filter_cons_bool. by destruct (P x). Qed.

Lemma read_Value (row : Row) (col : string) (v : JSValue) :
  read row col = Value v → get row col = v.
Proof.
  unfold read, get. destruct (row !! col) as [w|]; simpl; [congruence|].
  destruct (bool_decide _); [done|congruence].
Qed.

Lemma read_field (row : Row) (col : string) (v : JSValue) :
  get row col = v → v ≠ JUndefined → read row col = Value v.
Proof.
  unfold read, get. destruct (row !! col) as [w|]; simpl; congruence.
Qed.

Lemma textCell_translated (targetLang : string) (row : Row) :
  isTranslated targetLang row = true → textCell targetLang row = true.
Proof.
  unfold isTranslated, textCell.
  destruct (get row targetLang) as [| |?|?|s] eqn:Hcell; try done.
  intros _. rewrite (read_field row targetLang (JStr s)) by done.
  simpl. apply orb_true_r.
Qed.

Lemma hasTranslation_spec (targetLang : string) (row : Row) :
  Exporter.hasTranslation targetLang row
  = if textCell targetLang row then Ok (isTranslated targetLang row)
    else Err (TypeError "row[targetLang].trim is not a function").
Proof.
  unfold Exporter.hasTranslation, textCell, isTranslated.
  destruct (read row targetLang) as [v|name] eqn:Hread; [|done].
  apply read_Value in Hread. rewrite Hread.
  destruct v as [| |[]|[]|s]; simpl; try done.
  by destruct (String.eqb_spec s "") as [->|Hs].
Qed.

Lemma filterM_hasTranslation_spec (targetLang : string) (rows : list Row) :
  filterM (Exporter.hasTranslation targetLang) rows
  = if forallb (textCell targetLang) rows
    then Ok (filter (λ row, isTranslated targetLang row) rows)
    else Err (TypeError "row[targetLang].trim is not a function").
Proof.
  induction rows as [|row rows IH]; [done|].
  cbn [filterM forallb]. rewrite hasTranslation_spec, IH, filter_cons_bool.
  destruct (textCell targetLang row); simpl; [|done].
  destruct (forallb _ rows); simpl; [|done].
  by destruct (isTranslated targetLang row).
Qed.

Lemma checkMaxwidth_spec (targetLang : string) (row : Row) errors :
  Exporter.checkMaxwidth targetLang row errors
  = (negb (exceedsMaxwidth targetLang row),
     if exceedsMaxwidth targetLang row
     then errors ++ [violationOf targetLang row] else errors).
Proof.
  unfold Exporter.checkMaxwidth, exceedsMaxwidth, violationOf.
  destruct (truthy (get row "maxwidth")
            && negb (isNaN (Number (get row "maxwidth")))); simpl; [|done].
  destruct (get row targetLang) as [| |b|n|s]; try done.
  by destruct (length_gt (String.length s) (Number (get row "maxwidth"))).
Qed.

Lemma filterMaxwidth_spec (targetLang : string) (rows : list Row) :
  ∀ errors,
    Exporter.filterMaxwidth targetLang rows errors
    = (filter (λ row, negb (exceedsMaxwidth targetLang row)) rows,
       errors ++ map (violationOf targetLang)
                     (filter (λ row, exceedsMaxwidth targetLang row) rows)).
Proof.
  induction rows as [|row rows IH]; intros errors; simpl.
  - by rewrite app_nil_r.
  - rewrite !filter_cons_bool, checkMaxwidth_spec, IH.
    destruct (exceedsMaxwidth targetLang row); simpl; [|done].
    by rewrite <- app_assoc.
Qed.

(** The export in one equation: the checks in the order in which they can
    fail, and what the builder is given. *)
Lemma exportXLF_spec (buildObject : Exporter.Builder) (targetLang : string)
    (sheetData : list Row) :
  Exporter.exportXLF buildObject targetLang sheetData
  = match LANGUAGES_get targetLang with
    | None => Err (UnknownTargetLanguage targetLang)
    | Some code =>
        if forallb (textCell targetLang)
                   (filter (λ row, Exporter.isActive row) sheetData)
        then
          let transUnits :=
            map (Exporter.toTransUnit targetLang)
              (filter (λ row, Exporter.isActive row
                              && (isTranslated targetLang row
                                  && negb (exceedsMaxwidth targetLang row)))
                      sheetData) in
          match buildObject code transUnits with
          | Exporter.Throws message => Err (BuilderError message)
          | Exporter.Xml xmlString =>
              Ok {| Exporter.xlf := xmlString;
                    Exporter.xlf_target_language := code;
                    Exporter.xlf_trans_units := transUnits;
                    Exporter.maxwidthErrors :=
                      map (violationOf targetLang)
                        (filter (λ row, violating targetLang row) sheetData) |}
          end
        else Err (TypeError "row[targetLang].trim is not a function")
    end.
Proof.
  unfold Exporter.exportXLF, violating.
  destruct (LANGUAGES_get targetLang) as [code|]; [|done].
  rewrite filterM_hasTranslation_spec.
  destruct (forallb _ _); simpl; [|done].
  rewrite filterMaxwidth_spec. simpl. by rewrite !filter_filter_bool.
Qed.

Lemma forallb_active (P : Row → bool) (sheetData : list Row) :
  forallb P (filter (λ row, Exporter.isActive row) sheetData) = true
  ↔ Forall (λ row, Exporter.isActive row = true → P row = true) sheetData.
Proof.
  induction sheetData as [|row sheetData IH].
  - split; [constructor|done].
  - rewrite filter_cons_bool, Forall_cons, <- IH.
    destruct (Exporter.isActive row); simpl.
    + rewrite andb_true_iff. split; [intros [? ?]|intros [H ?]]; auto.
    + split; [by intros ?|by intros [_ ?]].
Qed.

Lemma exportXLF_Ok (buildObject : Exporter.Builder) (targetLang : string)
    (sheetData : list Row) (res : Exporter.ExportResult) :
  Exporter.exportXLF buildObject targetLang sheetData = Ok res →
  LANGUAGES_get targetLang = Some (Exporter.xlf_target_language res)
  ∧ Exporter.xlf_trans_units res
    = map (Exporter.toTransUnit targetLang)
        (filter (λ row, Exporter.isActive row
                        && (isTranslated targetLang row
                            && negb (exceedsMaxwidth targetLang row)))
                sheetData)
  ∧ Exporter.maxwidthErrors res
    = map (violationOf targetLang)
        (filter (λ row, Exporter.isActive row
                        && (isTranslated targetLang row
                            && exceedsMaxwidth targetLang row))
                sheetData)
  ∧ buildObject (Exporter.xlf_target_language res)
                (Exporter.xlf_trans_units res)
    = Exporter.Xml (Exporter.xlf res)
  ∧ Forall (λ row, Exporter.isActive row = true →
                   textCell targetLang row = true) sheetData.
Proof.
  rewrite exportXLF_spec.
  destruct (LANGUAGES_get targetLang) as [code|]; [|done].
  destruct (forallb _ _) eqn:Hcells; [|done]. cbv zeta.
  destruct (buildObject code _) as [xmlString|message] eqn:Hbuilt; [|done].
  intros [= <-]. simpl. repeat split; try done. by apply forallb_active.
Qed.

(** Leaving out the rows that are reported changes neither what can fail
    nor what the builder is given. *)
Lemma without_violating (targetLang : string) (sheetData : list Row) :
  let rest := filter (λ row, negb (violating targetLang row)) sheetData in
  forallb (textCell targetLang) (filter (λ row, Exporter.isActive row) rest)
  = forallb (textCell targetLang)
            (filter (λ row, Exporter.isActive row) sheetData)
  ∧ filter (λ row, Exporter.isActive row
                   && (isTranslated targetLang row
                       && negb (exceedsMaxwidth targetLang row))) rest
    = filter (λ row, Exporter.isActive row
                     && (isTranslated targetLang row
                         && negb (exceedsMaxwidth targetLang row))) sheetData
  ∧ filter (λ row, violating targetLang row) rest = [].
Proof.
  cbv zeta. induction sheetData as [|row sheetData (IH1 & IH2 & IH3)];
    [done|].
  rewrite (filter_cons_bool (λ row, negb (violating targetLang row))).
  destruct (violating targetLang row) eqn:Hv; simpl.
  - unfold violating in Hv. apply andb_true_iff in Hv as [Ha Hv].
    apply andb_true_iff in Hv as [Ht He].
    rewrite !(filter_cons_bool _ row sheetData), Ha, Ht, He. simpl.
    rewrite (textCell_translated _ _ Ht). simpl. done.
  - rewrite !filter_cons_bool, Hv, IH3.
    destruct (Exporter.isActive row); simpl.
    + rewrite IH1. split; [done|]. split; [|done].
      destruct (isTranslated targetLang row && _); by rewrite IH2.
    + done.
Qed.

(** C5, as amended.  Whenever the export returns, it reports one violation
    [{id, value, maxwidth}] for every active, translated record whose
    [maxwidth] cell is non-empty, converts to a number and is exceeded by the
    length of the translation, leaves those records out, and includes every
    other active, translated record, in the order of the sheet; the width
    need not be positive.  The records that are reported have no part in
    whether the export fails: it fails or returns as it does on the sheet
    without them, with the same document. *)
Theorem exportXLF_maxwidth (buildObject : Exporter.Builder)
    (targetLang : string) (sheetData : list Row) :
  (∀ res,
     Exporter.exportXLF buildObject targetLang sheetData = Ok res →
     Exporter.xlf_trans_units res
     = map (Exporter.toTransUnit targetLang)
         (filter (λ row, Exporter.isActive row
                         && (isTranslated targetLang row
                             && negb (exceedsMaxwidth targetLang row)))
                 sheetData)
     ∧ Exporter.maxwidthErrors res
       = map (violationOf targetLang)
           (filter (λ row, Exporter.isActive row
                           && (isTranslated targetLang row
                               && exceedsMaxwidth targetLang row))
                   sheetData))
  ∧ Exporter.exportXLF buildObject targetLang sheetData
    = match Exporter.exportXLF buildObject targetLang
              (filter (λ row, negb (violating targetLang row)) sheetData) with
      | Ok rest =>
          Ok {| Exporter.xlf := Exporter.xlf rest;
                Exporter.xlf_target_language :=
                  Exporter.xlf_target_language rest;
                Exporter.xlf_trans_units := Exporter.xlf_trans_units rest;
                Exporter.maxwidthErrors :=
                  map (violationOf targetLang)
                    (filter (λ row, violating targetLang row) sheetData) |}
      | Err e => Err e
      end.
Proof.
  split.
  - intros res (_ & Hunits & Herrors & _)%exportXLF_Ok. done.
  - rewrite !exportXLF_spec.
    destruct (without_violating targetLang sheetData) as (-> & -> & ->).
    destruct (LANGUAGES_get targetLang) as [code|]; [|done].
    destruct (forallb _ _); [|done]. cbv zeta.
    by destruct (buildObject code _).
Qed.

Lemma exportXLF_maxwidth_witness :
  ∃ res,
    Exporter.exportXLF Samples.buildObject "Spanish" [Samples.holaMundo]
    = Ok res
    ∧ Exporter.xlf_trans_units res = []
    ∧ Exporter.maxwidthErrors res
      = [ {| Exporter.err_id := JStr "Greeting.Hello";
             Exporter.err_value := JStr "Hola Mundo";
             Exporter.err_maxwidth := JStr "5" |} ].
Proof.
  destruct (Exporter.exportXLF Samples.buildObject "Spanish"
              [Samples.holaMundo]) as [res|e] eqn:Hres;
    [|vm_compute in Hres; discriminate].
  exists res. split; [reflexivity|].
  destruct (exportXLF_maxwidth Samples.buildObject "Spanish"
              [Samples.holaMundo]) as [Hrows _].
  destruct (Hrows res Hres) as [-> ->]. split; vm_compute; reflexivity.
Defined.

(** C5, as stated, fails: a width of ["0"] is not positive, yet the record is
    reported and left out. *)
Lemma exportXLF_positive_counterexample :
  Exporter.isActive Samples.zeroWidth = true
  ∧ isTranslated "Spanish" Samples.zeroWidth = true
  ∧ exceedsPositiveMaxwidth "Spanish" Samples.zeroWidth = false
  ∧ Exporter.exportXLF Samples.buildObject "Spanish" [Samples.zeroWidth]
    = Ok {| Exporter.xlf := "es";
            Exporter.xlf_target_language := Code "es";
            Exporter.xlf_trans_units := [];
            Exporter.maxwidthErrors :=
              [violationOf "Spanish" Samples.zeroWidth] |}.
Proof. repeat split; vm_compute; reflexivity. Qed.

(** *** Rows *)

Lemma get_insert_eq (r : Row) (k : string) (v : JSValue) :
  get (<[k := v]> r) k = v.
Proof. unfold get. by rewrite lookup_insert_eq. Qed.

Lemma get_insert_ne (r : Row) (k k' : string) (v : JSValue) :
  k ≠ k' → get (<[k := v]> r) k' = get r k'.
Proof. intros. unfold get. by rewrite lookup_insert_ne. Qed.

Lemma lookup_assign_ne (r : Row) (col k : string) (text : string) :
  col ≠ k → assign r col text !! k = r !! k.
Proof.
  intros Hne. unfold assign. destruct (bool_decide _); [done|].
  by rewrite lookup_insert_ne.
Qed.

Lemma lookup_assign_eq (r : Row) (col : string) (text : string) :
  col ≠ "__proto__" → assign r col text !! col = Some (JStr text).
Proof.
  intros Hne. unfold assign. rewrite bool_decide_eq_false_2 by tauto.
  by rewrite lookup_insert_eq.
Qed.

Lemma lookup_clearColumns_notin (cols : list string) (r : Row) (k : string) :
  k ∉ cols → clearColumns cols r !! k = r !! k.
Proof.
  unfold clearColumns. revert r.
  induction cols as [|c cols IH]; intros r Hk; cbn [fold_left]; [done|].
  apply not_elem_of_cons in Hk as [Hne Hk].
  rewrite IH by done. by apply lookup_assign_ne.
Qed.

Lemma lookup_clearColumns_in (cols : list string) (r : Row) (k : string) :
  k ∈ cols → k ≠ "__proto__" → clearColumns cols r !! k = Some (JStr "").
Proof.
  unfold clearColumns. revert r.
  induction cols as [|c cols IH]; intros r Hk Hne; cbn [fold_left].
  - by apply elem_of_nil in Hk.
  - destruct (decide (k ∈ cols)) as [Hin|Hnin]; [by apply IH|].
    apply elem_of_cons in Hk as [->|?]; [|done].
    rewrite (lookup_clearColumns_notin cols _ c Hnin).
    by apply lookup_assign_eq.
Qed.

Lemma get_clearColumns_in (cols : list string) (r : Row) (k : string) :
  k ∈ cols → k ≠ "__proto__" → get (clearColumns cols r) k = JStr "".
Proof. intros. unfold get. by rewrite lookup_clearColumns_in. Qed.

Lemma get_clearColumns_notin (cols : list string) (r : Row) (k : string) :
  k ∉ cols → get (clearColumns cols r) k = get r k.
Proof. intros. unfold get. by rewrite lookup_clearColumns_notin. Qed.

Lemma insert_get_id (r : Row) (k : string) (v : JSValue) :
  get r k = v → v ≠ JUndefined → <[k := v]> r = r.
Proof.
  unfold get. intros Hg Hv. apply insert_id.
  destruct (r !! k); simpl in *; congruence.
Qed.

Lemma languageColumns_spec (sheetHeaders : list string) (k : string) :
  k ∈ languageColumns sheetHeaders
  ↔ k ∈ sheetHeaders ∧ (k ∉ BASE_COLUMNS) ∧ k ≠ "active".
Proof. unfold languageColumns. rewrite list_elem_of_filter. tauto. Qed.

Lemma reserved_not_language (sheetHeaders : list string) (k : string) :
  reserved k → k ∉ languageColumns sheetHeaders.
Proof.
  unfold reserved. rewrite languageColumns_spec, elem_of_app, list_elem_of_singleton.
  tauto.
Qed.

Lemma strict_ne_false (v w : JSValue) :
  w ≠ JNum NaN → strict_ne v w = false ↔ v = w.
Proof.
  intros Hw. unfold strict_ne, strict_eq.
  destruct (decide (v = JNum NaN)) as [->|Hv].
  - simpl. split; [done|congruence].
  - transitivity (bool_decide (v = w) = true).
    + destruct v as [| |?|[]|?]; try done; by destruct (bool_decide _).
    + by rewrite bool_decide_eq_true.
Qed.

Lemma strict_ne_str (v : JSValue) (s : string) :
  strict_ne v (JStr s) = false ↔ v = JStr s.
Proof. by apply strict_ne_false. Qed.

Lemma strict_ne_bool (v : JSValue) (b : bool) :
  strict_ne v (JBool b) = false ↔ v = JBool b.
Proof. by apply strict_ne_false. Qed.

(** *** Maps *)

Section JSMap_facts.
Context {V : Type}.
Implicit Types (m : JSMap.t V) (k : JSValue) (v : V).

Lemma JSMap_get_None k m : JSMap.get k m = None ↔ k ∉ JSMap.keys m.
Proof.
  induction m as [|[k' v'] m IH]; simpl.
  - split; [intros _; apply not_elem_of_nil|done].
  - rewrite not_elem_of_cons. destruct (decide (k' = k)) as [->|Hne].
    + split; [done|]. intros [? _]. done.
    + rewrite IH. split; [intros ?; split; [congruence|done]|tauto].
Qed.

Lemma JSMap_get_Some k v m : JSMap.get k m = Some v → (k, v) ∈ m.
Proof.
  induction m as [|[k' v'] m IH]; simpl; [done|].
  destruct (decide (k' = k)) as [->|Hne].
  - intros [= ->]. by left.
  - intros ?. right. by apply IH.
Qed.

Lemma JSMap_get_delete_ne k k' m :
  k ≠ k' → JSMap.get k' (JSMap.delete k m) = JSMap.get k' m.
Proof.
  intros Hne. induction m as [|[k0 v0] m IH]; simpl; [done|].
  destruct (decide (k0 = k)) as [->|Hk].
  - by rewrite decide_False.
  - simpl. by rewrite IH.
Qed.

Lemma JSMap_delete_absent k m : JSMap.get k m = None → JSMap.delete k m = m.
Proof.
  induction m as [|[k0 v0] m IH]; simpl; [done|].
  destruct (decide (k0 = k)); [done|]. intros ?. by rewrite IH.
Qed.



Lemma JSMap_keys_set k v m :
  JSMap.keys (JSMap.set k v m)
  = if decide (k ∈ JSMap.keys m) then JSMap.keys m else JSMap.keys m ++ [k].
Proof.
  unfold JSMap.keys.
  induction m as [|[k0 v0] m IH]; cbn [JSMap.set map fst].
  - destruct (decide (k ∈ [])) as [Hin|_]; [by apply elem_of_nil in Hin|done].
  - rewrite (decide_ext (k ∈ k0 :: map fst m) (k0 = k ∨ k ∈ map fst m)).
    2:{ rewrite elem_of_cons. intuition congruence. }
    destruct (decide (k0 = k)) as [->|Hne]; cbn [map fst].
    + rewrite decide_True; [done|by left].
    + rewrite IH. destruct (decide (k ∈ map fst m)) as [Hin|Hnin].
      * rewrite decide_True; [done|by right].
      * rewrite decide_False; [done|tauto].
Qed.

Lemma JSMap_set_NoDup k v m :
  NoDup (JSMap.keys m) → NoDup (JSMap.keys (JSMap.set k v m)).
Proof.
  intros Hnd. rewrite JSMap_keys_set. case_decide; [done|].
  apply NoDup_app. split; [done|]. split; [|apply NoDup_singleton].
  intros x Hx ->%list_elem_of_singleton. done.
Qed.

Lemma JSMap_set_Forall (P : JSValue * V → Prop) k v m :
  P (k, v) → Forall P m → Forall P (JSMap.set k v m).
Proof.
  intros Hkv. induction 1 as [|[k0 v0] m Hx Hm IH]; simpl.
  - by constructor.
  - destruct (decide (k0 = k)); constructor; done.
Qed.

Lemma JSMap_get_set_eq k v m : JSMap.get k (JSMap.set k v m) = Some v.
Proof.
  induction m as [|[k0 v0] m IH]; simpl.
  - by rewrite decide_True.
  - destruct (decide (k0 = k)) as [->|Hne]; simpl.
    + by rewrite decide_True.
    + by rewrite decide_False.
Qed.

Lemma JSMap_get_set_ne k k' v m :
  k ≠ k' → JSMap.get k' (JSMap.set k v m) = JSMap.get k' m.
Proof.
  intros Hne. induction m as [|[k0 v0] m IH]; simpl.
  - by rewrite decide_False.
  - destruct (decide (k0 = k)) as [->|Hk]; simpl.
    + by rewrite !decide_False.
    + by rewrite IH.
Qed.

End JSMap_facts.


Lemma fold_left_indexSegments_keyed (segments : list Segment.t) :
  ∀ m, keyedById m →
       keyedById (fold_left (λ m seg, JSMap.set (JStr (Segment.id seg)) seg m)
                            segments m).
Proof.
  induction segments as [|seg segments IH]; intros m Hm; simpl; [done|].
  apply IH. destruct Hm as [Hnd Hall]. split.
  - by apply JSMap_set_NoDup.
  - by apply JSMap_set_Forall.
Qed.

Lemma indexSegments_keyed (segments : list Segment.t) :
  keyedById (indexSegments segments).
Proof.
  apply fold_left_indexSegments_keyed. split; [constructor|constructor].
Qed.

(** *** The rows a run writes *)

Lemma reserved_id : reserved "id".
Proof. apply (bool_decide_unpack _). vm_compute. exact I. Qed.
Lemma reserved_maxwidth : reserved "maxwidth".
Proof. apply (bool_decide_unpack _). vm_compute. exact I. Qed.
Lemma reserved_size_unit : reserved "size-unit".
Proof. apply (bool_decide_unpack _). vm_compute. exact I. Qed.
Lemma reserved_English : reserved "English".
Proof. apply (bool_decide_unpack _). vm_compute. exact I. Qed.
Lemma reserved_active : reserved "active".
Proof. apply (bool_decide_unpack _). vm_compute. exact I. Qed.

Create HintDb rows.
#[local] Hint Resolve reserved_id reserved_maxwidth reserved_size_unit
  reserved_English reserved_active : rows.

Ltac get_reserved :=
  unfold sourceChangedRow, metadataRow, deactivatedRow, newRow;
  rewrite ?get_clearColumns_notin
    by (apply reserved_not_language; auto with rows);
  repeat first [rewrite get_insert_eq | rewrite get_insert_ne by done];
  try reflexivity.

Section written_rows.
Context (sheetHeaders : list string) (r : Row) (segment : Segment.t).
Local Abbreviation langs := (languageColumns sheetHeaders).

Lemma sourceChangedRow_id :
  get (sourceChangedRow langs r segment) "id" = get r "id".
Proof. get_reserved. Qed.
Lemma sourceChangedRow_English :
  get (sourceChangedRow langs r segment) "English"
  = JStr (Segment.source segment).
Proof. get_reserved. Qed.
Lemma sourceChangedRow_maxwidth :
  get (sourceChangedRow langs r segment) "maxwidth"
  = JStr (Segment.maxwidth segment).
Proof. get_reserved. Qed.
Lemma sourceChangedRow_size_unit :
  get (sourceChangedRow langs r segment) "size-unit"
  = JStr (Segment.sizeUnit segment).
Proof. get_reserved. Qed.
Lemma sourceChangedRow_active :
  get (sourceChangedRow langs r segment) "active" = JBool true.
Proof. get_reserved. Qed.


Lemma sourceChangedRow_other (col : string) :
  col ∉ langs → ¬ reserved col →
  sourceChangedRow langs r segment !! col = r !! col.
Proof.
  intros Hl Hr. unfold sourceChangedRow.
  rewrite lookup_clearColumns_notin by done.
  unfold reserved in Hr. simpl in Hr.
  rewrite !elem_of_cons, elem_of_nil in Hr.
  rewrite !lookup_insert_ne; [done|..]; intros <-; tauto.
Qed.

Lemma metadataRow_id : get (metadataRow r segment) "id" = get r "id".
Proof. get_reserved. Qed.
Lemma metadataRow_English :
  get (metadataRow r segment) "English" = get r "English".
Proof. get_reserved. Qed.
Lemma metadataRow_maxwidth :
  get (metadataRow r segment) "maxwidth" = JStr (Segment.maxwidth segment).
Proof. get_reserved. Qed.
Lemma metadataRow_size_unit :
  get (metadataRow r segment) "size-unit" = JStr (Segment.sizeUnit segment).
Proof. get_reserved. Qed.
Lemma metadataRow_active : get (metadataRow r segment) "active" = JBool true.
Proof. get_reserved. Qed.


Lemma deactivatedRow_id : get (deactivatedRow r) "id" = get r "id".
Proof. get_reserved. Qed.
Lemma deactivatedRow_active : get (deactivatedRow r) "active" = JBool false.
Proof. get_reserved. Qed.
Lemma deactivatedRow_other (col : string) :
  col ≠ "active" → deactivatedRow r !! col = r !! col.
Proof. intros. unfold deactivatedRow. by rewrite lookup_insert_ne. Qed.

Lemma newRow_id : get (newRow langs segment) "id" = JStr (Segment.id segment).
Proof. get_reserved. Qed.
Lemma newRow_English :
  get (newRow langs segment) "English" = JStr (Segment.source segment).
Proof. get_reserved. Qed.
Lemma newRow_maxwidth :
  get (newRow langs segment) "maxwidth" = JStr (Segment.maxwidth segment).
Proof. get_reserved. Qed.
Lemma newRow_size_unit :
  get (newRow langs segment) "size-unit" = JStr (Segment.sizeUnit segment).
Proof. get_reserved. Qed.
Lemma newRow_active : get (newRow langs segment) "active" = JBool true.
Proof. get_reserved. Qed.

(** A row on which nothing needs updating is the row the update would
    write. *)
Lemma metadataRow_unchanged :
  strict_ne (get r "active") (JBool true) = false →
  strict_ne (get r "maxwidth") (JStr (Segment.maxwidth segment)) = false →
  strict_ne (get r "size-unit") (JStr (Segment.sizeUnit segment)) = false →
  metadataRow r segment = r.
Proof.
  rewrite strict_ne_bool, !strict_ne_str. intros Ha Hm Hs.
  unfold metadataRow.
  rewrite (insert_get_id r "maxwidth") by done.
  rewrite (insert_get_id r "size-unit") by done.
  by rewrite (insert_get_id r "active").
Qed.

Lemma deactivatedRow_unchanged :
  strict_ne (get r "active") (JBool false) = false → deactivatedRow r = r.
Proof.
  rewrite strict_ne_bool. intros Ha. unfold deactivatedRow.
  by rewrite (insert_get_id r "active").
Qed.
End written_rows.

(** *** First revision: one pass over the sheet *)

Section TargetedSync_run.
Import TargetedSync.
Context (sheetHeaders : list string).
Local Abbreviation langs := (languageColumns sheetHeaders).

Lemma invalidId_valid (id : JSValue) :
  invalidId id = Ok false ↔ ∃ s, id = JStr s ∧ trim s ≠ "".
Proof.
  unfold invalidId. destruct id as [| |[]|[]|s]; simpl.
  9:{ destruct (String.eqb_spec s "") as [Hs|Hs]; simpl.
      - subst s. split; [done|intros (s' & [= <-] & Hn)]. by destruct Hn.
      - destruct (String.eqb_spec (trim s) "") as [Ht|Ht].
        + split; [done|intros (s' & [= <-] & Hn)]. done.
        + split; [intros _; eauto|done]. }
  all: split; [done|intros (s' & [=] & _)].
Qed.

Lemma applyUpdates_one (prefix rest : list Row) (r d : Row) (i : nat) :
  length prefix = i →
  applyUpdates [ {| row := i + 2; data := d |} ] (prefix ++ r :: rest)
  = prefix ++ d :: rest.
Proof.
  intros <-. unfold applyUpdates. simpl.
  replace (length prefix + 2 - 2) with (length prefix + 0) by lia.
  by rewrite insert_app_r.
Qed.

Lemma applyUpdates_app (u1 u2 : list RowUpdate) (records : list Row) :
  applyUpdates (u1 ++ u2) records = applyUpdates u2 (applyUpdates u1 records).
Proof. unfold applyUpdates. by rewrite fold_left_app. Qed.

(** One iteration: the map it leaves, and the effect of the update it
    queues on the record set. *)
Lemma processRow_spec (i : nat) (r : Row) (st st' : LoopState) :
  processRow langs i r st = Ok st' →
  xlfMap st' = xlfAfter (xlfMap st) r
  ∧ ∃ new, rowsToUpdate st' = rowsToUpdate st ++ new
           ∧ ∀ prefix rest, length prefix = i →
               applyUpdates new (prefix ++ r :: rest)
               = prefix ++ rowAfter langs (xlfMap st) r :: rest.
Proof.
  unfold processRow, xlfAfter, rowAfter.
  destruct (invalidId (get r "id")) as [[|]|e]; simpl; [| |done].
  { intros [= <-]. split; [done|]. exists []. by rewrite app_nil_r. }
  destruct (JSMap.get (get r "id") (xlfMap st)) as [segment|] eqn:Hget.
  - destruct (strict_ne (get r "English") (JStr (Segment.source segment)))
      eqn:Hsrc; simpl.
    + intros [= <-]. simpl. split; [done|]. eexists. split; [done|].
      intros prefix rest Hlen. by apply applyUpdates_one.
    + destruct (strict_ne (get r "active") (JBool true)
                || strict_ne (get r "maxwidth") (JStr (Segment.maxwidth segment))
                || strict_ne (get r "size-unit") (JStr (Segment.sizeUnit segment)))
        eqn:Hmeta; simpl.
      * intros [= <-]. simpl. split; [done|]. eexists. split; [done|].
        intros prefix rest Hlen. by apply applyUpdates_one.
      * intros [= <-]. simpl. split; [done|]. exists [].
        split; [by rewrite app_nil_r|]. intros prefix rest _.
        apply orb_false_elim in Hmeta as [Hmeta Hsz].
        apply orb_false_elim in Hmeta as [Hact Hmw].
        by rewrite metadataRow_unchanged.
  - intros [= <-]. simpl. split; [by rewrite JSMap_delete_absent|].
    destruct (strict_ne (get r "active") (JBool false)) eqn:Hact.
    + eexists. split; [done|]. intros prefix rest Hlen.
      by apply applyUpdates_one.
    + exists []. split; [by rewrite app_nil_r|]. intros prefix rest _.
      by rewrite deactivatedRow_unchanged.
Qed.

Lemma processRows_spec (records : list Row) :
  ∀ (i : nat) (st st' : LoopState),
    processRows langs i records st = Ok st' →
    xlfMap st' = fold_left xlfAfter records (xlfMap st)
    ∧ ∃ new, rowsToUpdate st' = rowsToUpdate st ++ new
             ∧ ∀ prefix, length prefix = i →
                 applyUpdates new (prefix ++ records)
                 = prefix ++ rowsAfter langs (xlfMap st) records.
Proof.
  induction records as [|r records IH]; intros i st st'; simpl.
  - intros [= <-]. split; [done|]. exists []. by rewrite app_nil_r.
  - destruct (processRow langs i r st) as [st1|e] eqn:Hrow; simpl; [|done].
    intros Hrest.
    apply processRow_spec in Hrow as (Hxlf1 & new1 & Hups1 & Happly1).
    apply IH in Hrest as (Hxlf & new & Hups & Happly).
    split; [by rewrite Hxlf, Hxlf1|].
    exists (new1 ++ new). split; [by rewrite Hups, Hups1, app_assoc|].
    intros prefix Hlen. rewrite applyUpdates_app, Happly1 by done.
    rewrite (cons_middle _ prefix), app_assoc, Happly.
    + by rewrite Hxlf1, <- app_assoc.
    + rewrite length_app. simpl. lia.
Qed.

(** A record that already agrees with its segment is left alone. *)
Lemma processRow_in_sync (i : nat) (r : Row) (st : LoopState)
    (segment : Segment.t) :
  invalidId (get r "id") = Ok false →
  JSMap.get (get r "id") (xlfMap st) = Some segment →
  get r "English" = JStr (Segment.source segment) →
  get r "active" = JBool true →
  get r "maxwidth" = JStr (Segment.maxwidth segment) →
  get r "size-unit" = JStr (Segment.sizeUnit segment) →
  processRow langs i r st
  = Ok {| xlfMap := JSMap.delete (get r "id") (xlfMap st);
          rowsToUpdate := rowsToUpdate st;
          stats := incr_unchanged (stats st) |}.
Proof.
  intros Hid Hget He Ha Hm Hs. unfold processRow.
  rewrite Hid. simpl. rewrite Hget, He, Ha, Hm, Hs.
  rewrite (proj2 (strict_ne_str _ _) eq_refl).
  rewrite (proj2 (strict_ne_str _ _) eq_refl).
  rewrite (proj2 (strict_ne_str _ _) eq_refl).
  by rewrite (proj2 (strict_ne_bool _ _) eq_refl).
Qed.

(** A record that is absent from the segments and already inactive is
    left alone, and counted again. *)
Lemma processRow_inactive (i : nat) (r : Row) (st : LoopState) :
  invalidId (get r "id") = Ok false →
  JSMap.get (get r "id") (xlfMap st) = None →
  get r "active" = JBool false →
  processRow langs i r st
  = Ok {| xlfMap := xlfMap st;
          rowsToUpdate := rowsToUpdate st;
          stats := incr_deactivated (stats st) |}.
Proof.
  intros Hid Hget Ha. unfold processRow.
  rewrite Hid. simpl. rewrite Hget, Ha.
  by rewrite (proj2 (strict_ne_bool _ _) eq_refl).
Qed.

Lemma processRow_rerun (i i' : nat) (r : Row) (st st1 st2 : LoopState) :
  processRow langs i r st = Ok st1 → xlfMap st2 = xlfMap st →
  ∃ st2', processRow langs i' (rowAfter langs (xlfMap st) r) st2 = Ok st2'
          ∧ rerun st st1 st2 st2'.
Proof.
  intros Hrun Hxlf. unfold rowAfter. revert Hrun. unfold processRow at 1.
  destruct (invalidId (get r "id")) as [[|]|e] eqn:Hid; simpl; [| |done].
  { intros [= <-]. exists st2. split; [|by repeat split].
    unfold processRow. by rewrite Hid. }
  destruct (JSMap.get (get r "id") (xlfMap st)) as [segment|] eqn:Hget.
  - destruct (strict_ne (get r "English") (JStr (Segment.source segment)))
      eqn:Hsrc; simpl.
    + intros [= <-]. eexists. split.
      * apply processRow_in_sync with (segment := segment).
        -- by rewrite sourceChangedRow_id.
        -- by rewrite sourceChangedRow_id, Hxlf.
        -- apply sourceChangedRow_English.
        -- apply sourceChangedRow_active.
        -- apply sourceChangedRow_maxwidth.
        -- apply sourceChangedRow_size_unit.
      * unfold rerun; simpl. rewrite sourceChangedRow_id, Hxlf.
        repeat split; lia.
    + intros Hrun. assert (stats st1 = incr_unchanged (stats st)
                           ∧ xlfMap st1 = JSMap.delete (get r "id") (xlfMap st))
        as [Hst Hx].
      { destruct (_ || _ || _); simpl in Hrun; by injection Hrun as <-. }
      apply strict_ne_str in Hsrc. eexists. split.
      * apply processRow_in_sync with (segment := segment).
        -- by rewrite metadataRow_id.
        -- by rewrite metadataRow_id, Hxlf.
        -- by rewrite metadataRow_English.
        -- apply metadataRow_active.
        -- apply metadataRow_maxwidth.
        -- apply metadataRow_size_unit.
      * unfold rerun; simpl. rewrite metadataRow_id, Hxlf, Hx, Hst. simpl.
        repeat split; lia.
  - intros [= <-]. eexists. split.
    + apply processRow_inactive.
      * by rewrite deactivatedRow_id.
      * by rewrite deactivatedRow_id, Hxlf.
      * apply deactivatedRow_active.
    + unfold rerun; simpl. repeat split; try done; lia.
Qed.

Lemma processRows_rerun (records : list Row) :
  ∀ (i i' : nat) (st st1 st2 : LoopState),
    processRows langs i records st = Ok st1 → xlfMap st2 = xlfMap st →
    ∃ st2', processRows langs i' (rowsAfter langs (xlfMap st) records) st2
            = Ok st2'
            ∧ rerun st st1 st2 st2'.
Proof.
  induction records as [|r records IH]; intros i i' st st1 st2; simpl.
  - intros [= <-] Hxlf. exists st2. split; [done|]. by repeat split.
  - destruct (processRow langs i r st) as [sta|e] eqn:Hrow; simpl; [|done].
    intros Hrest Hxlf.
    destruct (processRow_rerun i i' r st sta st2 Hrow Hxlf)
      as (stb & Hrow2 & Hr1).
    rewrite Hrow2. simpl.
    apply processRow_spec in Hrow as [Hxa _].
    destruct (IH (S i) (S i') sta st1 stb Hrest) as (st2' & Hrest2 & Hr2).
    { by destruct Hr1 as [-> _]. }
    exists st2'. rewrite <- Hxa. split; [done|].
    unfold rerun in *. destruct Hr1 as (? & ? & ? & ? & ? & ? & ?).
    destruct Hr2 as (? & ? & ? & ? & ? & ? & ?).
    repeat split; [done|congruence|lia..].
Qed.
End TargetedSync_run.

Section TargetedSync_idempotence.
Import TargetedSync.
Context (sheetHeaders : list string).
Local Abbreviation langs := (languageColumns sheetHeaders).

Lemma addNew_spec (remaining : JSMap.t Segment.t) :
  ∀ rowsToAdd stats,
    (addNew langs remaining rowsToAdd stats).1
    = rowsToAdd ++ map (λ e, newRow langs e.2) remaining
    ∧ added (addNew langs remaining rowsToAdd stats).2
      = added stats + length remaining
    ∧ updated (addNew langs remaining rowsToAdd stats).2 = updated stats
    ∧ unchanged (addNew langs remaining rowsToAdd stats).2 = unchanged stats
    ∧ deactivated (addNew langs remaining rowsToAdd stats).2
      = deactivated stats.
Proof.
  induction remaining as [|[k segment] remaining IH]; intros rowsToAdd stats;
    simpl.
  - rewrite app_nil_r. repeat split; lia.
  - destruct (IH (rowsToAdd ++ [newRow langs segment]) (incr_added stats))
      as (-> & -> & -> & -> & ->).
    simpl. rewrite <- app_assoc. repeat split; lia.
Qed.







(** The records after a run, without the detour through the queued
    updates. *)
Lemma nextRecords_spec (segments : list Segment.t) (sheetData : list Row)
    (r1 : SyncResult) :
  syncXLFtoSheet segments sheetData sheetHeaders = Ok r1 →
  nextRecords sheetData r1
  = rowsAfter langs (indexSegments segments) sheetData
    ++ map (λ e, newRow langs e.2)
           (fold_left xlfAfter sheetData (indexSegments segments)).
Proof.
  unfold syncXLFtoSheet, nextRecords.
  destruct (processRows _ _ _ _) as [st|e] eqn:Hrun; simpl; [|done].
  apply processRows_spec in Hrun as (Hxlf & new & Hups & Happly).
  simpl in *. specialize (Happly [] eq_refl). simpl in Happly.
  pose proof (addNew_spec (xlfMap st) [] (stats st)) as [Hadd _].
  destruct (addNew _ _ _ _) as [rowsToAdd stats']. simpl in Hadd.
  intros [= <-]. simpl. by rewrite Hups, Happly, Hadd, Hxlf.
Qed.

End TargetedSync_idempotence.

(** *** Second revision *)

Section RewriteSync_run.
Import RewriteSync.
Context (sheetHeaders : list string).
Local Abbreviation langs := (languageColumns sheetHeaders).

Lemma processSegments_spec (sheetMap : JSMap.t Row)
    (entries : JSMap.t Segment.t) :
  ∀ updatedData stats,
    let res := processSegments langs sheetMap entries updatedData stats in
    res.1 = updatedData ++ map (segmentRow langs sheetMap) entries
    ∧ added res.2
      = added stats + length (filter (λ e, entryNew sheetMap e) entries)
    ∧ updated res.2
      = updated stats + length (filter (λ e, entryChanged sheetMap e) entries)
    ∧ unchanged res.2
      = unchanged stats + length (filter (λ e, entrySame sheetMap e) entries)
    ∧ deactivated res.2 = deactivated stats.
Proof.
  induction entries as [|[k segment] entries IH]; intros updatedData stats;
    cbv zeta.
  - simpl. rewrite app_nil_r. repeat split; lia.
  - rewrite !length_filter_bool. cbn [processSegments map].
    unfold segmentRow at 1, entryNew at 1, entryChanged at 1, entrySame at 1,
      JSMap.has.
    cbn [fst snd]. destruct (JSMap.get k sheetMap) as [existingRow|]; simpl.
    + destruct (strict_ne _ _); simpl;
        edestruct IH as (-> & -> & -> & -> & ->); simpl;
        rewrite <- app_assoc; repeat split; lia.
    + edestruct IH as (-> & -> & -> & -> & ->); simpl.
      rewrite <- app_assoc; repeat split; lia.
Qed.

Lemma processMissing_spec (xlfMap : JSMap.t Segment.t)
    (entries : JSMap.t Row) :
  ∀ updatedData stats,
    let res := processMissing xlfMap entries updatedData stats in
    res.1 = updatedData
            ++ map (λ e, deactivatedRow e.2)
                   (filter (λ e, entryMissing xlfMap e) entries)
    ∧ added res.2 = added stats
    ∧ updated res.2 = updated stats
    ∧ unchanged res.2 = unchanged stats
    ∧ deactivated res.2
      = deactivated stats
        + length (filter (λ e, entryMissing xlfMap e) entries).
Proof.
  induction entries as [|[k r] entries IH]; intros updatedData stats;
    cbv zeta.
  - simpl. rewrite app_nil_r. repeat split; lia.
  - rewrite length_filter_bool, filter_cons_bool. cbn [processMissing].
    change (entryMissing xlfMap (k, r)) with (negb (JSMap.has k xlfMap)).
    destruct (JSMap.has k xlfMap); simpl.
    + edestruct IH as (-> & -> & -> & -> & ->). repeat split; lia.
    + edestruct IH as (-> & -> & -> & -> & ->). simpl.
      rewrite <- app_assoc. repeat split; lia.
Qed.

(** The counters of a run. *)
Lemma syncXLFtoSheet_spec (segments : list Segment.t) (sheetData : list Row) :
  let r := syncXLFtoSheet segments sheetData sheetHeaders in
  let xlfMap := indexSegments segments in
  let sheetMap := indexRows sheetData in
  writeSheet r
  = map (segmentRow langs sheetMap) xlfMap
    ++ map (λ e, deactivatedRow e.2)
           (filter (λ e, entryMissing xlfMap e) sheetMap)
  ∧ added (result_stats r)
    = length (filter (λ e, entryNew sheetMap e) xlfMap)
  ∧ updated (result_stats r)
    = length (filter (λ e, entryChanged sheetMap e) xlfMap)
  ∧ unchanged (result_stats r)
    = length (filter (λ e, entrySame sheetMap e) xlfMap)
  ∧ deactivated (result_stats r)
    = length (filter (λ e, entryMissing xlfMap e) sheetMap).
Proof.
  unfold syncXLFtoSheet.
  pose proof (processSegments_spec (indexRows sheetData)
                (indexSegments segments) [] stats0) as Hs.
  destruct (processSegments _ _ _ _ _) as [updatedData stats].
  pose proof (processMissing_spec (indexSegments segments)
                (indexRows sheetData) updatedData stats) as Hm.
  destruct (processMissing _ _ _ _) as [updatedData' stats'].
  simpl in *. destruct Hs as (-> & Ha & Hu & Hn & Hd).
  destruct Hm as (-> & -> & -> & -> & ->). repeat split; lia.
Qed.

Lemma entry_classes (sheetMap : JSMap.t Row) (entries : JSMap.t Segment.t) :
  length (filter (λ e, entryNew sheetMap e) entries)
  + length (filter (λ e, entryChanged sheetMap e) entries)
  + length (filter (λ e, entrySame sheetMap e) entries)
  = length entries.
Proof.
  induction entries as [|e entries IH]; [done|].
  rewrite !length_filter_bool. simpl. rewrite <- IH.
  unfold entryNew, entryChanged, entrySame, JSMap.has.
  destruct (JSMap.get e.1 sheetMap); simpl; [|lia].
  destruct (strict_ne _ _); simpl; lia.
Qed.
End RewriteSync_run.

Section sheetMap_facts.
Context {V : Type}.
Implicit Types (m : JSMap.t V) (k : JSValue) (v : V).

Lemma JSMap_set_fresh k v m :
  k ∉ JSMap.keys m → JSMap.set k v m = m ++ [(k, v)].
Proof.
  induction m as [|[k0 v0] m IH]; simpl; [done|].
  rewrite not_elem_of_cons. intros [Hne Hk].
  rewrite decide_False by done. by rewrite IH.
Qed.



Lemma JSMap_keys_fmap {W} (f : JSValue * W → V) (entries : JSMap.t W) :
  JSMap.keys (map (λ e, (e.1, f e)) entries) = JSMap.keys entries.
Proof. unfold JSMap.keys. rewrite map_map. done. Qed.

Lemma JSMap_has_elem k m : JSMap.has k m = true ↔ k ∈ JSMap.keys m.
Proof.
  unfold JSMap.has. pose proof (JSMap_get_None k m) as Hn.
  destruct (JSMap.get k m).
  - split; [intros _|done]. destruct (decide (k ∈ JSMap.keys m)); [done|].
    by apply Hn in n.
  - split; [done|]. intros Hin. by apply Hn in Hin.
Qed.
End sheetMap_facts.

Lemma length_filter_none {A} (P : A → bool) (l : list A) :
  Forall (λ x, P x = false) l → length (filter (λ x, P x) l) = 0.
Proof.
  induction 1 as [|x l Hx _ IH]; [done|].
  by rewrite length_filter_bool, Hx, IH.
Qed.

Lemma length_filter_all {A} (P : A → bool) (l : list A) :
  Forall (λ x, P x = true) l → length (filter (λ x, P x) l) = length l.
Proof.
  induction 1 as [|x l Hx _ IH]; [done|].
  by rewrite length_filter_bool, Hx, IH.
Qed.


Lemma filter_all {A} (P : A → bool) (l : list A) :
  Forall (λ x, P x = true) l → filter (λ x, P x) l = l.
Proof.
  induction 1 as [|x l Hx _ IH]; [done|].
  by rewrite filter_cons_bool, Hx, IH.
Qed.

Lemma fold_indexRows_keyed (sheetData : list Row) :
  ∀ m, keyedByRowId m →
       keyedByRowId
         (fold_left (λ m row, if truthy (get row "id")
                              then JSMap.set (get row "id") row m else m)
                    sheetData m).
Proof.
  induction sheetData as [|r sheetData IH]; intros m Hm; simpl; [done|].
  apply IH. destruct (truthy (get r "id")) eqn:Ht; [|done].
  destruct Hm as [Hnd Hall]. split.
  - by apply JSMap_set_NoDup.
  - by apply JSMap_set_Forall.
Qed.

Lemma indexRows_keyed (sheetData : list Row) : keyedByRowId (indexRows sheetData).
Proof. apply fold_indexRows_keyed. split; constructor. Qed.

(** Records with distinct truthy ids are indexed in the order of the
    sheet. *)
Lemma fold_indexRows_distinct (sheetData : list Row) :
  ∀ m, NoDup (JSMap.keys m ++ map rowId sheetData) →
       Forall (λ r, truthy (rowId r) = true) sheetData →
       fold_left (λ m row, if truthy (get row "id")
                           then JSMap.set (get row "id") row m else m)
                 sheetData m
       = m ++ map (λ r, (rowId r, r)) sheetData.
Proof.
  induction sheetData as [|r sheetData IH]; intros m Hnd Ht; simpl.
  - by rewrite app_nil_r.
  - apply Forall_cons in Ht as [Hr Ht]. unfold rowId in Hr. rewrite Hr.
    simpl in Hnd. apply NoDup_app in Hnd as (Hm & Hdisj & Hrest).
    apply NoDup_cons in Hrest as [Hr' Hrest].
    rewrite JSMap_set_fresh.
    2:{ intros Hin. apply (Hdisj _ Hin). by left. }
    rewrite IH; [by rewrite <- app_assoc|..|done].
    unfold JSMap.keys. rewrite map_app. simpl.
    rewrite <- app_assoc. simpl. apply NoDup_app. split; [done|]. split.
    + intros k Hk [->|Hin]%elem_of_cons.
      * apply (Hdisj _ Hk). by left.
      * apply (Hdisj _ Hk). by right.
    + by apply NoDup_cons.
Qed.

Lemma indexRows_distinct (sheetData : list Row) :
  NoDup (map rowId sheetData) →
  Forall (λ r, truthy (rowId r) = true) sheetData →
  indexRows sheetData = map (λ r, (rowId r, r)) sheetData.
Proof. intros. by apply (fold_indexRows_distinct sheetData []). Qed.

Lemma map_ext_Forall {A B} (f g : A → B) (l : list A) :
  Forall (λ x, f x = g x) l → map f l = map g l.
Proof. induction 1 as [|x l Hx _ IH]; simpl; congruence. Qed.

Lemma sublist_map {A B} (f : A → B) (l1 l2 : list A) :
  sublist l1 l2 → sublist (map f l1) (map f l2).
Proof. induction 1; simpl; by constructor. Qed.

Lemma nonBlank_truthy (s : string) : trim s ≠ "" → truthy (JStr s) = true.
Proof. destruct s; [done|]. done. Qed.

Section RewriteSync_idempotence.
Import RewriteSync.
Context (sheetHeaders : list string).
Local Abbreviation langs := (languageColumns sheetHeaders).



End RewriteSync_idempotence.

(** *** Well-formed record sets *)

Lemma length_filter_ext {A} (P Q : A → bool) (l : list A) :
  Forall (λ x, P x = Q x) l →
  length (filter (λ x, P x) l) = length (filter (λ x, Q x) l).
Proof.
  induction 1 as [|x l Hx _ IH]; [done|].
  by rewrite !length_filter_bool, Hx, IH.
Qed.

Lemma validId_truthy (r : Row) : validId r = true → truthy (rowId r) = true.
Proof.
  unfold validId, rowId. destruct (get r "id") as [| |?|?|s]; try done.
  intros Hs. apply nonBlank_truthy. by destruct (String.eqb_spec (trim s) "").
Qed.

Section TargetedSync_wf.
Import TargetedSync.
Context (sheetHeaders : list string).
Local Abbreviation langs := (languageColumns sheetHeaders).

Lemma validId_invalidId (r : Row) :
  validId r = true → invalidId (get r "id") = Ok false.
Proof.
  unfold validId. intros Hv. apply invalidId_valid.
  destruct (get r "id") as [| |?|?|s]; try done.
  exists s. split; [done|]. by destruct (String.eqb_spec (trim s) "").
Qed.

Lemma rowAfter_valid (m : JSMap.t Segment.t) (r : Row) :
  validId r = true →
  rowAfter langs m r
  = match JSMap.get (rowId r) m with
    | Some segment =>
        if strict_ne (get r "English") (JStr (Segment.source segment))
        then sourceChangedRow langs r segment
        else metadataRow r segment
    | None => deactivatedRow r
    end
  ∧ xlfAfter m r = JSMap.delete (rowId r) m.
Proof.
  intros Hv%validId_invalidId. unfold rowAfter, xlfAfter. by rewrite Hv.
Qed.

Lemma rowAfter_delete_ne (m : JSMap.t Segment.t) (r r' : Row) :
  validId r' = true → rowId r ≠ rowId r' →
  rowAfter langs (JSMap.delete (rowId r) m) r' = rowAfter langs m r'.
Proof.
  intros Hv Hne.
  destruct (rowAfter_valid m r' Hv) as [-> _].
  destruct (rowAfter_valid (JSMap.delete (rowId r) m) r' Hv) as [-> _].
  by rewrite JSMap_get_delete_ne.
Qed.

Lemma rowsAfter_wf (records : list Row) :
  ∀ m, wellFormedRecords records →
       rowsAfter langs m records = map (rowAfter langs m) records.
Proof.
  induction records as [|r records IH]; intros m [Hv Hnd]; [done|].
  apply Forall_cons in Hv as [Hr Hv].
  change (NoDup (rowId r :: map rowId records)) in Hnd.
  apply NoDup_cons in Hnd as [Hr' Hnd].
  cbn [rowsAfter map]. f_equal. rewrite IH by done.
  destruct (rowAfter_valid m r Hr) as [_ ->].
  apply map_ext_Forall. rewrite Forall_forall in Hv |- *. intros r' Hin.
  apply rowAfter_delete_ne; [by apply Hv|].
  intros Heq. apply Hr'. rewrite Heq. apply list_elem_of_fmap. by exists r'.
Qed.

Lemma processRow_counts (i : nat) (r : Row) (st : LoopState) :
  validId r = true →
  ∃ st1, processRow langs i r st = Ok st1
         ∧ xlfMap st1 = JSMap.delete (rowId r) (xlfMap st)
         ∧ added (stats st1) = added (stats st)
         ∧ updated (stats st1)
           = updated (stats st)
             + (if sourceChanged (xlfMap st) r then 1 else 0)
         ∧ unchanged (stats st1)
           = unchanged (stats st)
             + (if sourceSame (xlfMap st) r then 1 else 0)
         ∧ deactivated (stats st1)
           = deactivated (stats st) + (if absent (xlfMap st) r then 1 else 0).
Proof.
  intros Hv%validId_invalidId.
  unfold processRow, sourceChanged, sourceSame, absent, JSMap.has, rowId.
  rewrite Hv. simpl.
  destruct (JSMap.get (get r "id") (xlfMap st)) as [segment|] eqn:Hget.
  - destruct (strict_ne (get r "English") (JStr (Segment.source segment)));
      simpl.
    + eexists. split; [done|]. simpl. repeat split; lia.
    + destruct (_ || _ || _); simpl; eexists; (split; [done|]); simpl;
        repeat split; lia.
  - eexists. split; [done|]. simpl.
    rewrite JSMap_delete_absent by done. repeat split; lia.
Qed.

Lemma processRows_counts (records : list Row) :
  ∀ i st, wellFormedRecords records →
    ∃ st', processRows langs i records st = Ok st'
           ∧ added (stats st') = added (stats st)
           ∧ updated (stats st')
             = updated (stats st)
               + length (filter (λ r, sourceChanged (xlfMap st) r) records)
           ∧ unchanged (stats st')
             = unchanged (stats st)
               + length (filter (λ r, sourceSame (xlfMap st) r) records)
           ∧ deactivated (stats st')
             = deactivated (stats st)
               + length (filter (λ r, absent (xlfMap st) r) records).
Proof.
  induction records as [|r records IH]; intros i st [Hv Hnd].
  - exists st. simpl. repeat split; lia.
  - apply Forall_cons in Hv as [Hr Hv].
    change (NoDup (rowId r :: map rowId records)) in Hnd.
    apply NoDup_cons in Hnd as [Hr' Hnd]. cbn [processRows].
    destruct (processRow_counts i r st Hr)
      as (st1 & -> & Hx & Ha & Hu & Hn & Hd). simpl.
    destruct (IH (S i) st1 (conj Hv Hnd)) as (st' & -> & Ha' & Hu' & Hn' & Hd').
    exists st'. split; [done|]. rewrite !length_filter_bool.
    assert (Forall (λ r', JSMap.get (rowId r') (xlfMap st1)
                          = JSMap.get (rowId r') (xlfMap st)) records) as Hsame.
    { rewrite Forall_forall. intros r' Hin. rewrite Hx.
      apply JSMap_get_delete_ne. intros Heq. apply Hr'. rewrite Heq.
      apply list_elem_of_fmap. by exists r'. }
    rewrite (length_filter_ext (sourceChanged (xlfMap st1))
               (sourceChanged (xlfMap st))) in Hu'.
    2:{ eapply Forall_impl; [exact Hsame|]. intros r' Hr'0.
        unfold sourceChanged. unfold rowId in Hr'0. by rewrite Hr'0. }
    rewrite (length_filter_ext (sourceSame (xlfMap st1))
               (sourceSame (xlfMap st))) in Hn'.
    2:{ eapply Forall_impl; [exact Hsame|]. intros r' Hr'0.
        unfold sourceSame. unfold rowId in Hr'0. by rewrite Hr'0. }
    rewrite (length_filter_ext (absent (xlfMap st1))
               (absent (xlfMap st))) in Hd'.
    2:{ eapply Forall_impl; [exact Hsame|]. intros r' Hr'0.
        unfold absent, JSMap.has. unfold rowId in Hr'0. by rewrite Hr'0. }
    repeat split; lia.
Qed.

(** A run over a well-formed record set: it succeeds, every record is
    rewritten on its own, and the counters count the records of each
    kind. *)
Lemma TargetedSync_wf_run (segments : list Segment.t) (sheetData : list Row) :
  wellFormedRecords sheetData →
  ∃ r1, syncXLFtoSheet segments sheetData sheetHeaders = Ok r1
        ∧ nextRecords sheetData r1
          = map (rowAfter langs (indexSegments segments)) sheetData
            ++ map (λ e, newRow langs e.2)
                   (fold_left xlfAfter sheetData (indexSegments segments))
        ∧ updated (result_stats r1)
          = length (filter (λ r, sourceChanged (indexSegments segments) r)
                           sheetData)
        ∧ unchanged (result_stats r1)
          = length (filter (λ r, sourceSame (indexSegments segments) r)
                           sheetData)
        ∧ deactivated (result_stats r1)
          = length (filter (λ r, absent (indexSegments segments) r)
                           sheetData).
Proof.
  intros Hwf.
  destruct (processRows_counts sheetData 0
              {| xlfMap := indexSegments segments;
                 rowsToUpdate := []; stats := stats0 |} Hwf)
    as (st1 & Hrun & Ha & Hu & Hn & Hd).
  assert (∃ r1, syncXLFtoSheet segments sheetData sheetHeaders = Ok r1
                ∧ result_stats r1
                  = (addNew langs (xlfMap st1) [] (stats st1)).2)
    as (r1 & Hr1 & Hstats).
  { unfold syncXLFtoSheet. rewrite Hrun. simpl.
    destruct (addNew _ _ _ _). eexists. split; done. }
  exists r1. split; [done|].
  pose proof (addNew_spec sheetHeaders (xlfMap st1) [] (stats st1))
    as (_ & _ & Hu1 & Hn1 & Hd1).
  rewrite <- Hstats in Hu1, Hn1, Hd1. simpl in *.
  split; [|repeat split; lia].
  by rewrite (nextRecords_spec sheetHeaders _ _ _ Hr1), rowsAfter_wf.
Qed.
End TargetedSync_wf.

(** Counting over the segments or over the records comes to the same. *)
Section counting.
Context {V : Type}.

Lemma length_filter_key (Q : V → bool) (a : JSValue) (m : JSMap.t V) :
  NoDup (JSMap.keys m) →
  length (filter (λ e, bool_decide (e.1 = a) && Q e.2) m)
  = if match JSMap.get a m with Some v => Q v | None => false end
    then 1 else 0.
Proof.
  induction m as [|[k v] m IH]; [done|].
  change (JSMap.keys ((k, v) :: m)) with (k :: JSMap.keys m).
  intros [Hk Hnd]%NoDup_cons. rewrite length_filter_bool.
  cbn [JSMap.get fst snd]. destruct (decide (k = a)) as [->|Hne].
  - rewrite bool_decide_eq_true_2 by done. rewrite length_filter_none.
    + simpl. destruct (Q v); lia.
    + apply Forall_forall. intros e He.
      rewrite bool_decide_eq_false_2; [done|]. intros <-. apply Hk.
      unfold JSMap.keys. apply list_elem_of_fmap. by exists e.
  - rewrite bool_decide_eq_false_2 by done. simpl. by apply IH.
Qed.

Lemma length_filter_or {A} (f g h : A → bool) (l : list A) :
  Forall (λ x, f x = g x || h x ∧ g x && h x = false) l →
  length (filter (λ x, f x) l)
  = length (filter (λ x, g x) l) + length (filter (λ x, h x) l).
Proof.
  induction 1 as [|x l [Hx Hd] _ IH]; [done|].
  rewrite !length_filter_bool, Hx, IH.
  destruct (g x), (h x); simpl in *; try done; lia.
Qed.
End counting.

Lemma JSMap_get_indexed (records : list Row) (r : Row) :
  NoDup (map rowId records) → r ∈ records →
  JSMap.get (rowId r) (map (λ r, (rowId r, r)) records) = Some r.
Proof.
  induction records as [|r0 records IH]; [by intros _ ?%elem_of_nil|].
  change (map rowId (r0 :: records)) with (rowId r0 :: map rowId records).
  intros [Hr0 Hnd]%NoDup_cons [->|Hin]%elem_of_cons; simpl.
  - by rewrite decide_True.
  - rewrite decide_False; [by apply IH|]. intros Heq. apply Hr0.
    rewrite Heq. apply list_elem_of_fmap. by exists r.
Qed.

Lemma count_swap (P : Row → Segment.t → bool) (xlfMap : JSMap.t Segment.t)
    (records : list Row) :
  NoDup (JSMap.keys xlfMap) → NoDup (map rowId records) →
  length (filter (λ e, (match JSMap.get e.1 (map (λ r, (rowId r, r)) records)
                        with Some r => P r e.2 | None => false end : bool))
                 xlfMap)
  = length (filter (λ r, (match JSMap.get (rowId r) xlfMap
                          with Some seg => P r seg | None => false end : bool))
                   records).
Proof.
  intros HndX. induction records as [|r records IH].
  - intros _. rewrite length_filter_none; [done|]. by apply Forall_forall.
  - change (map rowId (r :: records)) with (rowId r :: map rowId records).
    intros [Hr Hnd]%NoDup_cons. rewrite length_filter_bool, <- IH by done.
    rewrite <- (length_filter_key (P r) (rowId r) xlfMap) by done.
    apply length_filter_or, Forall_forall. intros e _.
    cbn [map JSMap.get]. destruct (decide (rowId r = e.1)) as [Heq|Hne].
    + rewrite bool_decide_eq_true_2 by done. simpl.
      assert (JSMap.get e.1 (map (λ r, (rowId r, r)) records) = None) as ->.
      { apply JSMap_get_None. rewrite <- Heq.
        unfold JSMap.keys. by rewrite map_map. }
      split; [by rewrite orb_false_r|by rewrite andb_false_r].
    + rewrite bool_decide_eq_false_2 by done. done.
Qed.

Lemma length_filter_map {A B} (f : A → B) (P : B → bool) (l : list A) :
  length (filter (λ y, P y) (map f l)) = length (filter (λ x, P (f x)) l).
Proof.
  induction l as [|x l IH]; [done|].
  cbn [map]. by rewrite !length_filter_bool, IH.
Qed.

Section RewriteSync_wf.
Import RewriteSync.
Context (sheetHeaders : list string).
Local Abbreviation langs := (languageColumns sheetHeaders).

Lemma indexRows_wf (sheetData : list Row) :
  wellFormedRecords sheetData →
  indexRows sheetData = map (λ r, (rowId r, r)) sheetData.
Proof.
  intros [Hv Hnd]. apply indexRows_distinct; [done|].
  eapply Forall_impl; [exact Hv|]. apply validId_truthy.
Qed.

(** A run over a well-formed record set: every record is rewritten on its
    own, and the counters count the records of each kind. *)
Lemma RewriteSync_wf_run (segments : list Segment.t) (sheetData : list Row) :
  wellFormedRecords sheetData →
  let r1 := syncXLFtoSheet segments sheetData sheetHeaders in
  (∀ r, r ∈ sheetData →
        rowAfter langs (indexSegments segments) r ∈ nextRecords r1)
  ∧ updated (result_stats r1)
    = length (filter (λ r, sourceChanged (indexSegments segments) r)
                     sheetData)
  ∧ unchanged (result_stats r1)
    = length (filter (λ r, sourceSame (indexSegments segments) r)
                     sheetData)
  ∧ deactivated (result_stats r1)
    = length (filter (λ r, absent (indexSegments segments) r) sheetData).
Proof.
  intros Hwf r1. unfold nextRecords.
  destruct (syncXLFtoSheet_spec sheetHeaders segments sheetData)
    as (Hw & _ & Hu & Hn & Hd).
  fold r1 in Hw, Hu, Hn, Hd. rewrite Hw, Hu, Hn, Hd.
  rewrite (indexRows_wf _ Hwf).
  pose proof (indexSegments_keyed segments) as [HndX _].
  destruct Hwf as [Hv Hnd].
  split; [|split; [|split]].
  - intros r Hin. rewrite Forall_forall in Hv.
    destruct (rowAfter_valid sheetHeaders (indexSegments segments) r
                (Hv _ Hin)) as [-> _].
    apply elem_of_app.
    destruct (JSMap.get (rowId r) (indexSegments segments))
      as [segment|] eqn:Hget.
    + left. apply JSMap_get_Some in Hget.
      apply list_elem_of_fmap. exists (rowId r, segment). split; [|done].
      unfold segmentRow. simpl. by rewrite JSMap_get_indexed.
    + right. apply list_elem_of_fmap. exists (rowId r, r). split; [done|].
      apply list_elem_of_filter. split.
      * unfold entryMissing, JSMap.has. simpl. by rewrite Hget.
      * apply list_elem_of_fmap. by exists r.
  - apply (count_swap
             (λ r seg, strict_ne (get r "English") (JStr (Segment.source seg))));
      done.
  - apply (count_swap
             (λ r seg, negb (strict_ne (get r "English")
                                       (JStr (Segment.source seg)))));
      done.
  - by rewrite (length_filter_map (λ r, (rowId r, r))
                  (entryMissing (indexSegments segments))).
Qed.
End RewriteSync_wf.

(** *** The rows a run writes, in the words of the specification *)




Lemma Samples_records_wf : wellFormedRecords Samples.records.
Proof.
  split.
  - repeat constructor.
  - apply (bool_decide_unpack _). vm_compute. exact I.
Qed.

(** *** What becomes of one record *)

Lemma lookup_map_app {A B} (f : A → B) (l : list A) (k : list B) (i : nat)
    (x : A) :
  l !! i = Some x → (map f l ++ k) !! i = Some (f x).
Proof.
  revert i. induction l as [|y l IH]; intros [|i]; simpl; try done.
  - by intros [= ->].
  - apply IH.
Qed.

Lemma strict_ne_true (v w : JSValue) :
  w ≠ JNum NaN → v ≠ w → strict_ne v w = true.
Proof.
  intros Hw Hne. destruct (strict_ne v w) eqn:E; [done|].
  by apply strict_ne_false in E.
Qed.

Section one_record.
Context (sheetHeaders : list string) (xlfMap : JSMap.t Segment.t) (r : Row).
Context (Hvalid : validId r = true).
Local Abbreviation langs := (languageColumns sheetHeaders).



Lemma rowAfter_absent :
  JSMap.get (rowId r) xlfMap = None →
  rowAfter langs xlfMap r = deactivatedRow r ∧ absent xlfMap r = true.
Proof.
  intros Hget. destruct (rowAfter_valid sheetHeaders xlfMap r Hvalid)
    as [-> _].
  unfold absent, JSMap.has, rowId in *. by rewrite Hget.
Qed.
End one_record.

Lemma indexSegments_keys (segments : list Segment.t) (k : JSValue) :
  k ∈ JSMap.keys (indexSegments segments)
  ↔ ∃ segment, segment ∈ segments ∧ k = JStr (Segment.id segment).
Proof.
  unfold indexSegments.
  assert (∀ m : JSMap.t Segment.t,
            k ∈ JSMap.keys
                  (fold_left (λ m seg, JSMap.set (JStr (Segment.id seg)) seg m)
                             segments m)
            ↔ k ∈ JSMap.keys m
              ∨ ∃ segment, segment ∈ segments ∧ k = JStr (Segment.id segment))
    as Hgen.
  { induction segments as [|seg segments IH]; intros m; simpl.
    - split; [by left|]. intros [?|(? & ?%elem_of_nil & _)]; done.
    - rewrite IH, JSMap_keys_set. split.
      + intros [Hk|(s & Hs & ->)].
        * destruct (decide _); [by left|].
          apply elem_of_app in Hk as [?|Hk]; [by left|].
          apply list_elem_of_singleton in Hk as ->.
          right. exists seg. split; [by left|done].
        * right. exists s. split; [by right|done].
      + intros [Hk|(s & [->|Hs]%elem_of_cons & ->)].
        * left. destruct (decide _); [done|]. apply elem_of_app. by left.
        * left. destruct (decide _); [done|]. apply elem_of_app. right.
          by apply list_elem_of_singleton.
        * right. by exists s. }
  rewrite Hgen. split; [|by right]. intros [?%elem_of_nil|?]; done.
Qed.

Lemma fold_xlfAfter_nil (records : list Row) : fold_left xlfAfter records [] = [].
Proof.
  induction records as [|r records IH]; simpl; [done|].
  unfold xlfAfter at 2. by destruct (TargetedSync.invalidId _) as [[|]|].
Qed.







(** ** The claims of the specification *)

(** *** Reconciliation *)



Example second_run_sample :
  ∃ r1 r2,
    TargetedSync.syncXLFtoSheet Samples.segments Samples.records
      Samples.sheetHeaders = Ok r1
    ∧ TargetedSync.syncXLFtoSheet Samples.segments
        (TargetedSync.nextRecords Samples.records r1) Samples.sheetHeaders
      = Ok r2
    ∧ TargetedSync.result_stats r1
      = {| added := 0; updated := 1; unchanged := 1; deactivated := 1 |}
    ∧ TargetedSync.result_stats r2
      = {| added := 0; updated := 0; unchanged := 2; deactivated := 1 |}.
Proof.
  eexists _, _. split; [vm_compute; reflexivity|].
  split; [vm_compute; reflexivity|]. split; reflexivity.
Qed.


Section per_record.
Context (segments : list Segment.t) (sheetData : list Row)
        (sheetHeaders : list string).
Context (Hwf : wellFormedRecords sheetData).
Local Abbreviation xlfMap := (indexSegments segments).
Local Abbreviation langs := (languageColumns sheetHeaders).

Lemma wf_valid (r : Row) : r ∈ sheetData → validId r = true.
Proof. destruct Hwf as [Hv _]. rewrite Forall_forall in Hv. apply Hv. Qed.

(** The first revision replaces each record where it stands. *)
Lemma TargetedSync_record :
  ∃ r1, TargetedSync.syncXLFtoSheet segments sheetData sheetHeaders = Ok r1
        ∧ (∀ i r, sheetData !! i = Some r →
                  TargetedSync.nextRecords sheetData r1 !! i
                  = Some (rowAfter langs xlfMap r))
        ∧ TargetedSync.nextRecords sheetData r1
          = map (rowAfter langs xlfMap) sheetData
            ++ map (λ e, newRow langs e.2)
                   (fold_left xlfAfter sheetData xlfMap)
        ∧ updated (TargetedSync.result_stats r1)
          = length (filter (λ r, sourceChanged xlfMap r) sheetData)
        ∧ unchanged (TargetedSync.result_stats r1)
          = length (filter (λ r, sourceSame xlfMap r) sheetData)
        ∧ deactivated (TargetedSync.result_stats r1)
          = length (filter (λ r, absent xlfMap r) sheetData).
Proof.
  destruct (TargetedSync_wf_run sheetHeaders segments sheetData Hwf)
    as (r1 & Hr1 & Hnext & Hu & Hn & Hd).
  exists r1. repeat split; try done.
  intros i r Hi. rewrite Hnext. by apply lookup_map_app.
Qed.

Lemma absent_all :
  map (rowAfter langs []) sheetData = map deactivatedRow sheetData
  ∧ length (filter (λ r, absent [] r) sheetData) = length sheetData.
Proof.
  split.
  - apply map_ext_Forall, Forall_forall. intros r Hr%wf_valid.
    by destruct (rowAfter_valid sheetHeaders [] r Hr) as [-> _].
  - apply length_filter_all, Forall_forall. by intros r _.
Qed.
End per_record.

Lemma RewriteSync_no_segments (sheetData : list Row)
    (sheetHeaders : list string) :
  wellFormedRecords sheetData →
  RewriteSync.nextRecords (RewriteSync.syncXLFtoSheet [] sheetData sheetHeaders)
  = map deactivatedRow sheetData
  ∧ deactivated (RewriteSync.result_stats
                   (RewriteSync.syncXLFtoSheet [] sheetData sheetHeaders))
    = length sheetData.
Proof.
  intros Hwf. unfold RewriteSync.nextRecords.
  destruct (syncXLFtoSheet_spec sheetHeaders [] sheetData)
    as (-> & _ & _ & _ & ->).
  rewrite (indexRows_wf _ Hwf). change (indexSegments []) with (@nil (JSValue * Segment.t)).
  rewrite filter_all by (apply Forall_forall; by intros e _).
  simpl. by rewrite map_map, length_map.
Qed.

Ltac sample_records_wf :=
  split; [repeat constructor|apply (bool_decide_unpack _); vm_compute; exact I].



(** The code resets more than the translations: [category] is not among its
    base columns, and comes out empty too. *)
Example source_change_empties_category :
  ∃ r1 r',
    TargetedSync.syncXLFtoSheet Samples.segments Samples.records
      Samples.sheetHeaders = Ok r1
    ∧ TargetedSync.nextRecords Samples.records r1 !! 0 = Some r'
    ∧ get Samples.hello "category" = JStr "Greeting"
    ∧ get r' "category" = JStr "".
Proof.
  eexists _, _. split; [vm_compute; reflexivity|].
  split; [vm_compute; reflexivity|]. split; vm_compute; reflexivity.
Qed.

Example source_change_sample :
  ∃ r1,
    TargetedSync.syncXLFtoSheet Samples.segments Samples.records
      Samples.sheetHeaders = Ok r1
    ∧ TargetedSync.nextRecords Samples.records r1 !! 0
      = Some (Samples.row
                [("id", JStr "Greeting.Hello"); ("category", JStr "");
                 ("maxwidth", JStr "10"); ("size-unit", JStr "char");
                 ("English", JStr "Hi"); ("active", JBool true);
                 ("French", JStr ""); ("Spanish", JStr "")]).
Proof. eexists. split; vm_compute; reflexivity. Qed.

(** C3.  On a well-formed record set, a record whose id is absent from the
    incoming segments is replaced by itself with [active] set to [false],
    every other column as it was, and such records are the ones counted as
    deactivated; with no segment at all, the [N] records come out as the same
    [N] records with [active = false], and [deactivated = N].  Both
    revisions. *)
Theorem soft_delete_keeps_fields (segments : list Segment.t)
    (sheetData : list Row) (sheetHeaders : list string) :
  wellFormedRecords sheetData →
  (∃ r1,
     TargetedSync.syncXLFtoSheet segments sheetData sheetHeaders = Ok r1
     ∧ deactivated (TargetedSync.result_stats r1)
       = length (filter (λ r, absent (indexSegments segments) r) sheetData)
     ∧ (∀ i r,
          sheetData !! i = Some r →
          JSMap.get (rowId r) (indexSegments segments) = None →
          absent (indexSegments segments) r = true
          ∧ TargetedSync.nextRecords sheetData r1 !! i
            = Some (<["active" := JBool false]> r))
     ∧ (segments = [] →
        TargetedSync.nextRecords sheetData r1
        = map (λ r, <["active" := JBool false]> r) sheetData
        ∧ deactivated (TargetedSync.result_stats r1) = length sheetData))
  ∧ (let r1 := RewriteSync.syncXLFtoSheet segments sheetData sheetHeaders in
     deactivated (RewriteSync.result_stats r1)
     = length (filter (λ r, absent (indexSegments segments) r) sheetData)
     ∧ (∀ r,
          r ∈ sheetData →
          JSMap.get (rowId r) (indexSegments segments) = None →
          absent (indexSegments segments) r = true
          ∧ <["active" := JBool false]> r ∈ RewriteSync.nextRecords r1)
     ∧ (segments = [] →
        RewriteSync.nextRecords r1
        = map (λ r, <["active" := JBool false]> r) sheetData
        ∧ deactivated (RewriteSync.result_stats r1) = length sheetData)).
Proof.
  intros Hwf. split.
  - destruct (TargetedSync_record segments sheetData sheetHeaders Hwf)
      as (r1 & Hr1 & Hrec & Hnext & _ & _ & Hd).
    exists r1. split; [done|]. split; [done|]. split.
    + intros i r Hi Hget.
      assert (validId r = true) as Hv.
      { apply (wf_valid sheetData Hwf). by eapply list_elem_of_lookup_2. }
      destruct (rowAfter_absent sheetHeaders _ r Hv Hget) as [Hrow Hclass].
      split; [done|]. by rewrite (Hrec _ _ Hi), Hrow.
    + intros ->. rewrite Hnext, Hd.
      change (indexSegments []) with (@nil (JSValue * Segment.t)).
      rewrite fold_xlfAfter_nil.
      destruct (absent_all sheetData sheetHeaders Hwf) as [-> ->].
      simpl. by rewrite app_nil_r.
  - destruct (RewriteSync_wf_run sheetHeaders segments sheetData Hwf)
      as (Hrec & _ & _ & Hd).
    split; [done|]. split.
    + intros r Hin Hget.
      destruct (rowAfter_absent sheetHeaders _ r
                  (wf_valid sheetData Hwf r Hin) Hget) as [Hrow Hclass].
      split; [done|]. specialize (Hrec r Hin). by rewrite Hrow in Hrec.
    + intros ->. by apply RewriteSync_no_segments.
Qed.

Lemma soft_delete_keeps_fields_witness :
  wellFormedRecords Samples.records
  ∧ RewriteSync.nextRecords
      (RewriteSync.syncXLFtoSheet [] Samples.records Samples.sheetHeaders)
    = map (λ r, <["active" := JBool false]> r) Samples.records
  ∧ deactivated (RewriteSync.result_stats
                   (RewriteSync.syncXLFtoSheet [] Samples.records
                      Samples.sheetHeaders))
    = length Samples.records.
Proof.
  assert (wellFormedRecords Samples.records) as Hwf by sample_records_wf.
  split; [exact Hwf|].
  destruct (soft_delete_keeps_fields [] Samples.records Samples.sheetHeaders
              Hwf) as [_ (_ & _ & Hnone)].
  exact (Hnone eq_refl).
Defined.



(** The deactivated record of the sample comes back to life with its
    translations. *)
Example revival_sample :
  ∃ r1,
    TargetedSync.syncXLFtoSheet Samples.segments Samples.records
      Samples.sheetHeaders = Ok r1
    ∧ TargetedSync.nextRecords Samples.records r1 !! 2
      = Some (Samples.row
                [("id", JStr "Button.Save"); ("category", JStr "Button");
                 ("maxwidth", JStr "20"); ("size-unit", JStr "char");
                 ("English", JStr "Save"); ("active", JBool true);
                 ("French", JStr "Enregistrer"); ("Spanish", JStr "Guardar")])
    ∧ TargetedSync.result_stats r1
      = {| added := 0; updated := 1; unchanged := 1; deactivated := 1 |}.
Proof. eexists. split; [|split]; vm_compute; reflexivity. Qed.

(** * Further properties *)

(** ** Export *)

Lemma forallb_active_false (P : Row → bool) (sheetData : list Row) :
  forallb P (filter (λ row, Exporter.isActive row) sheetData) = false →
  Exists (λ row, Exporter.isActive row = true ∧ P row = false) sheetData.
Proof.
  induction sheetData as [|row sheetData IH]; [done|].
  rewrite filter_cons_bool.
  destruct (Exporter.isActive row) eqn:Ha; simpl.
  - destruct (P row) eqn:HP; simpl.
    + intros ?. right. by apply IH.
    + intros _. by left.
  - intros ?. right. by apply IH.
Qed.

(** X2.  What is exported fits: every [trans-unit] of a successful export
    comes from an active row, its target is a string that is not blank, and
    when the unit carries a [maxwidth] that converts to a number, the target
    is not longer than it. *)
Theorem exported_units_fit (buildObject : Exporter.Builder)
    (targetLang : string) (sheetData : list Row)
    (res : Exporter.ExportResult) :
  Exporter.exportXLF buildObject targetLang sheetData = Ok res →
  Forall (λ u,
            ∃ row s,
              row ∈ sheetData ∧ Exporter.isActive row = true
              ∧ u = Exporter.toTransUnit targetLang row
              ∧ Exporter.unit_target u = JStr s ∧ trim s ≠ ""
              ∧ (truthy (Exporter.unit_maxwidth u) = true →
                 isNaN (Number (Exporter.unit_maxwidth u)) = false →
                 length_gt (String.length s)
                           (Number (Exporter.unit_maxwidth u)) = false))
         (Exporter.xlf_trans_units res).
Proof.
  intros (_ & -> & _)%exportXLF_Ok. apply Forall_forall. intros u Hu.
  apply list_elem_of_In, in_map_iff in Hu as (row & <- & Hrow).
  apply list_elem_of_In, list_elem_of_filter in Hrow as [Hkeep Hin].
  apply andb_prop_elim in Hkeep as [Ha Hkeep].
  apply andb_prop_elim in Hkeep as [Ht Hfit].
  unfold isTranslated in Ht. simpl.
  destruct (get row targetLang) as [| |?|?|s] eqn:Hcell; try done.
  exists row, s. split; [done|]. split; [by destruct (Exporter.isActive row)|].
  split; [done|]. split; [done|]. split.
  { intros Hs. by rewrite Hs in Ht. }
  unfold or_else. destruct (truthy (get row "maxwidth")) eqn:Hmw; [|done].
  intros _ Hnan. unfold exceedsMaxwidth in Hfit.
  rewrite Hmw, Hnan, Hcell in Hfit. simpl in Hfit.
  by destruct (length_gt _ _).
Qed.

Lemma exported_units_fit_witness :
  ∃ res, Exporter.exportXLF Samples.buildObject "Spanish"
           [Samples.hello; Samples.holaMundo]
         = Ok res
         ∧ Forall (λ u,
              ∃ row s,
                row ∈ [Samples.hello; Samples.holaMundo]
                ∧ Exporter.isActive row = true
                ∧ u = Exporter.toTransUnit "Spanish" row
                ∧ Exporter.unit_target u = JStr s ∧ trim s ≠ ""
                ∧ (truthy (Exporter.unit_maxwidth u) = true →
                   isNaN (Number (Exporter.unit_maxwidth u)) = false →
                   length_gt (String.length s)
                             (Number (Exporter.unit_maxwidth u)) = false))
             (Exporter.xlf_trans_units res).
Proof.
  eexists. split; [vm_compute; reflexivity|].
  apply (exported_units_fit Samples.buildObject "Spanish"
           [Samples.hello; Samples.holaMundo]).
  vm_compute. reflexivity.
Defined.

Lemma length_filter_split {A} (P Q : A → bool) (l : list A) :
  length (filter (λ x, P x && negb (Q x)) l)
  + length (filter (λ x, P x && Q x) l)
  = length (filter (λ x, P x) l).
Proof.
  induction l as [|x l IH]; [done|].
  rewrite !length_filter_bool, <- IH. destruct (P x), (Q x); simpl; lia.
Qed.

(** X3.  Every active row with a translation is accounted for once: it is
    either exported or reported as a violation. *)
Theorem exportXLF_accounts_for_rows (buildObject : Exporter.Builder)
    (targetLang : string) (sheetData : list Row)
    (res : Exporter.ExportResult) :
  Exporter.exportXLF buildObject targetLang sheetData = Ok res →
  length (Exporter.xlf_trans_units res) + length (Exporter.maxwidthErrors res)
  = length (filter (λ row, Exporter.isActive row
                           && isTranslated targetLang row) sheetData).
Proof.
  intros (_ & -> & -> & _)%exportXLF_Ok. rewrite !length_map.
  rewrite <- (length_filter_split
                (λ row, Exporter.isActive row && isTranslated targetLang row)
                (exceedsMaxwidth targetLang)).
  f_equal; apply length_filter_ext, Forall_forall; intros row _;
    by rewrite andb_assoc.
Qed.

Lemma exportXLF_accounts_for_rows_witness :
  ∃ res, Exporter.exportXLF Samples.buildObject "Spanish" Samples.records
         = Ok res
         ∧ length (Exporter.xlf_trans_units res)
           + length (Exporter.maxwidthErrors res)
           = length (filter (λ row, Exporter.isActive row
                                    && isTranslated "Spanish" row)
                            Samples.records).
Proof.
  eexists. split; [vm_compute; reflexivity|].
  apply (exportXLF_accounts_for_rows Samples.buildObject "Spanish"
           Samples.records).
  vm_compute. reflexivity.
Defined.

(** X1.  [exportXLF] returns or throws according to three things only.  It
    throws when [LANGUAGES[targetLang]] is undefined; when an active row
    holds, in the column of the language, something that is neither a
    string nor falsy (a truthy value of another type, or a member that the
    row inherits), so that [.trim] is not a function; and when the builder
    refuses the structure made of the code and the units of the rows that
    are exported.  Otherwise it returns what the builder made, whatever the
    rows hold elsewhere and however many violations there are. *)
Theorem exportXLF_outcome (buildObject : Exporter.Builder)
    (targetLang : string) (sheetData : list Row) :
  match Exporter.exportXLF buildObject targetLang sheetData with
  | Ok res =>
      LANGUAGES_get targetLang = Some (Exporter.xlf_target_language res)
      ∧ Forall (λ row, Exporter.isActive row = true →
                       textCell targetLang row = true) sheetData
      ∧ buildObject (Exporter.xlf_target_language res)
                    (Exporter.xlf_trans_units res)
        = Exporter.Xml (Exporter.xlf res)
  | Err e =>
      (LANGUAGES_get targetLang = None ∧ e = UnknownTargetLanguage targetLang)
      ∨ (LANGUAGES_get targetLang ≠ None
         ∧ e = TypeError "row[targetLang].trim is not a function"
         ∧ Exists (λ row, Exporter.isActive row = true
                          ∧ textCell targetLang row = false) sheetData)
      ∨ (∃ code message,
           LANGUAGES_get targetLang = Some code
           ∧ Forall (λ row, Exporter.isActive row = true →
                            textCell targetLang row = true) sheetData
           ∧ buildObject code
               (map (Exporter.toTransUnit targetLang)
                  (filter (λ row, Exporter.isActive row
                                  && (isTranslated targetLang row
                                      && negb (exceedsMaxwidth targetLang row)))
                          sheetData))
             = Exporter.Throws message
           ∧ e = BuilderError message)
  end.
Proof.
  rewrite exportXLF_spec.
  destruct (LANGUAGES_get targetLang) as [code|]; [|by left].
  destruct (forallb _ _) eqn:Hcells.
  - apply forallb_active in Hcells. cbv zeta.
    destruct (buildObject code _) as [xmlString|message] eqn:Hbuilt.
    + simpl. done.
    + right. right. by exists code, message.
  - right. left. split; [done|]. split; [done|].
    by apply forallb_active_false.
Qed.

(** X4.  The export works row by row: exporting two tables one after the
    other hands the builder the units of the two exports laid end to end,
    and, when the builder accepts them, returns them with the violations of
    the two exports laid end to end. *)
Theorem exportXLF_app (buildObject : Exporter.Builder) (targetLang : string)
    (data1 data2 : list Row) (res1 res2 : Exporter.ExportResult) :
  Exporter.exportXLF buildObject targetLang data1 = Ok res1 →
  Exporter.exportXLF buildObject targetLang data2 = Ok res2 →
  Exporter.exportXLF buildObject targetLang (data1 ++ data2)
  = match buildObject (Exporter.xlf_target_language res1)
            (Exporter.xlf_trans_units res1 ++ Exporter.xlf_trans_units res2)
    with
    | Exporter.Xml xmlString =>
        Ok {| Exporter.xlf := xmlString;
              Exporter.xlf_target_language :=
                Exporter.xlf_target_language res1;
              Exporter.xlf_trans_units :=
                Exporter.xlf_trans_units res1 ++ Exporter.xlf_trans_units res2;
              Exporter.maxwidthErrors :=
                Exporter.maxwidthErrors res1 ++ Exporter.maxwidthErrors res2 |}
    | Exporter.Throws message => Err (BuilderError message)
    end.
Proof.
  intros (Hcode & -> & -> & _ & Hc1)%exportXLF_Ok
         (_ & -> & -> & _ & Hc2)%exportXLF_Ok.
  rewrite exportXLF_spec, Hcode.
  assert (forallb (textCell targetLang)
            (filter (λ row, Exporter.isActive row) (data1 ++ data2)) = true)
    as -> by (apply forallb_active; by apply Forall_app).
  cbv zeta. unfold violating. by rewrite !filter_app, !map_app.
Qed.

Lemma exportXLF_app_witness :
  ∃ res1 res2,
    Exporter.exportXLF Samples.buildObject "Spanish" [Samples.hello] = Ok res1
    ∧ Exporter.exportXLF Samples.buildObject "Spanish" [Samples.holaMundo]
      = Ok res2
    ∧ Exporter.exportXLF Samples.buildObject "Spanish"
        ([Samples.hello] ++ [Samples.holaMundo])
      = Ok {| Exporter.xlf := "es;Hola";
              Exporter.xlf_target_language := Code "es";
              Exporter.xlf_trans_units :=
                Exporter.xlf_trans_units res1 ++ Exporter.xlf_trans_units res2;
              Exporter.maxwidthErrors :=
                Exporter.maxwidthErrors res1 ++ Exporter.maxwidthErrors res2 |}.
Proof.
  destruct (Exporter.exportXLF Samples.buildObject "Spanish" [Samples.hello])
    as [res1|e] eqn:H1; [|vm_compute in H1; discriminate].
  destruct (Exporter.exportXLF Samples.buildObject "Spanish"
              [Samples.holaMundo])
    as [res2|e] eqn:H2; [|vm_compute in H2; discriminate].
  exists res1, res2. split; [done|]. split; [done|].
  rewrite (exportXLF_app Samples.buildObject "Spanish" [Samples.hello]
             [Samples.holaMundo] res1 res2 H1 H2).
  vm_compute in H1. vm_compute in H2.
  injection H1 as <-. injection H2 as <-. reflexivity.
Defined.

(** ** Languages and [generateXLF] *)

Lemma assoc_Some {V} (k : string) (o : list (string * V)) :
  k ∈ Object_keys o ↔ ∃ v, assoc k o = Some v.
Proof.
  unfold Object_keys. induction o as [|[k' v'] o IH]; simpl.
  - split; [by intros ?%elem_of_nil|by intros [? ?]].
  - rewrite elem_of_cons, IH.
    destruct (String.eqb_spec k k') as [->|Hne].
    + split; [eauto|by left].
    + split; [by intros [?|?]|by right].
Qed.

Lemma assoc_elem_of {V} (k : string) (v : V) (o : list (string * V)) :
  assoc k o = Some v → (k, v) ∈ o.
Proof.
  induction o as [|[k' v'] o IH]; simpl; [done|].
  destruct (String.eqb_spec k k') as [->|Hne].
  - intros [= ->]. by left.
  - intros ?. right. by apply IH.
Qed.

Lemma available_configured (sheetHeaders : list string) (lang : string) :
  lang ∈ Exporter.getAvailableLanguages (Some sheetHeaders) →
  ∃ code, (lang, code) ∈ LANGUAGES ∧ LANGUAGES_get lang = Some (Code code).
Proof.
  unfold Exporter.getAvailableLanguages.
  intros [_ Hkey]%list_elem_of_filter.
  apply assoc_Some in Hkey as [code Hcode]. exists code.
  split; [by apply assoc_elem_of|]. unfold LANGUAGES_get. by rewrite Hcode.
Qed.

(** X5.  Every language [getAvailableLanguages] offers has a code:
    [getLanguageCode] returns the code configured for it, never [null], and
    [exportXLF] does not reject it as unknown. *)
Theorem available_languages_have_codes (buildObject : Exporter.Builder)
    (sheetHeaders : list string) (sheetData : list Row) (lang : string) :
  lang ∈ Exporter.getAvailableLanguages (Some sheetHeaders) →
  (∃ code, (lang, code) ∈ LANGUAGES ∧ getLanguageCode lang = Some (Code code))
  ∧ Exporter.exportXLF buildObject lang sheetData
    ≠ Err (UnknownTargetLanguage lang).
Proof.
  intros (code & Hin & Hget)%available_configured. split.
  - exists code. split; [done|]. unfold getLanguageCode. by rewrite Hget.
  - rewrite exportXLF_spec, Hget. destruct (forallb _ _); [|done].
    cbv zeta. by destruct (buildObject _ _).
Qed.

Lemma available_languages_have_codes_witness :
  (∃ code, ("French", code) ∈ LANGUAGES
           ∧ getLanguageCode "French" = Some (Code code))
  ∧ Exporter.exportXLF Samples.buildObject "French" Samples.records
    ≠ Err (UnknownTargetLanguage "French").
Proof.
  apply (available_languages_have_codes Samples.buildObject
           Samples.sheetHeaders).
  apply (bool_decide_unpack _). vm_compute. exact I.
Defined.

(** X6.  [generateXLF] rejects a language exactly when it is not both
    configured and a column of the sheet; past that check the export is
    never refused for an unknown language, so the failures left are a cell
    of the language that is not a string and a structure that the builder
    refuses.  On success it hands back the result of [exportXLF], and
    [segmentCount] is the number of sheet rows, which the number of
    exported units never exceeds. *)
Theorem generateXLF_outcome (buildObject : Exporter.Builder)
    (targetLanguage : string) (sheetData : list Row)
    (sheetHeaders : list string) :
  match Main.generateXLF buildObject targetLanguage sheetData sheetHeaders with
  | Main.Failure (Main.InvalidLanguage lang available) =>
      lang = targetLanguage
      ∧ available = Exporter.getAvailableLanguages (Some sheetHeaders)
      ∧ ¬ (targetLanguage ∈ Object_keys LANGUAGES
           ∧ targetLanguage ∈ sheetHeaders)
  | Main.Failure (Main.FailedToExport e) =>
      targetLanguage ∈ Object_keys LANGUAGES ∧ targetLanguage ∈ sheetHeaders
      ∧ ((e = TypeError "row[targetLang].trim is not a function"
          ∧ Exists (λ row, Exporter.isActive row = true
                           ∧ textCell targetLanguage row = false) sheetData)
         ∨ (∃ code message,
              LANGUAGES_get targetLanguage = Some code
              ∧ buildObject code
                  (map (Exporter.toTransUnit targetLanguage)
                     (filter (λ row, Exporter.isActive row
                                     && (isTranslated targetLanguage row
                                         && negb (exceedsMaxwidth
                                                    targetLanguage row)))
                             sheetData))
                = Exporter.Throws message
              ∧ e = BuilderError message))
  | Main.Success result =>
      targetLanguage ∈ Object_keys LANGUAGES ∧ targetLanguage ∈ sheetHeaders
      ∧ Exporter.exportXLF buildObject targetLanguage sheetData
        = Ok (Main.xlfContent result)
      ∧ Main.language result = targetLanguage
      ∧ Main.segmentCount result = length sheetData
      ∧ length (Exporter.xlf_trans_units (Main.xlfContent result))
        ≤ Main.segmentCount result
  end.
Proof.
  unfold Main.generateXLF.
  assert (targetLanguage ∈ Exporter.getAvailableLanguages (Some sheetHeaders)
          ↔ targetLanguage ∈ Object_keys LANGUAGES
            ∧ targetLanguage ∈ sheetHeaders) as Havail.
  { unfold Exporter.getAvailableLanguages. rewrite list_elem_of_filter. tauto. }
  case_bool_decide as Hin; simpl.
  - destruct (available_configured _ _ Hin) as (code & _ & Hcode).
    apply Havail in Hin as [? ?].
    rewrite exportXLF_spec, Hcode. destruct (forallb _ _) eqn:Hcells.
    + cbv zeta. destruct (buildObject _ _) as [xmlString|message] eqn:Hbuilt.
      * simpl. repeat split; try done.
        rewrite length_map. apply length_filter.
      * split; [done|]. split; [done|]. right. by exists (Code code), message.
    + split; [done|]. split; [done|]. left. split; [done|].
      by apply forallb_active_false.
  - repeat split. by rewrite <- Havail.
Qed.

(** ** Synchronisation, first revision *)

Section TargetedSync_more.
Import TargetedSync.
Context (sheetHeaders : list string).
Local Abbreviation langs := (languageColumns sheetHeaders).

Lemma invalidId_Err (id : JSValue) (e : Error) :
  invalidId id = Err e ↔
  e = TypeError "row.id.trim is not a function"
  ∧ truthy id = true ∧ is_string id = false.
Proof.
  unfold invalidId. destruct id as [| |[]|[]|s]; simpl;
    try (split; [congruence|intros (_ & ? & ?); congruence]);
    try (split; [intros [= <-]; done|by intros (-> & _ & _)]).
  destruct (negb (negb (s =? "")%string));
    (split; [congruence|intros (_ & ? & ?); congruence]).
Qed.

Lemma processRow_Err (i : nat) (r : Row) (st : LoopState) (e : Error) :
  processRow langs i r st = Err e ↔ invalidId (get r "id") = Err e.
Proof.
  unfold processRow. destruct (invalidId (get r "id")) as [[|]|e']; simpl;
    [split; congruence| |split; congruence].
  destruct (JSMap.get _ _); [|split; congruence].
  destruct (if _ : bool then _ else _). split; congruence.
Qed.

Lemma processRows_Err (records : list Row) :
  ∀ i st e,
    processRows langs i records st = Err e ↔
    e = TypeError "row.id.trim is not a function"
    ∧ Exists (λ r, truthy (rowId r) = true ∧ is_string (rowId r) = false)
             records.
Proof.
  induction records as [|r records IH]; intros i st e; simpl.
  - split; [done|]. intros [_ H]. by apply Exists_nil in H.
  - rewrite Exists_cons.
    destruct (processRow langs i r st) as [st1|e1] eqn:Hrow; simpl.
    + rewrite IH. split; [intros [-> ?]; eauto|].
      intros [-> [[Ht Hs]|?]]; [|done].
      assert (processRow langs i r st
              = Err (TypeError "row.id.trim is not a function")) as Habs.
      { apply processRow_Err, invalidId_Err. done. }
      congruence.
    + apply processRow_Err, invalidId_Err in Hrow as (-> & Ht & Hs).
      split; [intros [= <-]; eauto|by intros [-> _]].
Qed.

Lemma syncXLFtoSheet_Err (segments : list Segment.t) (sheetData : list Row)
    (e : Error) :
  syncXLFtoSheet segments sheetData sheetHeaders = Err e ↔
  e = TypeError "row.id.trim is not a function"
  ∧ Exists (λ r, truthy (rowId r) = true ∧ is_string (rowId r) = false)
           sheetData.
Proof.
  unfold syncXLFtoSheet.
  destruct (processRows _ _ _ _) as [st|e'] eqn:Hrun; simpl.
  - destruct (addNew _ _ _ _). split; [done|]. intros Hbad.
    apply (processRows_Err sheetData 0
             {| xlfMap := indexSegments segments; rowsToUpdate := [];
                stats := stats0 |}) in Hbad. congruence.
  - apply processRows_Err in Hrun as Hbad. destruct Hbad as [-> Hbad].
    split; [by intros [= <-]|by intros [-> _]].
Qed.

Lemma rowAfter_id (m : JSMap.t Segment.t) (r : Row) :
  rowId (rowAfter langs m r) = rowId r.
Proof.
  unfold rowAfter, rowId. destruct (invalidId _) as [[|]|]; try done.
  destruct (JSMap.get _ _); [|apply deactivatedRow_id].
  destruct (strict_ne _ _); [apply sourceChangedRow_id|apply metadataRow_id].
Qed.

Lemma rowsAfter_lookup (records : list Row) :
  ∀ m i r, records !! i = Some r →
           ∃ m', rowsAfter langs m records !! i = Some (rowAfter langs m' r).
Proof.
  induction records as [|r0 records IH]; intros m [|i] r; simpl; try done.
  - intros [= ->]. eauto.
  - apply IH.
Qed.

Lemma length_rowsAfter (records : list Row) :
  ∀ m, length (rowsAfter langs m records) = length records.
Proof. induction records as [|r records IH]; intros m; simpl; by rewrite ?IH. Qed.
End TargetedSync_more.

(** X7.  The first revision fails only on a row whose [id] cell is truthy
    but not a string ([row.id.trim] is not a function); on every other
    sheet, whatever the segments, it completes. *)
Theorem TargetedSync_outcome (segments : list Segment.t)
    (sheetData : list Row) (sheetHeaders : list string) :
  match TargetedSync.syncXLFtoSheet segments sheetData sheetHeaders with
  | Ok r1 =>
      Forall (λ r, truthy (rowId r) → is_string (rowId r)) sheetData
      ∧ TargetedSync.totalSegments r1 = length segments
  | Err e =>
      e = TypeError "row.id.trim is not a function"
      ∧ Exists (λ r, truthy (rowId r) = true ∧ is_string (rowId r) = false)
               sheetData
  end.
Proof.
  destruct (TargetedSync.syncXLFtoSheet segments sheetData sheetHeaders)
    as [r1|e] eqn:Hrun.
  - split.
    + apply Forall_forall. intros r Hin Ht.
      destruct (is_string (rowId r)) eqn:Hs; [done|].
      assert (TargetedSync.syncXLFtoSheet segments sheetData sheetHeaders
              = Err (TypeError "row.id.trim is not a function")) as Habs.
      { apply syncXLFtoSheet_Err. split; [done|]. apply Exists_exists.
        exists r. split; [done|]. split; [by destruct (truthy _)|done]. }
      congruence.
    + revert Hrun. unfold TargetedSync.syncXLFtoSheet.
      destruct (TargetedSync.processRows _ _ _ _); simpl; [|done].
      destruct (TargetedSync.addNew _ _ _ _). by intros [= <-].
  - by apply syncXLFtoSheet_Err in Hrun.
Qed.

(** X8.  The first revision never removes or moves a record: after a run
    the sheet holds the records it held, each in its place and under its
    id, followed by one new record for each segment counted as added. *)
Theorem TargetedSync_keeps_records (segments : list Segment.t)
    (sheetData : list Row) (sheetHeaders : list string)
    (r1 : TargetedSync.SyncResult) :
  TargetedSync.syncXLFtoSheet segments sheetData sheetHeaders = Ok r1 →
  length (TargetedSync.nextRecords sheetData r1)
  = length sheetData + added (TargetedSync.result_stats r1)
  ∧ (∀ i r, sheetData !! i = Some r →
            ∃ r', TargetedSync.nextRecords sheetData r1 !! i = Some r'
                  ∧ rowId r' = rowId r)
  ∧ drop (length sheetData) (TargetedSync.nextRecords sheetData r1)
    = TargetedSync.appendRows r1.
Proof.
  intros Hrun. pose proof (nextRecords_spec sheetHeaders _ _ _ Hrun) as Hnext.
  assert (TargetedSync.appendRows r1
          = map (λ e, newRow (languageColumns sheetHeaders) e.2)
                (fold_left xlfAfter sheetData (indexSegments segments))
          ∧ added (TargetedSync.result_stats r1)
            = length (fold_left xlfAfter sheetData (indexSegments segments)))
    as [Happ Hadded].
  { revert Hrun. unfold TargetedSync.syncXLFtoSheet.
    destruct (TargetedSync.processRows _ _ _ _) as [st|e] eqn:Hpass; simpl;
      [|done].
    destruct (processRows_rerun sheetHeaders sheetData 0 0 _ _ _ Hpass
                eq_refl) as (_ & _ & _ & _ & Ha0 & _).
    apply processRows_spec in Hpass as [Hx _]. simpl in Hx, Ha0.
    pose proof (addNew_spec sheetHeaders (TargetedSync.xlfMap st) []
                  (TargetedSync.stats st)) as (Hrows & Ha & _).
    destruct (TargetedSync.addNew _ _ _ _). simpl in *.
    intros [= <-]. simpl. by rewrite Hrows, Ha, Hx, Ha0. }
  rewrite Hnext. split; [|split].
  - by rewrite length_app, length_rowsAfter, length_map, Hadded.
  - intros i r Hi.
    destruct (rowsAfter_lookup sheetHeaders sheetData
                (indexSegments segments) i r Hi) as [m' Hm'].
    exists (rowAfter (languageColumns sheetHeaders) m' r).
    split; [|apply rowAfter_id].
    rewrite lookup_app_l; [done|].
    rewrite length_rowsAfter. by eapply lookup_lt_Some.
  - rewrite Happ. rewrite <- (length_rowsAfter sheetHeaders sheetData
                               (indexSegments segments)).
    by rewrite drop_app_length.
Qed.

Lemma TargetedSync_keeps_records_witness :
  ∃ r1,
    TargetedSync.syncXLFtoSheet Samples.segments Samples.records
      Samples.sheetHeaders = Ok r1
    ∧ length (TargetedSync.nextRecords Samples.records r1)
      = length Samples.records + added (TargetedSync.result_stats r1)
    ∧ (∀ i r, Samples.records !! i = Some r →
              ∃ r', TargetedSync.nextRecords Samples.records r1 !! i = Some r'
                    ∧ rowId r' = rowId r)
    ∧ drop (length Samples.records)
           (TargetedSync.nextRecords Samples.records r1)
      = TargetedSync.appendRows r1.
Proof.
  eexists. split; [vm_compute; reflexivity|].
  apply (TargetedSync_keeps_records Samples.segments Samples.records
           Samples.sheetHeaders).
  vm_compute. reflexivity.
Defined.

Section TargetedSync_updates.
Import TargetedSync.
Context (sheetHeaders : list string).
Local Abbreviation langs := (languageColumns sheetHeaders).

Lemma strict_ne_differs (v w : JSValue) :
  w ≠ JNum NaN → strict_ne v w = true → v ≠ w.
Proof.
  intros Hw Hne ->. assert (strict_ne w w = false) as Habs; [|congruence].
  by apply strict_ne_false.
Qed.

(** What one iteration queues: nothing, or one update of the row at hand
    that changes it and keeps its id. *)
Lemma processRow_update (i : nat) (r : Row) (st st' : LoopState) :
  processRow langs i r st = Ok st' →
  rowsToUpdate st' = rowsToUpdate st
  ∨ ∃ d, rowsToUpdate st' = rowsToUpdate st ++ [ {| row := i + 2; data := d |} ]
         ∧ d ≠ r ∧ rowId d = rowId r.
Proof.
  unfold processRow.
  destruct (invalidId (get r "id")) as [[|]|e]; simpl; [| |done].
  { intros [= <-]. by left. }
  destruct (JSMap.get (get r "id") (xlfMap st)) as [segment|].
  - destruct (strict_ne (get r "English") (JStr (Segment.source segment)))
      eqn:Hsrc; simpl.
    + intros [= <-]. right. eexists. split; [done|]. split.
      * intros Heq. apply strict_ne_differs in Hsrc; [|done]. apply Hsrc.
        by rewrite <- Heq, sourceChangedRow_English.
      * apply sourceChangedRow_id.
    + destruct (strict_ne (get r "active") (JBool true)) eqn:Hact; simpl.
      { intros [= <-]. right. eexists. split; [done|]. split.
        - intros Heq. apply strict_ne_differs in Hact; [|done]. apply Hact.
          by rewrite <- Heq, metadataRow_active.
        - apply metadataRow_id. }
      destruct (strict_ne (get r "maxwidth") (JStr (Segment.maxwidth segment)))
        eqn:Hmw; simpl.
      { intros [= <-]. right. eexists. split; [done|]. split.
        - intros Heq. apply strict_ne_differs in Hmw; [|done]. apply Hmw.
          by rewrite <- Heq, metadataRow_maxwidth.
        - apply metadataRow_id. }
      destruct (strict_ne (get r "size-unit") (JStr (Segment.sizeUnit segment)))
        eqn:Hsz; simpl.
      { intros [= <-]. right. eexists. split; [done|]. split.
        - intros Heq. apply strict_ne_differs in Hsz; [|done]. apply Hsz.
          by rewrite <- Heq, metadataRow_size_unit.
        - apply metadataRow_id. }
      intros [= <-]. by left.
  - intros [= <-]. simpl.
    destruct (strict_ne (get r "active") (JBool false)) eqn:Hact; [|by left].
    right. eexists. split; [done|]. split.
    + intros Heq. apply strict_ne_differs in Hact; [|done]. apply Hact.
      by rewrite <- Heq, deactivatedRow_active.
    + apply deactivatedRow_id.
Qed.

Lemma processRows_updates (records : list Row) :
  ∀ i st st',
    processRows langs i records st = Ok st' →
    ∃ new, rowsToUpdate st' = rowsToUpdate st ++ new
           ∧ Sorted.StronglySorted lt (map row new)
           ∧ Forall (λ u, ∃ j r, records !! j = Some r ∧ row u = i + j + 2
                                 ∧ data u ≠ r ∧ rowId (data u) = rowId r) new.
Proof.
  induction records as [|r records IH]; intros i st st'; simpl.
  - intros [= <-]. exists []. rewrite app_nil_r. repeat split; constructor.
  - destruct (processRow langs i r st) as [st1|e] eqn:Hrow; simpl; [|done].
    intros Hrest. apply IH in Hrest as (new & Hups & Hsorted & Hall).
    assert (Forall (λ u, ∃ j r0, (r :: records) !! j = Some r0
                                 ∧ row u = i + j + 2 ∧ data u ≠ r0
                                 ∧ rowId (data u) = rowId r0) new) as Hall'.
    { eapply Forall_impl; [exact Hall|]. intros u (j & r0 & Hj & Hr & Hd).
      exists (S j), r0. split; [done|]. split; [lia|done]. }
    apply processRow_update in Hrow as [Hsame|(d & Hone & Hd & Hid)].
    + exists new. rewrite Hups, Hsame. done.
    + exists ({| row := i + 2; data := d |} :: new).
      rewrite Hups, Hone, <- app_assoc. split; [done|]. split.
      * simpl. constructor; [done|]. apply Forall_fmap.
        eapply Forall_impl; [exact Hall|]. intros u (j & _ & _ & Hr & _).
        simpl. lia.
      * constructor; [|done]. exists 0, r. simpl.
        split; [done|]. split; [lia|done].
Qed.
End TargetedSync_updates.

(** X9.  The first revision writes only rows that change, each at most
    once and in place: the queued updates have strictly increasing row
    numbers, each is the sheet row of an existing record (row [i + 2] for
    record [i]), carries that record's id, and differs from the record it
    replaces. *)
Theorem TargetedSync_updates_in_place (segments : list Segment.t)
    (sheetData : list Row) (sheetHeaders : list string)
    (r1 : TargetedSync.SyncResult) :
  TargetedSync.syncXLFtoSheet segments sheetData sheetHeaders = Ok r1 →
  Sorted.StronglySorted lt (map TargetedSync.row (TargetedSync.updateRows r1))
  ∧ Forall (λ u, ∃ r, 2 ≤ TargetedSync.row u
                      ∧ sheetData !! (TargetedSync.row u - 2) = Some r
                      ∧ TargetedSync.data u ≠ r
                      ∧ rowId (TargetedSync.data u) = rowId r)
           (TargetedSync.updateRows r1).
Proof.
  unfold TargetedSync.syncXLFtoSheet.
  destruct (TargetedSync.processRows _ _ _ _) as [st|e] eqn:Hpass; simpl;
    [|done].
  apply processRows_updates in Hpass as (new & Hups & Hsorted & Hall).
  destruct (TargetedSync.addNew _ _ _ _). intros [= <-]. simpl in *.
  rewrite Hups. split; [done|].
  eapply Forall_impl; [exact Hall|]. intros u (j & r & Hj & Hr & Hd & Hid).
  exists r. assert (TargetedSync.row u - 2 = j) as -> by lia.
  split; [lia|done].
Qed.

Lemma TargetedSync_updates_in_place_witness :
  ∃ r1,
    TargetedSync.syncXLFtoSheet Samples.segments Samples.records
      Samples.sheetHeaders = Ok r1
    ∧ map TargetedSync.row (TargetedSync.updateRows r1) = [2; 3; 4]
    ∧ Sorted.StronglySorted lt (map TargetedSync.row (TargetedSync.updateRows r1))
    ∧ Forall (λ u, ∃ r, 2 ≤ TargetedSync.row u
                        ∧ Samples.records !! (TargetedSync.row u - 2) = Some r
                        ∧ TargetedSync.data u ≠ r
                        ∧ rowId (TargetedSync.data u) = rowId r)
             (TargetedSync.updateRows r1).
Proof.
  eexists. split; [vm_compute; reflexivity|]. split; [reflexivity|].
  apply (TargetedSync_updates_in_place Samples.segments Samples.records
           Samples.sheetHeaders).
  vm_compute. reflexivity.
Defined.

Section TargetedSync_accounts.
Import TargetedSync.
Context (sheetHeaders : list string).
Local Abbreviation langs := (languageColumns sheetHeaders).

Lemma validId_false (r : Row) :
  validId r = false → invalidId (get r "id") ≠ Ok false.
Proof.
  unfold validId. intros Hv (s & Hs & Ht)%invalidId_valid.
  rewrite Hs in Hv. by destruct (String.eqb_spec (trim s) "").
Qed.

Lemma JSMap_length_delete {V} (k : JSValue) (v : V) (m : JSMap.t V) :
  JSMap.get k m = Some v → S (length (JSMap.delete k m)) = length m.
Proof.
  induction m as [|[k0 v0] m IH]; simpl; [done|].
  destruct (decide (k0 = k)); [done|]. intros Hget. simpl. by rewrite IH.
Qed.

Lemma JSMap_length_set {V} (k : JSValue) (v : V) (m : JSMap.t V) :
  length (JSMap.set k v m) ≤ S (length m).
Proof.
  induction m as [|[k0 v0] m IH]; simpl; [lia|].
  destruct (decide (k0 = k)); simpl; lia.
Qed.

Lemma length_indexSegments (segments : list Segment.t) :
  length (indexSegments segments) ≤ length segments.
Proof.
  unfold indexSegments.
  assert (∀ m : JSMap.t Segment.t,
            length (fold_left (λ m seg, JSMap.set (JStr (Segment.id seg)) seg m)
                              segments m)
            ≤ length m + length segments) as Hfold.
  { induction segments as [|seg segments IH]; intros m; simpl; [lia|].
    specialize (IH (JSMap.set (JStr (Segment.id seg)) seg m)).
    pose proof (JSMap_length_set (JStr (Segment.id seg)) seg m). lia. }
  apply (Hfold []).
Qed.

(** One iteration moves a segment from the map to [updated] or
    [unchanged], or counts the record as [deactivated]; a record without
    a usable id is not counted at all. *)
Lemma processRow_account (i : nat) (r : Row) (st st' : LoopState) :
  processRow langs i r st = Ok st' →
  added (stats st') = added (stats st)
  ∧ length (xlfMap st') + updated (stats st') + unchanged (stats st')
    = length (xlfMap st) + updated (stats st) + unchanged (stats st)
  ∧ updated (stats st') + unchanged (stats st') + deactivated (stats st')
    = updated (stats st) + unchanged (stats st) + deactivated (stats st)
      + (if validId r then 1 else 0)
  ∧ length (rowsToUpdate st')
    ≤ length (rowsToUpdate st) + (if validId r then 1 else 0).
Proof.
  unfold processRow. destruct (validId r) eqn:Hv.
  - rewrite (validId_invalidId r Hv). simpl.
    destruct (JSMap.get (get r "id") (xlfMap st)) as [segment|] eqn:Hget.
    + apply JSMap_length_delete in Hget.
      destruct (strict_ne (get r "English") (JStr (Segment.source segment)));
        simpl.
      * intros [= <-]. simpl. rewrite length_app. simpl. repeat split; lia.
      * destruct (_ || _ || _); simpl; intros [= <-]; simpl;
          rewrite ?length_app; simpl; repeat split; lia.
    + intros [= <-]. simpl.
      destruct (strict_ne (get r "active") (JBool false));
        rewrite ?length_app; simpl; repeat split; lia.
  - apply validId_false in Hv.
    destruct (invalidId (get r "id")) as [[|]|e]; simpl; [|done..].
    intros [= <-]. repeat split; lia.
Qed.

Lemma processRows_account (records : list Row) :
  ∀ i st st',
    processRows langs i records st = Ok st' →
    added (stats st') = added (stats st)
    ∧ length (xlfMap st') + updated (stats st') + unchanged (stats st')
      = length (xlfMap st) + updated (stats st) + unchanged (stats st)
    ∧ updated (stats st') + unchanged (stats st') + deactivated (stats st')
      = updated (stats st) + unchanged (stats st) + deactivated (stats st)
        + length (filter (λ r, validId r) records)
    ∧ length (rowsToUpdate st')
      ≤ length (rowsToUpdate st) + length (filter (λ r, validId r) records).
Proof.
  induction records as [|r records IH]; intros i st st'; cbn [processRows].
  - intros [= <-]. simpl. repeat split; lia.
  - destruct (processRow langs i r st) as [st1|e] eqn:Hrow; simpl; [|done].
    intros Hrest. apply processRow_account in Hrow as (? & ? & ? & ?).
    apply IH in Hrest as (? & ? & ? & ?). rewrite length_filter_bool.
    repeat split; lia.
Qed.

Lemma JSMap_delete_filter {V} (k : JSValue) (m : JSMap.t V) :
  NoDup (JSMap.keys m) → JSMap.delete k m = filter (λ e, e.1 ≠ k) m.
Proof.
  induction m as [|[k0 v0] m IH]; [done|].
  change (JSMap.keys ((k0, v0) :: m)) with (k0 :: JSMap.keys m).
  intros [Hk Hnd]%NoDup_cons. simpl JSMap.delete.
  destruct (decide (k0 = k)) as [->|Hne].
  - rewrite filter_cons_False by (simpl; intros Hne; by apply Hne).
    rewrite <- IH by done. symmetry. by apply JSMap_delete_absent, JSMap_get_None.
  - rewrite filter_cons_True by done. by rewrite IH.
Qed.

Lemma JSMap_filter_NoDup {V} (P : JSValue * V → Prop)
    `{!∀ e, Decision (P e)} (m : JSMap.t V) :
  NoDup (JSMap.keys m) → NoDup (JSMap.keys (filter P m)).
Proof.
  intros Hnd. eapply sublist_NoDup; [exact Hnd|].
  apply sublist_map, sublist_filter.
Qed.

(** The segments left in the map after the loop over the records: those
    whose id is the id of no record with a usable id. *)
Lemma fold_xlfAfter_filter (records : list Row) :
  ∀ m : JSMap.t Segment.t, NoDup (JSMap.keys m) →
    fold_left xlfAfter records m
    = filter (λ e, e.1 ∉ map rowId (filter (λ r, validId r) records)) m.
Proof.
  induction records as [|r records IH]; intros m Hnd; cbn [fold_left].
  - clear Hnd. induction m as [|e m IHm]; [done|].
    rewrite filter_cons_True by apply not_elem_of_nil. by rewrite <- IHm.
  - rewrite filter_cons_bool. unfold xlfAfter at 2.
    destruct (validId r) eqn:Hv.
    + rewrite (validId_invalidId r Hv), JSMap_delete_filter by done.
      rewrite IH by by apply JSMap_filter_NoDup.
      rewrite list_filter_filter. apply list_filter_iff. intros e.
      cbn [map]. rewrite not_elem_of_cons. unfold rowId. tauto.
    + apply validId_false in Hv.
      destruct (invalidId (get r "id")) as [[|]|]; [by apply IH|done|by apply IH].
Qed.
End TargetedSync_accounts.

(** X10.  The counters of the first revision account for every indexed
    segment and every record with a usable id: each distinct segment id is
    counted once as added, updated or unchanged; each record whose id is
    a non-blank string is counted once as updated, unchanged or
    deactivated; the appended rows are the added ones, and no more rows
    are rewritten than records were counted. *)
Theorem TargetedSync_accounting (segments : list Segment.t)
    (sheetData : list Row) (sheetHeaders : list string)
    (r1 : TargetedSync.SyncResult) :
  TargetedSync.syncXLFtoSheet segments sheetData sheetHeaders = Ok r1 →
  let s := TargetedSync.result_stats r1 in
  added s + updated s + unchanged s = length (indexSegments segments)
  ∧ updated s + unchanged s + deactivated s
    = length (filter (λ r, validId r) sheetData)
  ∧ length (indexSegments segments) ≤ TargetedSync.totalSegments r1
  ∧ length (TargetedSync.appendRows r1) = added s
  ∧ length (TargetedSync.updateRows r1)
    ≤ updated s + unchanged s + deactivated s.
Proof.
  unfold TargetedSync.syncXLFtoSheet.
  destruct (TargetedSync.processRows _ _ _ _) as [st|e] eqn:Hpass; simpl;
    [|done].
  apply processRows_account in Hpass as (Ha & Hseg & Hrec & Hups).
  pose proof (addNew_spec sheetHeaders (TargetedSync.xlfMap st) []
                (TargetedSync.stats st)) as (Hrows & Ha' & Hu' & Hn' & Hd').
  destruct (TargetedSync.addNew _ _ _ _) as [rowsToAdd stats'].
  intros [= <-]. simpl in *. subst rowsToAdd. rewrite length_map.
  pose proof (length_indexSegments segments). repeat split; lia.
Qed.

Lemma TargetedSync_accounting_witness :
  ∃ r1,
    TargetedSync.syncXLFtoSheet Samples.segments Samples.records
      Samples.sheetHeaders = Ok r1
    ∧ let s := TargetedSync.result_stats r1 in
      added s + updated s + unchanged s
      = length (indexSegments Samples.segments)
      ∧ updated s + unchanged s + deactivated s
        = length (filter (λ r, validId r) Samples.records)
      ∧ length (indexSegments Samples.segments) ≤ TargetedSync.totalSegments r1
      ∧ length (TargetedSync.appendRows r1) = added s
      ∧ length (TargetedSync.updateRows r1)
        ≤ updated s + unchanged s + deactivated s.
Proof.
  eexists. split; [vm_compute; reflexivity|].
  apply (TargetedSync_accounting Samples.segments Samples.records
           Samples.sheetHeaders).
  vm_compute. reflexivity.
Defined.

(** X11.  The rows the first revision appends are built, in index order,
    from exactly the indexed segments whose id is the id of no record
    with a non-blank string id; so a segment is never appended while a
    record with its id is in the sheet. *)
Theorem TargetedSync_appends_unmatched (segments : list Segment.t)
    (sheetData : list Row) (sheetHeaders : list string)
    (r1 : TargetedSync.SyncResult) :
  TargetedSync.syncXLFtoSheet segments sheetData sheetHeaders = Ok r1 →
  TargetedSync.appendRows r1
  = map (λ e, newRow (languageColumns sheetHeaders) e.2)
        (filter (λ e, e.1 ∉ map rowId (filter (λ r, validId r) sheetData))
                (indexSegments segments)).
Proof.
  unfold TargetedSync.syncXLFtoSheet.
  destruct (TargetedSync.processRows _ _ _ _) as [st|e] eqn:Hpass; simpl;
    [|done].
  apply processRows_spec in Hpass as [Hmap _]. simpl in Hmap.
  pose proof (addNew_spec sheetHeaders (TargetedSync.xlfMap st) []
                (TargetedSync.stats st)) as [Hrows _].
  destruct (TargetedSync.addNew _ _ _ _) as [rowsToAdd stats'].
  intros [= <-]. simpl in *. subst rowsToAdd. rewrite Hmap.
  rewrite fold_xlfAfter_filter; [done|].
  by destruct (indexSegments_keyed segments).
Qed.

Lemma TargetedSync_appends_unmatched_witness :
  ∃ r1,
    TargetedSync.syncXLFtoSheet Samples.segments Samples.records
      Samples.sheetHeaders = Ok r1
    ∧ TargetedSync.appendRows r1
      = map (λ e, newRow (languageColumns Samples.sheetHeaders) e.2)
          (filter (λ e, e.1 ∉ map rowId
                                 (filter (λ r, validId r) Samples.records))
                  (indexSegments Samples.segments)).
Proof.
  eexists. split; [vm_compute; reflexivity|].
  apply (TargetedSync_appends_unmatched Samples.segments Samples.records
           Samples.sheetHeaders).
  vm_compute. reflexivity.
Defined.

Section RewriteSync_table.
Import RewriteSync.
Context (sheetHeaders : list string).
Local Abbreviation langs := (languageColumns sheetHeaders).

Lemma length_indexRows (sheetData : list Row) :
  length (indexRows sheetData) ≤ length sheetData.
Proof.
  unfold indexRows.
  assert (∀ m : JSMap.t Row,
            length (fold_left (λ m row, if truthy (get row "id")
                                        then JSMap.set (get row "id") row m
                                        else m) sheetData m)
            ≤ length m + length sheetData) as Hfold.
  { induction sheetData as [|r sheetData IH]; intros m; simpl; [lia|].
    destruct (truthy (get r "id")).
    - specialize (IH (JSMap.set (get r "id") r m)).
      pose proof (JSMap_length_set (get r "id") r m). lia.
    - specialize (IH m). lia. }
  apply (Hfold []).
Qed.

Lemma indexRows_keys (sheetData : list Row) (k : JSValue) :
  k ∈ JSMap.keys (indexRows sheetData)
  ↔ truthy k = true ∧ k ∈ map rowId sheetData.
Proof.
  unfold indexRows.
  assert (∀ m : JSMap.t Row,
            k ∈ JSMap.keys
                  (fold_left (λ m row, if truthy (get row "id")
                                       then JSMap.set (get row "id") row m
                                       else m) sheetData m)
            ↔ k ∈ JSMap.keys m ∨ (truthy k = true ∧ k ∈ map rowId sheetData))
    as Hgen.
  { induction sheetData as [|r sheetData IH]; intros m; cbn [fold_left map].
    - split; [by left|]. intros [?|[_ ?%elem_of_nil]]; done.
    - rewrite IH, elem_of_cons. unfold rowId at 2.
      destruct (truthy (get r "id")) eqn:Ht.
      + rewrite JSMap_keys_set. destruct (decide _) as [Hin|Hin].
        * split; [tauto|]. intros [?|[? [Hk|?]]]; [tauto|subst k|tauto].
          by left.
        * rewrite elem_of_app, list_elem_of_singleton.
          split; [|tauto]. intros [[?|Hk]|?]; [tauto|subst k|tauto].
          right. split; [done|]. by left.
      + split; [tauto|]. intros [?|[? [Hk|?]]]; [tauto|subst k|tauto].
        congruence. }
  rewrite Hgen. split; [|tauto]. by intros [?%elem_of_nil|?].
Qed.

(** The row pushed for an [xlfMap] entry carries the entry's key as id. *)
Lemma segmentRow_id (sheetMap : JSMap.t Row) (e : JSValue * Segment.t) :
  keyedByRowId sheetMap → e.1 = JStr (Segment.id e.2) →
  rowId (segmentRow langs sheetMap e) = e.1.
Proof.
  intros [_ Hall] He. unfold segmentRow, rowId.
  destruct (JSMap.get e.1 sheetMap) as [existingRow|] eqn:Hget.
  - apply JSMap_get_Some in Hget. rewrite Forall_forall in Hall.
    destruct (Hall _ Hget) as [Hid _]. simpl in Hid.
    destruct (strict_ne _ _);
      [rewrite sourceChangedRow_id|rewrite metadataRow_id]; done.
  - by rewrite newRow_id.
Qed.

Lemma writeSheet_ids (segments : list Segment.t) (sheetData : list Row) :
  map rowId (writeSheet (syncXLFtoSheet segments sheetData sheetHeaders))
  = JSMap.keys (indexSegments segments)
    ++ JSMap.keys (filter (λ e, entryMissing (indexSegments segments) e)
                          (indexRows sheetData)).
Proof.
  destruct (syncXLFtoSheet_spec sheetHeaders segments sheetData) as [-> _].
  rewrite map_app, !map_map. unfold JSMap.keys. f_equal.
  - apply map_ext_Forall. pose proof (indexSegments_keyed segments) as [_ Hk].
    eapply Forall_impl; [exact Hk|]. intros e He.
    apply segmentRow_id; [apply indexRows_keyed|done].
  - apply map_ext_Forall. apply Forall_forall.
    intros e [_ He]%list_elem_of_filter.
    pose proof (indexRows_keyed sheetData) as [_ Hall].
    rewrite Forall_forall in Hall. destruct (Hall _ He) as [Hid _].
    unfold rowId in *. by rewrite deactivatedRow_id.
Qed.

Lemma writeSheet_NoDup (segments : list Segment.t) (sheetData : list Row) :
  NoDup (map rowId
           (writeSheet (syncXLFtoSheet segments sheetData sheetHeaders))).
Proof.
  rewrite writeSheet_ids. apply NoDup_app. split; [|split].
  - by destruct (indexSegments_keyed segments).
  - intros k Hk Hk'. unfold JSMap.keys in Hk'.
    apply list_elem_of_fmap in Hk' as (e & -> & [Hmiss _]%list_elem_of_filter).
    apply JSMap_has_elem in Hk. unfold entryMissing in Hmiss.
    by rewrite Hk in Hmiss.
  - apply JSMap_filter_NoDup. by destruct (indexRows_keyed sheetData).
Qed.
End RewriteSync_table.

(** X12.  The counters of the second revision account for the table it
    writes: each distinct segment id is counted once as added, updated or
    unchanged, each written row is counted once, and no more records are
    deactivated than the sheet has. *)
Theorem RewriteSync_accounting (segments : list Segment.t)
    (sheetData : list Row) (sheetHeaders : list string) :
  let r := RewriteSync.syncXLFtoSheet segments sheetData sheetHeaders in
  let s := RewriteSync.result_stats r in
  added s + updated s + unchanged s = length (indexSegments segments)
  ∧ length (RewriteSync.writeSheet r)
    = added s + updated s + unchanged s + deactivated s
  ∧ length (indexSegments segments) ≤ RewriteSync.totalSegments r
  ∧ deactivated s ≤ length sheetData.
Proof.
  intros r s.
  destruct (syncXLFtoSheet_spec sheetHeaders segments sheetData)
    as (Hw & Ha & Hu & Hn & Hd).
  fold r in Hw, Ha, Hu, Hn, Hd. fold s in Ha, Hu, Hn, Hd.
  pose proof (entry_classes (indexRows sheetData) (indexSegments segments))
    as Hclasses.
  pose proof (length_indexSegments segments) as Hseg.
  pose proof (length_indexRows sheetData) as Hrows.
  pose proof (length_filter
                (λ e, entryMissing (indexSegments segments) e)
                (indexRows sheetData)) as Hmiss.
  assert (RewriteSync.totalSegments r = length segments) as Htotal.
  { unfold r, RewriteSync.syncXLFtoSheet.
    destruct (RewriteSync.processSegments _ _ _ _ _).
    by destruct (RewriteSync.processMissing _ _ _ _). }
  rewrite Hw, length_app, !length_map. repeat split; lia.
Qed.

(** X13.  The table the second revision writes never has two rows with
    the same id, and its ids are exactly the ids of the segments and the
    truthy ids of the records: a record without id is dropped, and of the
    records that share an id only one row remains. *)
Theorem RewriteSync_ids (segments : list Segment.t) (sheetData : list Row)
    (sheetHeaders : list string) :
  let r := RewriteSync.syncXLFtoSheet segments sheetData sheetHeaders in
  NoDup (map rowId (RewriteSync.writeSheet r))
  ∧ ∀ k, k ∈ map rowId (RewriteSync.writeSheet r)
         ↔ (∃ segment, segment ∈ segments ∧ k = JStr (Segment.id segment))
           ∨ (truthy k = true ∧ k ∈ map rowId sheetData).
Proof.
  intros r. split; [apply writeSheet_NoDup|]. intros k. unfold r.
  rewrite writeSheet_ids, elem_of_app, indexSegments_keys.
  rewrite <- (indexRows_keys sheetData k). unfold JSMap.keys at 1.
  rewrite list_elem_of_fmap. split.
  - intros [?|(e & -> & [_ He]%list_elem_of_filter)]; [by left|].
    right. unfold JSMap.keys. apply list_elem_of_fmap. by exists e.
  - intros [?|Hk]; [by left|].
    destruct (JSMap.has k (indexSegments segments)) eqn:Hhas.
    + left. apply indexSegments_keys. by apply JSMap_has_elem.
    + right. unfold JSMap.keys in Hk.
      apply list_elem_of_fmap in Hk as (e & -> & He). exists e.
      split; [done|]. apply list_elem_of_filter. split; [|done].
      unfold entryMissing. by rewrite Hhas.
Qed.

Lemma JSMap_get_elem_of {V} (k : JSValue) (v : V) (m : JSMap.t V) :
  NoDup (JSMap.keys m) → (k, v) ∈ m → JSMap.get k m = Some v.
Proof.
  induction m as [|[k0 v0] m IH]; [by intros _ ?%elem_of_nil|].
  change (JSMap.keys ((k0, v0) :: m)) with (k0 :: JSMap.keys m).
  intros [Hk Hnd]%NoDup_cons [[= -> ->]|Hin]%elem_of_cons; simpl.
  - by rewrite decide_True.
  - rewrite decide_False; [by apply IH|]. intros ->. apply Hk.
    unfold JSMap.keys. apply list_elem_of_fmap. by exists (k, v).
Qed.

Lemma Stats_eq (s t : Stats) :
  added s = added t → updated s = updated t → unchanged s = unchanged t →
  deactivated s = deactivated t → s = t.
Proof. destruct s, t. simpl. congruence. Qed.

Section revisions.
Context (segments : list Segment.t) (sheetData : list Row)
        (sheetHeaders : list string).
Context (Hwf : wellFormedRecords sheetData).
Local Abbreviation xlfMap := (indexSegments segments).
Local Abbreviation langs := (languageColumns sheetHeaders).
Local Abbreviation unmatched :=
  (filter (λ e : JSValue * Segment.t, e.1 ∉ map rowId sheetData) xlfMap).

Lemma wf_filter_validId : filter (λ r, validId r) sheetData = sheetData.
Proof. apply filter_all. by destruct Hwf. Qed.

Lemma wf_sheetMap_get (k : JSValue) (r : Row) :
  JSMap.get k (indexRows sheetData) = Some r → r ∈ sheetData ∧ rowId r = k.
Proof.
  rewrite (indexRows_wf _ Hwf). intros Hget%JSMap_get_Some.
  apply list_elem_of_fmap in Hget as (r' & [= -> ->] & Hin). done.
Qed.

Lemma wf_sheetMap_None (k : JSValue) :
  JSMap.get k (indexRows sheetData) = None ↔ k ∉ map rowId sheetData.
Proof.
  rewrite JSMap_get_None, (indexRows_wf _ Hwf). unfold JSMap.keys.
  by rewrite map_map.
Qed.

(** The record set of the first revision, for well-formed records. *)
Lemma TargetedSync_wf_records (r1 : TargetedSync.SyncResult) :
  TargetedSync.syncXLFtoSheet segments sheetData sheetHeaders = Ok r1 →
  TargetedSync.nextRecords sheetData r1
  = map (rowAfter langs xlfMap) sheetData
    ++ map (λ e, newRow langs e.2) unmatched.
Proof.
  intros Hrun. rewrite (nextRecords_spec sheetHeaders _ _ _ Hrun).
  rewrite rowsAfter_wf by done. f_equal. f_equal.
  rewrite fold_xlfAfter_filter by by destruct (indexSegments_keyed segments).
  by rewrite wf_filter_validId.
Qed.

Lemma TargetedSync_wf_NoDup :
  NoDup (map rowId (map (rowAfter langs xlfMap) sheetData
                    ++ map (λ e, newRow langs e.2) unmatched)).
Proof.
  pose proof (indexSegments_keyed segments) as [HndX HkX].
  rewrite map_app, !map_map.
  rewrite (map_ext_Forall (λ r, rowId (rowAfter langs xlfMap r)) rowId).
  2:{ apply Forall_forall. intros r _. apply rowAfter_id. }
  rewrite (map_ext_Forall (λ e : JSValue * Segment.t, rowId (newRow langs e.2))
             fst).
  2:{ apply Forall_forall. intros e [_ He]%list_elem_of_filter.
      rewrite Forall_forall in HkX. unfold rowId.
      by rewrite newRow_id, (HkX _ He). }
  apply NoDup_app. split; [by destruct Hwf|]. split.
  - intros k Hk Hk'.
    apply list_elem_of_fmap in Hk' as (e & -> & [Hno _]%list_elem_of_filter).
    done.
  - by apply (JSMap_filter_NoDup (λ e, e.1 ∉ map rowId sheetData)).
Qed.

Lemma revisions_same_rows (x : Row) :
  x ∈ map (rowAfter langs xlfMap) sheetData
      ++ map (λ e, newRow langs e.2) unmatched
  ↔ x ∈ RewriteSync.writeSheet
          (RewriteSync.syncXLFtoSheet segments sheetData sheetHeaders).
Proof.
  pose proof (indexSegments_keyed segments) as [HndX HkX].
  destruct (RewriteSync_wf_run sheetHeaders segments sheetData Hwf)
    as [Hrows _].
  destruct (syncXLFtoSheet_spec sheetHeaders segments sheetData) as [Hw _].
  simpl in Hw. split.
  - intros [Hx|Hx]%elem_of_app.
    + apply list_elem_of_fmap in Hx as (r & -> & Hr). by apply Hrows.
    + apply list_elem_of_fmap in Hx as (e & -> & [Hno He]%list_elem_of_filter).
      rewrite Hw. apply elem_of_app. left. apply list_elem_of_fmap.
      exists e. split; [|done]. unfold segmentRow.
      apply wf_sheetMap_None in Hno. by rewrite Hno.
  - rewrite Hw. intros [Hx|Hx]%elem_of_app.
    + apply list_elem_of_fmap in Hx as (e & -> & He). unfold segmentRow.
      destruct (JSMap.get e.1 (indexRows sheetData)) as [r|] eqn:Hget.
      * apply wf_sheetMap_get in Hget as [Hr Hid].
        apply elem_of_app. left. apply list_elem_of_fmap. exists r.
        split; [|done].
        destruct (rowAfter_valid sheetHeaders xlfMap r) as [-> _].
        { destruct Hwf as [Hv _]. rewrite Forall_forall in Hv. by apply Hv. }
        rewrite Hid. destruct e as [k segment]. simpl.
        by rewrite (JSMap_get_elem_of k segment).
      * apply elem_of_app. right. apply list_elem_of_fmap. exists e.
        split; [done|]. apply list_elem_of_filter. split; [|done].
        by apply wf_sheetMap_None.
    + apply list_elem_of_fmap
        in Hx as (e & -> & [Hmiss He]%list_elem_of_filter).
      rewrite (indexRows_wf _ Hwf) in He.
      apply list_elem_of_fmap in He as (r & -> & Hr). simpl.
      apply elem_of_app. left. apply list_elem_of_fmap. exists r.
      split; [|done].
      destruct (rowAfter_valid sheetHeaders xlfMap r) as [-> _].
      { destruct Hwf as [Hv _]. rewrite Forall_forall in Hv. by apply Hv. }
      unfold entryMissing, JSMap.has in Hmiss. simpl in Hmiss.
      by destruct (JSMap.get (rowId r) xlfMap).
Qed.

Lemma TargetedSync_segments_counted (r1 : TargetedSync.SyncResult) :
  TargetedSync.syncXLFtoSheet segments sheetData sheetHeaders = Ok r1 →
  added (TargetedSync.result_stats r1)
  + updated (TargetedSync.result_stats r1)
  + unchanged (TargetedSync.result_stats r1) = length xlfMap.
Proof.
  unfold TargetedSync.syncXLFtoSheet.
  destruct (TargetedSync.processRows _ _ _ _) as [st|e] eqn:Hpass; simpl;
    [|done].
  apply processRows_account in Hpass as (Ha & Hseg & _).
  pose proof (addNew_spec sheetHeaders (TargetedSync.xlfMap st) []
                (TargetedSync.stats st)) as (_ & Ha' & Hu' & Hn' & _).
  destruct (TargetedSync.addNew _ _ _ _) as [rowsToAdd stats'].
  intros [= <-]. simpl in *. lia.
Qed.
End revisions.

(** X14.  On a well-formed record set (every id a non-blank string, no id
    twice) of a sheet that has a header, the two revisions of the
    synchronisation agree: both succeed, the targeted one reports the same
    four counters and the same number of segments as the rewriting one, and
    leaves the same records in the sheet, in another order. *)
Theorem revisions_agree (segments : list Segment.t) (sheetData : list Row)
    (sheetHeaders : list string) :
  wellFormedRecords sheetData →
  sheetHeaders ≠ [] →
  let r2 := RewriteSync.syncXLFtoSheet segments sheetData sheetHeaders in
  RewriteSync.success r2 = true
  ∧ ∃ r1, TargetedSync.syncXLFtoSheet segments sheetData sheetHeaders = Ok r1
          ∧ TargetedSync.nextRecords sheetData r1 ≡ₚ RewriteSync.nextRecords r2
          ∧ TargetedSync.result_stats r1 = RewriteSync.result_stats r2
          ∧ TargetedSync.totalSegments r1 = RewriteSync.totalSegments r2.
Proof.
  intros Hwf Hheaders r2. split.
  { unfold r2, RewriteSync.syncXLFtoSheet.
    destruct (RewriteSync.processSegments _ _ _ _ _).
    destruct (RewriteSync.processMissing _ _ _ _). simpl.
    by destruct sheetHeaders. }
  destruct (TargetedSync_wf_run sheetHeaders segments sheetData Hwf)
    as (r1 & Hrun & _ & Hu & Hn & Hd).
  destruct (RewriteSync_wf_run sheetHeaders segments sheetData Hwf)
    as (_ & Hu2 & Hn2 & Hd2).
  fold r2 in Hu2, Hn2, Hd2.
  exists r1. split; [done|]. split; [|split].
  - rewrite (TargetedSync_wf_records _ _ _ Hwf _ Hrun).
    unfold RewriteSync.nextRecords. apply NoDup_Permutation.
    + eapply NoDup_fmap_1. by apply TargetedSync_wf_NoDup.
    + eapply NoDup_fmap_1. apply writeSheet_NoDup.
    + by apply revisions_same_rows.
  - pose proof (TargetedSync_segments_counted _ _ _ _ Hrun) as Hsum.
    destruct (syncXLFtoSheet_spec sheetHeaders segments sheetData)
      as (_ & Ha2' & Hu2' & Hn2' & _).
    pose proof (entry_classes (indexRows sheetData) (indexSegments segments)).
    fold r2 in Ha2', Hu2', Hn2'. apply Stats_eq; lia.
  - unfold TargetedSync.syncXLFtoSheet in Hrun.
    destruct (TargetedSync.processRows _ _ _ _); simpl in Hrun; [|done].
    destruct (TargetedSync.addNew _ _ _ _). injection Hrun as <-.
    unfold r2, RewriteSync.syncXLFtoSheet.
    destruct (RewriteSync.processSegments _ _ _ _ _).
    by destruct (RewriteSync.processMissing _ _ _ _).
Qed.

Lemma revisions_agree_witness :
  wellFormedRecords Samples.records
  ∧ Samples.sheetHeaders ≠ []
  ∧ RewriteSync.success
      (RewriteSync.syncXLFtoSheet Samples.segments Samples.records
         Samples.sheetHeaders) = true
  ∧ ∃ r1, TargetedSync.syncXLFtoSheet Samples.segments Samples.records
            Samples.sheetHeaders = Ok r1
          ∧ TargetedSync.nextRecords Samples.records r1
            ≡ₚ RewriteSync.nextRecords
                 (RewriteSync.syncXLFtoSheet Samples.segments Samples.records
                    Samples.sheetHeaders)
          ∧ TargetedSync.result_stats r1
            = RewriteSync.result_stats
                (RewriteSync.syncXLFtoSheet Samples.segments Samples.records
                   Samples.sheetHeaders)
          ∧ TargetedSync.totalSegments r1
            = RewriteSync.totalSegments
                (RewriteSync.syncXLFtoSheet Samples.segments Samples.records
                   Samples.sheetHeaders).
Proof.
  assert (wellFormedRecords Samples.records) as Hwf.
  { split.
    - repeat constructor.
    - apply (bool_decide_unpack _). vm_compute. exact I. }
  assert (Samples.sheetHeaders ≠ []) as Hheaders by done.
  split; [exact Hwf|]. split; [exact Hheaders|].
  exact (revisions_agree Samples.segments Samples.records
           Samples.sheetHeaders Hwf Hheaders).
Defined.

(** X15.  In the index of the incoming segments no id occurs twice, and an
    id is mapped to the last segment that carries it: of trans-units with
    the same id only the last one is synchronised. *)
Theorem indexSegments_last_wins (segments : list Segment.t) :
  NoDup (JSMap.keys (indexSegments segments))
  ∧ ∀ i, JSMap.get (JStr i) (indexSegments segments)
         = last (filter (λ segment, Segment.id segment = i) segments).
Proof.
  split; [by destruct (indexSegments_keyed segments)|]. intros i.
  unfold indexSegments.
  assert (∀ m : JSMap.t Segment.t,
            JSMap.get (JStr i)
              (fold_left (λ m seg, JSMap.set (JStr (Segment.id seg)) seg m)
                         segments m)
            = match last (filter (λ segment, Segment.id segment = i) segments)
              with
              | Some segment => Some segment
              | None => JSMap.get (JStr i) m
              end) as Hfold.
  { induction segments as [|seg segments IH]; intros m; cbn [fold_left];
      [done|].
    rewrite IH. destruct (decide (Segment.id seg = i)) as [Hi|Hi].
    - rewrite filter_cons_True by done. rewrite last_cons.
      destruct (last _); [done|]. rewrite Hi. apply JSMap_get_set_eq.
    - rewrite filter_cons_False by done.
      destruct (last _); [done|]. apply JSMap_get_set_ne. congruence. }
  rewrite Hfold. by destruct (last _).
Qed.

(** X16.  In the index of the sheet records of the second revision a
    falsy id is never a key, and a truthy id is mapped to the last record
    that carries it: of records with the same id only the last one takes
    part in the run. *)
Theorem indexRows_last_wins (sheetData : list Row) (k : JSValue) :
  JSMap.get k (indexRows sheetData)
  = if truthy k then last (filter (λ r, rowId r = k) sheetData) else None.
Proof.
  unfold indexRows.
  assert (∀ m : JSMap.t Row,
            JSMap.get k
              (fold_left (λ m row, if truthy (get row "id")
                                   then JSMap.set (get row "id") row m
                                   else m) sheetData m)
            = match (if truthy k
                     then last (filter (λ r, rowId r = k) sheetData)
                     else None) with
              | Some r => Some r
              | None => JSMap.get k m
              end) as Hfold.
  { induction sheetData as [|r sheetData IH]; intros m; cbn [fold_left].
    - by destruct (truthy k).
    - rewrite IH. destruct (truthy k) eqn:Hk.
      2:{ destruct (truthy (get r "id")) eqn:Hr; [|done].
          apply JSMap_get_set_ne. congruence. }
      destruct (decide (rowId r = k)) as [Hr|Hr].
      + rewrite filter_cons_True by done. rewrite last_cons.
        destruct (last _); [done|]. unfold rowId in Hr. rewrite Hr, Hk.
        apply JSMap_get_set_eq.
      + rewrite filter_cons_False by done.
        destruct (last _); [done|]. destruct (truthy (get r "id")); [|done].
        by apply JSMap_get_set_ne. }
  rewrite Hfold. simpl. destruct (truthy k); [|done]. by destruct (last _).
Qed.

(** *** The cells that reach the sheet *)

(** The cell written for a column in which the object has a field. *)
Lemma toRow_lookup (headers : list string) (item : Row) (j : nat)
    (col : string) (v : JSValue) :
  headers !! j = Some col → get item col = v → v ≠ JUndefined →
  GoogleSheets.toRow headers item !! j = Some (Value v).
Proof.
  intros Hj Hget Hv. unfold GoogleSheets.toRow.
  rewrite list_lookup_fmap, Hj. simpl. f_equal.
  unfold read. unfold get in Hget.
  destruct (item !! col) as [w|]; simpl in Hget; [|congruence].
  subst w. destruct v as [| |b|n|s]; try done. by destruct n.
Qed.

Lemma not_reserved_language (headers : list string) (col : string) :
  col ∈ headers → col ≠ "id" → col ≠ "maxwidth" → col ≠ "size-unit" →
  col ≠ "English" → col ≠ "active" → col ∈ languageColumns headers.
Proof.
  intros Hin ? ? ? ? ?. apply languageColumns_spec. split; [done|].
  split; [|done]. unfold BASE_COLUMNS.
  rewrite !not_elem_of_cons. repeat split; try done. apply not_elem_of_nil.
Qed.

Lemma newRow_cells (headers : list string) (segment : Segment.t) :
  "__proto__" ∉ headers →
  GoogleSheets.toRow headers (newRow (languageColumns headers) segment)
  = map (λ col, Value (newCell segment col)) headers.
Proof.
  intros Hproto. apply list_eq. intros j. rewrite list_lookup_fmap.
  destruct (headers !! j) as [col|] eqn:Hj; simpl.
  2:{ unfold GoogleSheets.toRow. by rewrite list_lookup_fmap, Hj. }
  assert (col ∈ headers) as Hin by (by eapply list_elem_of_lookup_2).
  assert (col ≠ "__proto__") as Hne by (by intros ->).
  apply (toRow_lookup headers _ j col); [done| |].
  2:{ unfold newCell. by repeat case_decide. }
  unfold newCell.
  destruct (decide (col = "id")) as [->|Hid]; [apply newRow_id|].
  destruct (decide (col = "maxwidth")) as [->|Hmw]; [apply newRow_maxwidth|].
  destruct (decide (col = "size-unit")) as [->|Hsz];
    [apply newRow_size_unit|].
  destruct (decide (col = "English")) as [->|Hen]; [apply newRow_English|].
  destruct (decide (col = "active")) as [->|Hact]; [apply newRow_active|].
  unfold newRow.
  by apply get_clearColumns_in; [apply not_reserved_language|].
Qed.

(** X17.  In a sheet without a header [__proto__], the rows that
    [appendRows] writes for new segments hold the id, the maxwidth, the
    size unit and the source text of the segment in the columns of these
    names, [true] in the column [active], and the empty string in every
    other column: the category computed from the id is never written, a
    [category] column is left empty. *)
Theorem appended_row_cells (headers : list string)
    (segments : list Segment.t) :
  "__proto__" ∉ headers →
  let rows := (GoogleSheets.appendRows headers
                 (map (newRow (languageColumns headers)) segments)).2 in
  rows = map (λ segment, map (λ col, Value (newCell segment col)) headers)
             segments
  ∧ ∀ row i, row ∈ rows → headers !! i = Some "category" →
             row !! i = Some (Value (JStr "")).
Proof.
  intros Hproto.
  assert ((GoogleSheets.appendRows headers
             (map (newRow (languageColumns headers)) segments)).2
          = map (λ segment, map (λ col, Value (newCell segment col)) headers)
                segments) as Hrows.
  { unfold GoogleSheets.appendRows. cbn [snd]. rewrite map_map.
    apply map_ext_Forall, Forall_forall. intros segment _.
    by apply newRow_cells. }
  intros rows. split; [exact Hrows|]. intros row i Hrow Hi.
  unfold rows in Hrow. rewrite Hrows in Hrow.
  apply list_elem_of_fmap in Hrow as (segment & -> & _).
  rewrite list_lookup_fmap, Hi. done.
Qed.

Lemma appended_row_cells_witness :
  ("__proto__" ∉ Samples.sheetHeaders)
  ∧ snd (GoogleSheets.appendRows Samples.sheetHeaders
           (map (newRow (languageColumns Samples.sheetHeaders))
                [Samples.segment "Greeting.Welcome" "Welcome" "30" "char"]))
    = [ [ Value (JStr "Greeting.Welcome"); Value (JStr "");
          Value (JStr "30"); Value (JStr "char"); Value (JStr "Welcome");
          Value (JBool true); Value (JStr ""); Value (JStr "") ] ].
Proof.
  assert ("__proto__" ∉ Samples.sheetHeaders) as Hproto
    by (apply (bool_decide_unpack _); vm_compute; exact I).
  split; [exact Hproto|].
  destruct (appended_row_cells Samples.sheetHeaders
              [Samples.segment "Greeting.Welcome" "Welcome" "30" "char"]
              Hproto) as [Hrows _].
  cbv zeta in Hrows. rewrite Hrows. vm_compute. reflexivity.
Defined.

(** *** Reading the sheet *)

Lemma cellOrEmpty_cellAt (row : list string) (index : nat) :
  GoogleSheets.cellOrEmpty row index = cellAt row index.
Proof.
  unfold GoogleSheets.cellOrEmpty, cellAt.
  destruct (row !! index) as [s|]; [|done].
  simpl. by destruct (String.eqb_spec s "") as [->|].
Qed.

Lemma forEachHeader_other (headers : list string) (col : string) :
  col ∉ headers →
  ∀ index row obj,
    GoogleSheets.forEachHeader headers index row obj !! col = obj !! col.
Proof.
  induction headers as [|header headers IH]; intros Hcol index row obj;
    simpl; [done|].
  apply not_elem_of_cons in Hcol as [Hne Hcol].
  rewrite IH by done. by apply lookup_assign_ne.
Qed.

(** Assigning strings never creates a field [__proto__]. *)
Lemma forEachHeader_proto (headers : list string) :
  ∀ index row obj,
    obj !! "__proto__" = None →
    GoogleSheets.forEachHeader headers index row obj !! "__proto__" = None.
Proof.
  induction headers as [|header headers IH]; intros index row obj Hobj;
    simpl; [done|].
  apply IH. destruct (decide (header = "__proto__")) as [->|Hne].
  - unfold assign. by rewrite bool_decide_eq_true_2.
  - by rewrite lookup_assign_ne.
Qed.

Lemma forEachHeader_last (headers : list string) (col : string) :
  col ≠ "__proto__" →
  ∀ j index row obj,
    headers !! j = Some col →
    (∀ j', j < j' → headers !! j' ≠ Some col) →
    GoogleSheets.forEachHeader headers index row obj !! col
    = Some (JStr (cellAt row (index + j))).
Proof.
  intros Hproto.
  induction headers as [|header headers IH]; intros j index row obj Hj Hlast;
    [done|].
  destruct j as [|j]; simpl in *.
  - injection Hj as ->. rewrite forEachHeader_other.
    + rewrite lookup_assign_eq, cellOrEmpty_cellAt by done.
      by rewrite Nat.add_0_r.
    + intros (j' & Hj')%list_elem_of_lookup_1.
      apply (Hlast (S j')); [lia|done].
  - rewrite (IH j (S index)); [by rewrite Nat.add_succ_r|done|].
    intros j' Hlt. apply (Hlast (S j')). lia.
Qed.

Lemma forEachHeader_cells (headers : list string) (col : string) :
  ∀ index row obj,
    (∀ v, obj !! col = Some v → is_string v = true) →
    ∀ v, GoogleSheets.forEachHeader headers index row obj !! col = Some v →
         is_string v = true.
Proof.
  induction headers as [|header headers IH]; intros index row obj Hobj v;
    simpl; [apply Hobj|].
  apply IH. intros w. unfold assign. destruct (bool_decide _); [apply Hobj|].
  destruct (decide (header = col)) as [->|Hne].
  - rewrite lookup_insert_eq. by intros [= <-].
  - rewrite lookup_insert_ne by done. apply Hobj.
Qed.

(** A field of a record read from the sheet is a string, or missing. *)
Lemma readSheet_cells (values : option (list (list string))) (r : Row)
    (col : string) :
  r ∈ GoogleSheets.readSheet values →
  get r col = JUndefined ∨ ∃ s, get r col = JStr s.
Proof.
  destruct values as [[|headers rows]|]; simpl;
    [by intros ?%elem_of_nil| |by intros ?%elem_of_nil].
  intros (row & -> & _)%list_elem_of_fmap. unfold get.
  destruct (GoogleSheets.forEachHeader headers 0 row ∅ !! col) as [v|] eqn:Hv;
    [|by left].
  right. apply forEachHeader_cells in Hv; [|done].
  destruct v; try done. by eexists.
Qed.

(** X18.  [readSheet] turns every row under the header row into one
    record, in order.  The record has a field for each header other than
    [__proto__], and no other; the field holds the cell under the last
    header of that name, and the empty string where the row is too short:
    never [undefined]. *)
Theorem readSheet_records (headers : list string) (rows : list (list string)) :
  let data := GoogleSheets.readSheet (Some (headers :: rows)) in
  length data = length rows
  ∧ ∀ i row, rows !! i = Some row →
      ∃ obj, data !! i = Some obj
             ∧ (∀ col, col ∉ headers ∨ col = "__proto__" → obj !! col = None)
             ∧ (∀ j col, headers !! j = Some col → col ≠ "__proto__" →
                         (∀ j', j < j' → headers !! j' ≠ Some col) →
                         obj !! col = Some (JStr (cellAt row j))).
Proof.
  simpl. split; [by rewrite length_map|]. intros i row Hi.
  exists (GoogleSheets.forEachHeader headers 0 row ∅).
  split; [by rewrite list_lookup_fmap, Hi|]. split.
  - intros col [Hcol| ->].
    + by rewrite forEachHeader_other.
    + by apply forEachHeader_proto.
  - intros j col Hj Hproto Hlast.
    by rewrite (forEachHeader_last headers col Hproto j 0 row ∅ Hj Hlast).
Qed.




(** A sheet with a header [__proto__]: no field is made for it, and what is
    written back in its column is not the cell that was read. *)
Example read_write_proto :
  GoogleSheets.writeSheet ["id"; "__proto__"]
    (GoogleSheets.readSheet (Some [["id"; "__proto__"]; ["a"; "b"]]))
  = Some {| GoogleSheets.cleared := GoogleSheets.lastColumn ["id"; "__proto__"];
            GoogleSheets.values :=
              [ [Value (JStr "id"); Value (JStr "__proto__")];
                [Value (JStr "a"); Member "__proto__"] ] |}.
Proof. vm_compute. reflexivity. Qed.

Lemma length_configured_headers (headers : list string) :
  (∀ lang, lang ∈ Exporter.getAvailableLanguages None → lang ∈ headers) →
  28 ≤ length headers.
Proof.
  intros Hall.
  assert (NoDup (Exporter.getAvailableLanguages None)) as Hnd.
  { apply (bool_decide_unpack _). vm_compute. exact I. }
  apply (NoDup_submseteq _ headers) in Hnd; [|exact Hall].
  apply submseteq_length in Hnd. exact Hnd.
Qed.

(** X20.  The last column of the range that [writeSheet] clears and
    [appendRows] appends to is computed as one character.  It is a column
    letter [A] to [Z] exactly for 1 to 26 headers; a sheet with a column
    for every configured language has more headers, and the character is
    then past [Z]. *)
Theorem lastColumn_letter (headers : list string) :
  (N.of_nat (length headers) < 65000)%N →
  ((65 ≤ GoogleSheets.lastColumn headers ≤ 90)%N ↔ 1 ≤ length headers ≤ 26)
  ∧ ((∀ lang, lang ∈ Exporter.getAvailableLanguages None → lang ∈ headers) →
     (90 < GoogleSheets.lastColumn headers)%N).
Proof.
  intros Hsmall. unfold GoogleSheets.lastColumn.
  rewrite N.mod_small by lia. split; [lia|].
  intros Hall%length_configured_headers. lia.
Qed.

Lemma lastColumn_letter_witness :
  let headers := BASE_COLUMNS ++ "active" :: Exporter.getAvailableLanguages None
  in ((65 ≤ GoogleSheets.lastColumn headers ≤ 90)%N
      ↔ 1 ≤ length headers ≤ 26)
     ∧ (90 < GoogleSheets.lastColumn headers)%N.
Proof.
  intros headers.
  destruct (lastColumn_letter headers) as [Hletter Hpast].
  - vm_compute. reflexivity.
  - split; [exact Hletter|]. apply Hpast. intros lang Hlang.
    unfold headers. apply elem_of_app. right. by right.
Defined.

(** *** Records as they come from the sheet *)

Section TargetedSync_sheet.
Import TargetedSync.
Context (sheetHeaders : list string).
Local Abbreviation langs := (languageColumns sheetHeaders).

(** A record with a usable id whose [active] field is not a boolean is
    rewritten, whatever the segments say. *)
Lemma processRow_rewrites (i : nat) (r : Row) (st st' : LoopState) :
  activeNotBoolean r →
  processRow langs i r st = Ok st' →
  ∃ new, rowsToUpdate st' = rowsToUpdate st ++ new
         ∧ if validId r then ∃ d, new = [ {| row := i + 2; data := d |} ]
           else new = [].
Proof.
  intros Hact. unfold processRow. destruct (validId r) eqn:Hv.
  - rewrite (validId_invalidId r Hv). simpl.
    assert (strict_ne (get r "active") (JBool true) = true) as Htrue
      by (apply strict_ne_true; [done|apply Hact]).
    assert (strict_ne (get r "active") (JBool false) = true) as Hfalse
      by (apply strict_ne_true; [done|apply Hact]).
    rewrite Htrue, Hfalse.
    destruct (JSMap.get (get r "id") (xlfMap st)) as [segment|].
    + destruct (strict_ne (get r "English") (JStr (Segment.source segment)));
        simpl; intros [= <-]; simpl; eauto.
    + intros [= <-]. simpl. eauto.
  - apply validId_false in Hv.
    destruct (invalidId (get r "id")) as [[|]|e]; simpl; [|done..].
    intros [= <-]. exists []. by rewrite app_nil_r.
Qed.

Lemma processRows_rewrites (records : list Row) :
  Forall activeNotBoolean records →
  ∀ i st st',
    processRows langs i records st = Ok st' →
    ∃ new, rowsToUpdate st' = rowsToUpdate st ++ new
           ∧ length new = length (filter (λ r, validId r) records)
           ∧ ∀ j r, records !! j = Some r → validId r = true →
                    ∃ u, u ∈ new ∧ row u = i + j + 2.
Proof.
  induction 1 as [|r records Hr _ IH]; intros i st st'; cbn [processRows].
  - intros [= <-]. exists []. rewrite app_nil_r.
    split; [done|]. split; [done|]. by intros j r ?.
  - destruct (processRow langs i r st) as [st1|e] eqn:Hrow; simpl; [|done].
    intros Hrest.
    apply processRow_rewrites in Hrow as (new1 & Hups1 & Hnew1); [|done].
    apply IH in Hrest as (new & Hups & Hlen & Hall).
    exists (new1 ++ new). rewrite Hups, Hups1, <- app_assoc.
    split; [done|]. rewrite length_filter_bool, length_app, Hlen. split.
    + destruct (validId r); [destruct Hnew1 as [d ->]|subst new1]; done.
    + intros [|j] r0 Hj Hv; simpl in Hj.
      * injection Hj as ->. rewrite Hv in Hnew1. destruct Hnew1 as [d ->].
        eexists. split; [apply elem_of_app; left; by left|]. simpl. lia.
      * destruct (Hall j r0 Hj Hv) as (u & Hu & Hrow').
        exists u. split; [apply elem_of_app; by right|]. lia.
Qed.

Lemma syncXLFtoSheet_rewrites (segments : list Segment.t)
    (sheetData : list Row) (r1 : SyncResult) :
  Forall activeNotBoolean sheetData →
  syncXLFtoSheet segments sheetData sheetHeaders = Ok r1 →
  length (updateRows r1) = length (filter (λ r, validId r) sheetData)
  ∧ ∀ i r, sheetData !! i = Some r → validId r = true →
           ∃ u, u ∈ updateRows r1 ∧ row u = i + 2.
Proof.
  intros Hact. unfold syncXLFtoSheet.
  destruct (processRows _ _ _ _) as [st|e] eqn:Hpass; simpl; [|done].
  apply processRows_rewrites in Hpass as (new & Hups & Hlen & Hall); [|done].
  destruct (addNew _ _ _ _). intros [= <-]. simpl in *. subst new.
  split; [done|]. exact Hall.
Qed.

Lemma readSheet_activeNotBoolean (values : option (list (list string))) :
  Forall activeNotBoolean (GoogleSheets.readSheet values).
Proof.
  apply Forall_forall. intros r Hr b.
  destruct (readSheet_cells values r "active" Hr) as [->|[s ->]]; done.
Qed.

Lemma readSheet_sync_Ok (values : option (list (list string)))
    (segments : list Segment.t) :
  ∃ r1, syncXLFtoSheet segments (GoogleSheets.readSheet values) sheetHeaders
        = Ok r1.
Proof.
  destruct (syncXLFtoSheet _ _ _) as [r1|e] eqn:Hrun; [by exists r1|].
  apply syncXLFtoSheet_Err in Hrun as [_ Hbad].
  apply Exists_exists in Hbad as (r & Hr & Ht & Hs). unfold rowId in *.
  destruct (readSheet_cells values r "id" Hr) as [Hid|[s Hid]];
    rewrite Hid in *; done.
Qed.
End TargetedSync_sheet.

(** X21.  When no record has a boolean in its [active] field, the first
    revision rewrites every record whose id is a non-blank string: being
    in step with the segments does not spare a record, because [active]
    is compared with the boolean [true]. *)
Theorem TargetedSync_rewrites_every_record (segments : list Segment.t)
    (sheetData : list Row) (sheetHeaders : list string)
    (r1 : TargetedSync.SyncResult) :
  Forall activeNotBoolean sheetData →
  TargetedSync.syncXLFtoSheet segments sheetData sheetHeaders = Ok r1 →
  length (TargetedSync.updateRows r1)
  = length (filter (λ r, validId r) sheetData)
  ∧ ∀ i r, sheetData !! i = Some r → validId r = true →
           ∃ u, u ∈ TargetedSync.updateRows r1 ∧ TargetedSync.row u = i + 2.
Proof.
  intros Hact Hrun.
  destruct (syncXLFtoSheet_rewrites sheetHeaders segments sheetData r1
              Hact Hrun) as [Hlen Hall].
  split; [exact Hlen|]. intros i r Hi Hv. by apply (Hall i r).
Qed.

(** X22.  On the records that [readSheet] returns the first revision
    never throws, and it rewrites every record whose id is not blank on
    every import: the cells of the sheet are strings, so no record is
    found unchanged in place. *)
Theorem import_from_sheet (values : option (list (list string)))
    (segments : list Segment.t) (sheetHeaders : list string) :
  let sheetData := GoogleSheets.readSheet values in
  ∃ r1, TargetedSync.syncXLFtoSheet segments sheetData sheetHeaders = Ok r1
        ∧ length (GoogleSheets.updateRows sheetHeaders
                    (TargetedSync.updateRows r1))
          = length (filter (λ r, validId r) sheetData)
        ∧ ∀ i r, sheetData !! i = Some r → validId r = true →
                 ∃ cells, (i + 2, cells)
                          ∈ GoogleSheets.updateRows sheetHeaders
                              (TargetedSync.updateRows r1).
Proof.
  intros sheetData.
  destruct (readSheet_sync_Ok sheetHeaders values segments) as [r1 Hrun].
  exists r1. split; [exact Hrun|].
  destruct (syncXLFtoSheet_rewrites sheetHeaders segments sheetData r1
              (readSheet_activeNotBoolean values) Hrun) as [Hlen Hall].
  unfold GoogleSheets.updateRows. rewrite length_map. split; [exact Hlen|].
  intros i r Hi Hv. destruct (Hall i r Hi Hv) as (u & Hu & Hrow).
  exists (GoogleSheets.toRow sheetHeaders (TargetedSync.data u)).
  apply list_elem_of_fmap. exists u. by rewrite Hrow.
Qed.

(** No configured language has the name of a member that every object
    inherits. *)
Lemma language_not_inherited (lang : string) :
  lang ∈ Object_keys LANGUAGES → lang ∉ Object_prototype.
Proof.
  assert (Forall (λ k, k ∉ Object_prototype) (Object_keys LANGUAGES)) as Hall
    by (apply (bool_decide_unpack _); vm_compute; exact I).
  rewrite Forall_forall in Hall. apply Hall.
Qed.

Lemma readSheet_textCell (values : option (list (list string))) (r : Row)
    (lang : string) :
  r ∈ GoogleSheets.readSheet values → lang ∈ Object_keys LANGUAGES →
  textCell lang r = true.
Proof.
  intros Hr Hlang. unfold textCell, read.
  destruct (readSheet_cells values r lang Hr) as [Hc|[s Hc]];
    unfold get in Hc; destruct (r !! lang) as [v|]; simpl in Hc.
  - by subst v.
  - by rewrite bool_decide_eq_false_2 by by apply language_not_inherited.
  - subst v. simpl. by rewrite orb_true_r.
  - done.
Qed.

(** X23.  On the records that [readSheet] returns, [generateXLF] rejects
    the languages that [getAvailableLanguages] does not offer, and for a
    language that is offered it fails only when the builder refuses the
    structure it is given: no cell of the sheet makes the export fail. *)
Theorem export_from_sheet (buildObject : Exporter.Builder)
    (values : option (list (list string))) (sheetHeaders : list string)
    (targetLanguage : string) :
  let sheetData := GoogleSheets.readSheet values in
  match Main.generateXLF buildObject targetLanguage sheetData sheetHeaders with
  | Main.Success result =>
      targetLanguage ∈ Exporter.getAvailableLanguages (Some sheetHeaders)
      ∧ buildObject (Exporter.xlf_target_language (Main.xlfContent result))
                    (Exporter.xlf_trans_units (Main.xlfContent result))
        = Exporter.Xml (Exporter.xlf (Main.xlfContent result))
  | Main.Failure (Main.InvalidLanguage _ _) =>
      targetLanguage ∉ Exporter.getAvailableLanguages (Some sheetHeaders)
  | Main.Failure (Main.FailedToExport e) =>
      targetLanguage ∈ Exporter.getAvailableLanguages (Some sheetHeaders)
      ∧ ∃ code message,
          LANGUAGES_get targetLanguage = Some code
          ∧ buildObject code
              (map (Exporter.toTransUnit targetLanguage)
                 (filter (λ row, Exporter.isActive row
                                 && (isTranslated targetLanguage row
                                     && negb (exceedsMaxwidth
                                                targetLanguage row)))
                         sheetData))
            = Exporter.Throws message
          ∧ e = BuilderError message
  end.
Proof.
  intros sheetData. unfold Main.generateXLF.
  case_bool_decide as Hlang; simpl; [|done].
  destruct (available_configured sheetHeaders targetLanguage Hlang)
    as (code & _ & Hcode).
  rewrite exportXLF_spec, Hcode.
  assert (forallb (textCell targetLanguage)
            (filter (λ row, Exporter.isActive row) sheetData) = true) as ->.
  { apply forallb_active, Forall_forall. intros r Hr _.
    apply (readSheet_textCell values); [done|].
    unfold Exporter.getAvailableLanguages in Hlang.
    by apply list_elem_of_filter in Hlang as [_ ?]. }
  cbv zeta. destruct (buildObject _ _) as [xmlString|message] eqn:Hbuilt.
  - simpl. done.
  - split; [done|]. by exists (Code code), message.
Qed.

(** X24.  [validateXLF] accepts a document exactly when [parseXLF]
    succeeds on it: the comparison of the parsed source language with
    [en_US] never fails after a successful parse. *)
Theorem validateXLF_parses (result : option XlfParser.XValue) :
  validateXLF result = true
  ↔ ∃ parsed, XlfParser.parseXLF result = Ok parsed.
Proof.
  unfold validateXLF.
  destruct (XlfParser.parseXLF result) as [parsed|e] eqn:Hparse.
  - split; [by eexists|]. intros _. unfold XlfParser.parseXLF in Hparse.
    destruct result as [root|]; [|done].
    destruct (_ || _); [done|].
    destruct (XlfParser.and_prop _ _) as [file|]; [|done].
    destruct (XlfParser.strict_ne_text (XlfParser.prop file "source-language")
                "en_US") eqn:Hlang; [done|].
    injection Hparse as <-. simpl. by rewrite Hlang.
  - split; [done|]. by intros [parsed ?].
Qed.

Lemma TargetedSync_rewrites_every_record_witness :
  let sheetData := GoogleSheets.readSheet SheetSamples.values in
  ∃ r1,
    TargetedSync.syncXLFtoSheet Samples.segments sheetData
      Samples.sheetHeaders = Ok r1
    ∧ map TargetedSync.row (TargetedSync.updateRows r1) = [2; 3]
    ∧ length (TargetedSync.updateRows r1)
      = length (filter (λ r, validId r) sheetData)
    ∧ ∀ i r, sheetData !! i = Some r → validId r = true →
             ∃ u, u ∈ TargetedSync.updateRows r1 ∧ TargetedSync.row u = i + 2.
Proof.
  intros sheetData. eexists. split; [vm_compute; reflexivity|].
  split; [reflexivity|].
  apply (TargetedSync_rewrites_every_record Samples.segments sheetData
           Samples.sheetHeaders).
  - repeat constructor; intros b; vm_compute; discriminate.
  - vm_compute. reflexivity.
Defined.

Lemma filter_iff_Forall {A} (P Q : A → Prop) `{!∀ x, Decision (P x)}
    `{!∀ x, Decision (Q x)} (l : list A) :
  Forall (λ x, P x ↔ Q x) l → filter P l = filter Q l.
Proof.
  induction 1 as [|x l Hx _ IH]; [done|].
  destruct (decide (P x)) as [HP|HP].
  - rewrite !filter_cons_True by tauto. by rewrite IH.
  - rewrite !filter_cons_False by tauto. done.
Qed.

(** X25.  The languages [getLanguages] offers, from what the sheet
    returns for its first row: none for a sheet without header row, the
    configured languages that are headers otherwise (the empty headers
    that [getSheetHeaders] drops make no difference); every configured
    language is offered only when reading the headers fails. *)
Theorem getLanguages_from_sheet (values : option (list (list string))) :
  getLanguages (GoogleSheets.getSheetHeaders values)
  = match values with
    | None => []
    | Some [] => Object_keys LANGUAGES
    | Some (headers :: _) =>
        filter (λ lang, lang ∈ headers) (Object_keys LANGUAGES)
    end.
Proof.
  destruct values as [[|headers rest]|]; [reflexivity| |reflexivity].
  unfold GoogleSheets.getSheetHeaders, getLanguages,
    Exporter.getAvailableLanguages.
  apply filter_iff_Forall.
  assert (Forall (λ lang, lang ≠ "") (Object_keys LANGUAGES)) as Hkeys.
  { apply (bool_decide_unpack _). vm_compute. exact I. }
  eapply Forall_impl; [exact Hkeys|]. intros lang Hlang.
  rewrite list_elem_of_filter. split; [tauto|]. intros Hin. split; [|done].
  simpl. by destruct (String.eqb_spec lang "").
Qed.

(** *** The categories the page offers *)

Lemma Set_add_spec (x : string) (s : list string) :
  NoDup s →
  NoDup (Client.Set_add x s) ∧ ∀ c, c ∈ Client.Set_add x s ↔ c ∈ s ∨ c = x.
Proof.
  intros Hnd. unfold Client.Set_add. destruct (decide (x ∈ s)) as [Hin|Hnin].
  - rewrite bool_decide_eq_true_2 by done. split; [done|].
    intros c. split; [tauto|]. by intros [?| ->].
  - rewrite bool_decide_eq_false_2 by done. split.
    + apply NoDup_app. split; [done|]. split; [|apply NoDup_singleton].
      by intros c Hc ->%list_elem_of_singleton.
    + intros c. by rewrite elem_of_app, list_elem_of_singleton.
Qed.

Lemma extractCategory_JStr (s : string) :
  extractCategory (JStr s)
  = if truthy (JStr s)
    then match split "." s with category :: _ => category | [] => "" end
    else "".
Proof. unfold extractCategory. by destruct (truthy (JStr s)). Qed.

Lemma addCategory_spec (id : option string) (categorySet : list string) :
  NoDup categorySet →
  NoDup (Client.addCategory id categorySet)
  ∧ ∀ c, c ∈ Client.addCategory id categorySet
         ↔ c ∈ categorySet
           ∨ (c ≠ "" ∧ ∃ s, id = Some s ∧ extractCategory (JStr s) = c).
Proof.
  intros Hnd. unfold Client.addCategory.
  destruct id as [s|].
  2:{ split; [done|]. intros c. split; [tauto|].
      by intros [?|(_ & s & ? & _)]. }
  assert (∀ c, (c ≠ "" ∧ ∃ s', Some s = Some s' ∧ extractCategory (JStr s') = c)
               ↔ c ≠ "" ∧ extractCategory (JStr s) = c) as Hone.
  { intros c. split; [by intros (? & s' & [= <-] & ?)|].
    intros [? ?]. split; [done|]. by exists s. }
  rewrite extractCategory_JStr in Hone.
  destruct (truthy (JStr s)) eqn:Hs.
  2:{ split; [done|]. intros c. rewrite Hone. split; [tauto|].
      intros [?|[? ?]]; [done|congruence]. }
  destruct (split "." s) as [|category rest] eqn:Hsplit.
  { split; [done|]. intros c. rewrite Hone. split; [tauto|].
    intros [?|[? ?]]; [done|congruence]. }
  destruct (truthy (JStr category)) eqn:Hcat.
  - destruct (Set_add_spec category categorySet Hnd) as [Hnd' Hin].
    split; [done|]. intros c. rewrite Hin, Hone. split.
    + intros [?| ->]; [by left|]. right. split; [|done].
      intros ->. done.
    + intros [?|[? ?]]; [by left|by right].
  - split; [done|]. intros c. rewrite Hone. split; [tauto|].
    intros [?|[Hc <-]]; [done|]. simpl in Hcat.
    by destruct (String.eqb_spec category "").
Qed.

Lemma collectCategories_spec (ids : list (option string)) :
  ∀ categorySet, NoDup categorySet →
    let collected :=
      fold_left (λ categorySet id, Client.addCategory id categorySet)
                ids categorySet in
    NoDup collected
    ∧ ∀ c, c ∈ collected
           ↔ c ∈ categorySet
             ∨ (c ≠ "" ∧ ∃ s, Some s ∈ ids ∧ extractCategory (JStr s) = c).
Proof.
  induction ids as [|id ids IH]; intros categorySet Hnd; cbn [fold_left].
  - split; [done|]. intros c. split; [tauto|].
    by intros [?|(_ & s & ?%elem_of_nil & _)].
  - destruct (addCategory_spec id categorySet Hnd) as [Hnd' Hin].
    destruct (IH _ Hnd') as [Hnd'' Hin'']. split; [done|].
    intros c. rewrite Hin'', Hin. split.
    + intros [[?|(Hc & s & -> & Hs)]|(Hc & s & Hs & Hcat)]; [by left|..].
      * right. split; [done|]. exists s. split; [by left|done].
      * right. split; [done|]. exists s. split; [by right|done].
    + intros [?|(Hc & s & [Hs|Hs]%elem_of_cons & Hcat)]; [by left; left|..].
      * left. right. split; [done|]. by exists s.
      * right. split; [done|]. by exists s.
Qed.

Lemma select_spec (excluded parsed : list string) :
  ∀ selected, NoDup (selected ++ parsed) →
    fold_left (λ selected cat,
                 if bool_decide (cat ∈ excluded)
                 then selected else Client.Set_add cat selected)
              parsed selected
    = selected ++ filter (λ c, c ∉ excluded) parsed.
Proof.
  induction parsed as [|c parsed IH]; intros selected Hnd; cbn [fold_left].
  - by rewrite app_nil_r.
  - apply NoDup_app in Hnd as (Hsel & Hdisj & [Hc Hparsed]%NoDup_cons).
    destruct (decide (c ∈ excluded)) as [Hex|Hex].
    + rewrite bool_decide_eq_true_2 by done.
      rewrite filter_cons_False by tauto. apply IH.
      apply NoDup_app. split; [done|]. split; [|done].
      intros x Hx Hx'. apply (Hdisj x Hx). by right.
    + rewrite bool_decide_eq_false_2 by done.
      rewrite filter_cons_True by done. unfold Client.Set_add.
      rewrite bool_decide_eq_false_2.
      2:{ intros Hin. apply (Hdisj c Hin). by left. }
      rewrite IH; [by rewrite <- app_assoc|].
      rewrite <- app_assoc. simpl. apply NoDup_app. split; [done|].
      split; [done|]. by apply NoDup_cons.
Qed.

Lemma leb_Total : Total (λ s t : string, Is_true (String.leb s t)).
Proof.
  intros s t. destruct (String.leb_total s t) as [H|H]; rewrite H; simpl; tauto.
Qed.

(** X26.  The categories the page offers for an import are the non-empty
    categories that [extractCategory] gives for the ids of the document,
    each once, in ascending order; the ones selected at first are those
    not excluded by default.  The page raises an error instead exactly
    when no id has a non-empty category. *)
Theorem client_categories (ids : list (option string))
    (defaultExcludedCategories : list string) :
  match Client.extractAndDisplayCategories ids defaultExcludedCategories with
  | Client.Shown parsedCategories selectedCategories =>
      Sorted.Sorted (λ s t, String.leb s t) parsedCategories
      ∧ NoDup parsedCategories
      ∧ (∀ c, c ∈ parsedCategories
              ↔ c ≠ "" ∧ ∃ id, Some id ∈ ids ∧ extractCategory (JStr id) = c)
      ∧ selectedCategories
        = filter (λ c, c ∉ defaultExcludedCategories) parsedCategories
  | Client.Alert _ =>
      ∀ id, Some id ∈ ids → extractCategory (JStr id) = ""
  end.
Proof.
  unfold Client.extractAndDisplayCategories.
  destruct (collectCategories_spec ids [] (NoDup_nil_2)) as [Hnd Hin].
  cbv zeta in Hnd, Hin.
  set (categorySet :=
         fold_left (λ categorySet id, Client.addCategory id categorySet)
                   ids []) in *.
  assert (Client.sort categorySet ≡ₚ categorySet) as Hperm
    by apply sorting.merge_sort_Permutation.
  assert (∀ c, c ∈ Client.sort categorySet
               ↔ c ≠ "" ∧ ∃ id, Some id ∈ ids ∧ extractCategory (JStr id) = c)
    as Hsorted.
  { intros c. rewrite Hperm, Hin. split; [|tauto].
    by intros [?%elem_of_nil|?]. }
  destruct (length ids =? 0) eqn:Hids.
  { apply Nat.eqb_eq, length_zero_iff_nil in Hids. subst ids.
    by intros id ?%elem_of_nil. }
  destruct (length (Client.sort categorySet) =? 0) eqn:Hnone.
  - apply Nat.eqb_eq, length_zero_iff_nil in Hnone.
    intros id Hid.
    destruct (decide (extractCategory (JStr id) = "")) as [|Hcat]; [done|].
    assert (extractCategory (JStr id) ∈ Client.sort categorySet) as Habs
      by (apply Hsorted; eauto).
    rewrite Hnone in Habs. by apply elem_of_nil in Habs.
  - split; [|split; [|split]].
    + apply (@sorting.Sorted_merge_sort _ _ _ leb_Total).
    + by rewrite Hperm.
    + exact Hsorted.
    + rewrite (select_spec _ _ []); [done|]. simpl. by rewrite Hperm.
Qed.
